(** * AliaCan: the alias-line codec and the backup lifecycle manager

    A shallow embedding of [AliasManager] (validation, formatting, parsing,
    escaping of shell alias lines) and of [BackupManager] (creation, rotation
    and restoration of time-stamped backups), with the properties the
    specification states about them; and of [ShellDetector] (detection of
    the shell, expansion of the home directory) and [ConfigFileHandler]
    (reading and rewriting the configuration file), with further properties
    of the four.

    Conventions of the embedding:
    - a [std::string] is a [list ascii]; [char] is [ascii];
    - [size_t] is a [Z] in [0, 2^64); [npos] is [2^64 - 1]; additions and
      subtractions on [size_t] wrap around ([wadd], [wsub]);
    - a C++ call that can throw returns an [outcome]: [Returns v] or
      [Throws what]. *)

From Stdlib Require Import ZArith List Ascii String DecimalString Lia Permutation Sorted.
From stdpp Require Import base option list gmap.
Import ListNotations.
Open Scope Z_scope.

(** ** Outcomes of calls that may throw *)

Inductive outcome (A : Type) : Type :=
| Returns (a : A)
| Throws (what : list ascii).
Arguments Returns {A} a.
Arguments Throws {A} what.

Definition obind {A B} (o : outcome A) (k : A -> outcome B) : outcome B :=
  match o with
  | Returns a => k a
  | Throws e => Throws e
  end.

Notation "'let?' x ':=' o 'in' k" := (obind o (fun x => k))
  (at level 10, x name, o at level 100, k at level 200).

(** ** The [std::string] operations the sources use *)

Module Str.

(** A literal of the source text. *)
Definition lit (s : string) : list ascii := list_ascii_of_string s.

(** The quote characters and the backslash, by their codes. *)
Definition squote : ascii := ascii_of_nat 39.
Definition dquote : ascii := ascii_of_nat 34.
Definition backslash : ascii := ascii_of_nat 92.
Definition tab : ascii := ascii_of_nat 9.
Definition space : ascii := ascii_of_nat 32.

Definition two64 : Z := 2 ^ 64.

(** [std::string::npos], the largest [size_t]. *)
Definition npos : Z := two64 - 1.

(** [size_t] arithmetic wraps around. *)
Definition wadd (a b : Z) : Z := (a + b) mod two64.
Definition wsub (a b : Z) : Z := (a - b) mod two64.

(** [s.size()], [s.length()]. *)
Definition size (s : list ascii) : Z := Z.of_nat (length s).

(** Index of the first character satisfying [p]. *)
Fixpoint find_if (p : ascii -> bool) (s : list ascii) : option nat :=
  match s with
  | [] => None
  | c :: s' => if p c then Some 0%nat else option_map S (find_if p s')
  end.

(** Membership of a character in a set of characters given as a string. *)
Definition one_of (chars : list ascii) (c : ascii) : bool :=
  existsb (Ascii.eqb c) chars.

(** [s.find(c, pos)]: the first index [>= pos] holding [c], or [npos]. *)
Definition find (s : list ascii) (c : ascii) (pos : Z) : Z :=
  if size s <=? pos then npos
  else match find_if (Ascii.eqb c) (skipn (Z.to_nat pos) s) with
       | Some i => pos + Z.of_nat i
       | None => npos
       end.

(** [s.find_first_not_of(chars)]. *)
Definition find_first_not_of (s chars : list ascii) : Z :=
  match find_if (fun c => negb (one_of chars c)) s with
  | Some i => Z.of_nat i
  | None => npos
  end.

(** [s.find_last_not_of(chars)]. *)
Definition find_last_not_of (s chars : list ascii) : Z :=
  match find_if (fun c => negb (one_of chars c)) (rev s) with
  | Some i => size s - 1 - Z.of_nat i
  | None => npos
  end.

(** [s.substr(pos, n)]: throws [std::out_of_range] when [pos > size()];
    otherwise the [min(n, size() - pos)] characters from [pos]. *)
Definition substr (s : list ascii) (pos n : Z) : outcome (list ascii) :=
  if size s <? pos then Throws (lit "basic_string::substr")
  else Returns (firstn (Z.to_nat (Z.min n (size s - pos))) (skipn (Z.to_nat pos) s)).

(** [s[i]] for [i] within the string (the sources index only there). *)
Definition at_ (s : list ascii) (i : Z) : ascii :=
  nth (Z.to_nat i) s Ascii.zero.

(** [s.resize(n)] for [n <= size()]: truncation. *)
Definition resize (s : list ascii) (n : Z) : list ascii :=
  firstn (Z.to_nat n) s ++ repeat Ascii.zero (Z.to_nat (n - size s)).

(** [a == b] on strings. *)
Definition eqb (a b : list ascii) : bool :=
  bool_decide (a = b).

(** [pat] is a prefix of [s]. *)
Fixpoint starts_with (pat s : list ascii) : bool :=
  match pat, s with
  | [], _ => true
  | _ :: _, [] => false
  | p :: pat', c :: s' => Ascii.eqb p c && starts_with pat' s'
  end.

(** Index of the first occurrence of [pat] in [s], counted from [i]. *)
Fixpoint find_sub (pat s : list ascii) (i : nat) : option nat :=
  if starts_with pat s then Some i
  else match s with
       | [] => None
       | _ :: s' => find_sub pat s' (S i)
       end.

(** [s.find(pat)] for a string [pat]. *)
Definition find_str (s pat : list ascii) : Z :=
  match find_sub pat s 0 with
  | Some i => Z.of_nat i
  | None => npos
  end.

(** [static_cast<size_t>(z)] of an [int]. *)
Definition to_size_t (z : Z) : Z := z mod two64.

(** [std::isalnum] in the "C" locale. *)
Definition isalnum (c : ascii) : bool :=
  let n := Z.of_nat (nat_of_ascii c) in
  ((48 <=? n) && (n <=? 57)) || ((65 <=? n) && (n <=? 90)) || ((97 <=? n) && (n <=? 122)).

End Str.

(** ** AliasManager *)

Module ShellDetector.

Inductive Shell : Type := BASH | ZSH | FISH | UNKNOWN.

End ShellDetector.

Module AliasManager.
Import Str.

(** [struct Alias]. [enabled] has no initialiser: a default-constructed
    [Alias] leaves it indeterminate, which [None] stands for. *)
Record Alias : Type := mkAlias {
  name : list ascii;
  command : list ascii;
  description : list ascii;
  enabled : option bool;
  created_date : list ascii;
  last_used : list ascii
}.

(** [Alias::operator==] compares the name and the command only. *)
Definition Alias_eqb (a b : Alias) : bool :=
  Str.eqb (name a) (name b) && Str.eqb (command a) (command b).

(** [Alias result;] *)
Definition Alias_default : Alias :=
  {| name := []; command := []; description := []; enabled := None;
     created_date := []; last_used := [] |}.

Definition set_name (a : Alias) (n : list ascii) : Alias :=
  {| name := n; command := command a; description := description a;
     enabled := enabled a; created_date := created_date a; last_used := last_used a |}.

Definition set_command (a : Alias) (c : list ascii) : Alias :=
  {| name := name a; command := c; description := description a;
     enabled := enabled a; created_date := created_date a; last_used := last_used a |}.

(** The object: one field, the shell the formatter targets. *)
Record t : Type := mk { currentShell : ShellDetector.Shell }.

Definition validateAliasName (name : list ascii) : bool :=
  if Str.eqb name [] || (255 <? size name) then false
  else if negb (isalnum (at_ name 0)) && negb (Ascii.eqb (at_ name 0) "_") then false
  else forallb (fun c => isalnum c || Ascii.eqb c "_" || Ascii.eqb c "-") (tl name).

Definition validateCommand (command : list ascii) : bool :=
  if Str.eqb command [] then false
  else if 2048 <? size command then false
  else true.

(** The characters [escapeCommand] prefixes with a backslash. *)
Definition needs_escape (c : ascii) : bool :=
  Ascii.eqb c squote || Ascii.eqb c dquote || Ascii.eqb c backslash || Ascii.eqb c "$" ||
  Ascii.eqb c "`" || Ascii.eqb c "!" || Ascii.eqb c "*" || Ascii.eqb c "?".

(** The loop of [escapeCommand]: the accumulator is [escaped]. *)
Definition escapeCommand (command : list ascii) : list ascii :=
  fold_left
    (fun escaped c =>
       let escaped := if needs_escape c then escaped ++ [backslash] else escaped in
       escaped ++ [c])
    command [].

(** One iteration of the loop of [unescapeString] on
    [(unescaped, prevBackslash)]. *)
Definition unescape_step (st : list ascii * bool) (c : ascii) : list ascii * bool :=
  let '(unescaped, prevBackslash) := st in
  if prevBackslash then (unescaped ++ [c], false)
  else if Ascii.eqb c backslash then (unescaped, true)
  else (unescaped ++ [c], false).

Definition unescapeString (str : list ascii) : list ascii :=
  let '(unescaped, prevBackslash) := fold_left unescape_step str ([], false) in
  if prevBackslash then unescaped ++ [backslash] else unescaped.

Definition formatAlias (self : t) (alias : Alias) : list ascii :=
  if negb (validateAliasName (name alias)) || negb (validateCommand (command alias)) then []
  else
    match currentShell self with
    | ShellDetector.BASH | ShellDetector.ZSH =>
        if negb (find (command alias) squote 0 =? npos) then
          lit "alias " ++ name alias ++ lit "=" ++ [dquote] ++
          escapeCommand (command alias) ++ [dquote]
        else
          lit "alias " ++ name alias ++ lit "='" ++
          escapeCommand (command alias) ++ lit "'"
    | ShellDetector.FISH =>
        lit "alias " ++ name alias ++ lit " '" ++
        escapeCommand (command alias) ++ lit "'"
    | ShellDetector.UNKNOWN =>
        lit "alias " ++ name alias ++ lit "='" ++
        escapeCommand (command alias) ++ lit "'"
    end.

Definition parseAliasLine (line : list ascii) : outcome Alias :=
  let result := Alias_default in
  let start := find_first_not_of line (lit " " ++ [tab]) in
  if start =? npos then Returns result else
  let? kw := substr line start 5 in
  if negb (Str.eqb kw (lit "alias")) then Returns result else
  let eqPos := find line "=" (wadd start 5) in
  if eqPos =? npos then Returns result else
  let? namePart := substr line (wadd start 5) (wsub (wsub eqPos start) 5) in
  let nameStart := find_first_not_of namePart (lit " " ++ [tab]) in
  let nameEnd := find_last_not_of namePart (lit " " ++ [tab]) in
  if nameStart =? npos then Returns result else
  let? nm := substr namePart nameStart (wadd (wsub nameEnd nameStart) 1) in
  let result := set_name result nm in
  let? commandPart := substr line (wadd eqPos 1) npos in
  let cmdStart := find_first_not_of commandPart (lit " " ++ [tab]) in
  if cmdStart =? npos then Returns result else
  let? cmd :=
    (if Ascii.eqb (at_ commandPart cmdStart) squote || Ascii.eqb (at_ commandPart cmdStart) dquote
     then
       let quote := at_ commandPart cmdStart in
       let endQuote := find commandPart quote (wadd cmdStart 1) in
       if negb (endQuote =? npos) then
         substr commandPart (wadd cmdStart 1) (wsub (wsub endQuote cmdStart) 1)
       else
         substr commandPart (wadd cmdStart 1) npos
     else
       let commentPos := find commandPart "#" cmdStart in
       let? c0 := substr commandPart cmdStart (wsub commentPos cmdStart) in
       let end_ := find_last_not_of c0 (lit " " ++ [tab]) in
       Returns (if negb (end_ =? npos) then resize c0 (wadd end_ 1) else c0)) in
  Returns (set_command result (unescapeString cmd)).

Definition isAliasLine (line : list ascii) : outcome bool :=
  let start := find_first_not_of line (lit " " ++ [tab]) in
  if negb (start =? npos) then
    let? kw := substr line start 5 in
    Returns (Str.eqb kw (lit "alias"))
  else Returns false.

Definition extractQuotedString (str : list ascii) (start : Z) : outcome (list ascii) :=
  if size str <=? start then Returns [] else
  let quote := at_ str start in
  if negb (Ascii.eqb quote squote) && negb (Ascii.eqb quote dquote) then Returns [] else
  let end_ := find str quote (wadd start 1) in
  if end_ =? npos then substr str (wadd start 1) npos
  else substr str (wadd start 1) (wsub (wsub end_ start) 1).

End AliasManager.

(** ** The environment of the backup manager

    The file system, the process environment, the clock and the [xz] tool
    are external to the program. [World] is their state, together with the
    failures the environment imposes on the calls the program makes. *)

Module Sys.
Import Str.

(** File contents: plain bytes, or the output of [xz] on some contents. *)
Inductive blob : Type :=
| Plain (bytes : list ascii)
| Xz (inner : blob).

Record file : Type := mkFile { mtime : Z; content : blob }.

(** [struct tm], the fields [generateTimestamp] prints. *)
Record tm : Type := mkTm {
  tm_year : Z; tm_mon : Z; tm_mday : Z; tm_hour : Z; tm_min : Z; tm_sec : Z
}.

Record World : Type := mkWorld {
  (** regular files, by path *)
  files : gmap (list ascii) file;
  (** directories, with their permission bits *)
  dirs : gmap (list ascii) Z;
  (** [getenv("HOME")] *)
  env_HOME : option (list ascii);
  (** the file clock and [localtime(now)] *)
  now : Z;
  localtime : tm;
  (** paths that are no entry for the process and whose status cannot be
      read either (a name too long, a directory on the way that may not be
      searched): [exists] throws on them *)
  status_unreadable : gset (list ascii);
  (** paths whose [last_write_time] throws *)
  time_unreadable : gset (list ascii);
  (** paths whose [remove] throws *)
  undeletable : gset (list ascii);
  (** paths on which [xz] exits with a failure *)
  xz_failing : gset (list ascii);
  (** [copy_file], [create_directories], [permissions] throw with this
      message when set *)
  copy_failure : option (list ascii);
  mkdir_failure : option (list ascii);
  chmod_failure : option (list ascii)
}.

Definition set_files (w : World) (f : gmap (list ascii) file) : World :=
  {| files := f; dirs := dirs w; env_HOME := env_HOME w; now := now w;
     localtime := localtime w; status_unreadable := status_unreadable w;
     time_unreadable := time_unreadable w;
     undeletable := undeletable w; xz_failing := xz_failing w;
     copy_failure := copy_failure w; mkdir_failure := mkdir_failure w;
     chmod_failure := chmod_failure w |}.

Definition set_dirs (w : World) (d : gmap (list ascii) Z) : World :=
  {| files := files w; dirs := d; env_HOME := env_HOME w; now := now w;
     localtime := localtime w; status_unreadable := status_unreadable w;
     time_unreadable := time_unreadable w;
     undeletable := undeletable w; xz_failing := xz_failing w;
     copy_failure := copy_failure w; mkdir_failure := mkdir_failure w;
     chmod_failure := chmod_failure w |}.

(** The object under execution: [BackupManager]'s two members. *)
Record Manager : Type := mkManager {
  originalFilePath : list ascii;
  lastError : list ascii
}.

Record Machine : Type := mkMachine { world : World; self : Manager }.

(** Computations: they read and change the machine, and return or throw. *)
Definition M (A : Type) : Type := Machine -> outcome A * Machine.

Definition ret {A} (a : A) : M A := fun m => (Returns a, m).

Definition throw {A} (what : list ascii) : M A := fun m => (Throws what, m).

Definition bind {A B} (c : M A) (k : A -> M B) : M B :=
  fun m => match c m with
           | (Returns a, m') => k a m'
           | (Throws e, m') => (Throws e, m')
           end.

(** [try { c } catch (const std::exception& e) { h e.what() }] *)
Definition try_catch {A} (c : M A) (h : list ascii -> M A) : M A :=
  fun m => match c m with
           | (Returns a, m') => (Returns a, m')
           | (Throws e, m') => h e m'
           end.

Definition lift {A} (o : outcome A) : M A := fun m => (o, m).

Definition get_world : M World := fun m => (Returns (world m), m).

Definition put_world (w : World) : M unit :=
  fun m => (Returns tt, {| world := w; self := self m |}).

Definition get_originalFilePath : M (list ascii) :=
  fun m => (Returns (originalFilePath (self m)), m).

Definition set_lastError (e : list ascii) : M unit :=
  fun m => (Returns tt,
            {| world := world m;
               self := {| originalFilePath := originalFilePath (self m); lastError := e |} |}).

End Sys.

Notation "'let!' x ':=' c 'in' k" := (Sys.bind c (fun x => k))
  (at level 10, x name, c at level 100, k at level 200).
Notation "'do!' c 'in' k" := (Sys.bind c (fun _ => k))
  (at level 10, c at level 100, k at level 200).

(** ** [std::filesystem], [std::system], the clock *)

Module fs.
Import Str Sys.

(** Split at the last slash: what is before it (if there is one) and what
    is after it. *)
Fixpoint split_last_slash (p : list ascii) : option (list ascii) * list ascii :=
  match p with
  | [] => (None, [])
  | c :: p' =>
      match split_last_slash p' with
      | (Some before, name) => (Some (c :: before), name)
      | (None, name) =>
          if Ascii.eqb c "/" then (Some [], name) else (None, c :: name)
      end
  end.

(** [path(p).filename()]: what follows the last slash. *)
Definition filename (p : list ascii) : list ascii := snd (split_last_slash p).

Fixpoint strip_slashes_rev (r : list ascii) : list ascii :=
  match r with
  | c :: r' => if Ascii.eqb c "/" then strip_slashes_rev r' else r
  | [] => []
  end.

(** [path(p).parent_path()]: what precedes the last slash, without trailing
    slashes; the root for a file directly under it; empty without a slash. *)
Definition parent_path (p : list ascii) : list ascii :=
  match fst (split_last_slash p) with
  | None => []
  | Some before =>
      match rev (strip_slashes_rev (rev before)) with
      | [] => lit "/"
      | dir => dir
      end
  end.

(** [path(a) / b] *)
Definition join (a b : list ascii) : list ascii :=
  if starts_with (lit "/") b then b
  else match rev a with
       | [] => b
       | c :: _ => if Ascii.eqb c "/" then a ++ b else a ++ lit "/" ++ b
       end.

(** [fs::exists]: an entry that is there exists; on a path whose status
    cannot be read the call throws; any other path does not exist. *)
Definition exists_ (p : list ascii) : M bool :=
  let! w := get_world in
  if bool_decide (is_Some (files w !! p)) || bool_decide (is_Some (dirs w !! p)) then ret true
  else if bool_decide (p ∈ status_unreadable w) then
    throw (lit "filesystem error: cannot get file status")
  else ret false.

(** [fs::copy_file(from, to, copy_options::overwrite_existing)]: the copy
    is a file written now. *)
Definition copy_file (from to : list ascii) : M unit :=
  let! w := get_world in
  match copy_failure w with
  | Some what => throw what
  | None =>
      match files w !! from with
      | None => throw (lit "filesystem error: cannot copy file")
      | Some f => put_world (set_files w (<[to := mkFile (now w) (content f)]> (files w)))
      end
  end.

(** [fs::last_write_time] *)
Definition last_write_time (p : list ascii) : M Z :=
  let! w := get_world in
  if bool_decide (p ∈ time_unreadable w) then
    throw (lit "filesystem error: cannot get file time")
  else match files w !! p with
       | Some f => ret (mtime f)
       | None => throw (lit "filesystem error: cannot get file time")
       end.

(** [fs::remove]: [true] when a file was removed, [false] when there was
    none; throws when the environment refuses. *)
Definition remove (p : list ascii) : M bool :=
  let! w := get_world in
  if bool_decide (p ∈ undeletable w) then throw (lit "filesystem error: cannot remove")
  else match files w !! p with
       | Some _ => do! put_world (set_files w (delete p (files w))) in ret true
       | None => ret false
       end.

(** [fs::create_directories] *)
Definition create_directories (p : list ascii) : M unit :=
  let! w := get_world in
  match mkdir_failure w with
  | Some what => throw what
  | None =>
      match dirs w !! p with
      | Some _ => ret tt
      | None => put_world (set_dirs w (<[p := 493]> (dirs w)))
      end
  end.

(** [fs::permissions(p, mode, perm_options::replace)] *)
Definition permissions (p : list ascii) (mode : Z) : M unit :=
  let! w := get_world in
  match chmod_failure w with
  | Some what => throw what
  | None => put_world (set_dirs w (<[p := mode]> (dirs w)))
  end.

(** [perms::owner_read | perms::owner_write | perms::owner_exec] *)
Definition owner_all : Z := 448.

(** The regular files a [directory_iterator] over [dir] meets: those whose
    path is [dir / name] for their own file name. The constructor throws
    when [dir] is no directory. *)
Definition directory_iterator (dir : list ascii) : M (list (list ascii)) :=
  let! w := get_world in
  match dirs w !! dir with
  | None => throw (lit "filesystem error: directory iterator cannot open directory")
  | Some _ =>
      ret (List.filter
             (fun p => negb (Str.eqb (filename p) []) && Str.eqb (join dir (filename p)) p)
             (map fst (map_to_list (files w))))
  end.

(** [std::getenv("HOME")] *)
Definition getenv_HOME : M (option (list ascii)) :=
  let! w := get_world in ret (env_HOME w).

(** [std::localtime] of the current time. *)
Definition localtime_now : M tm :=
  let! w := get_world in ret (localtime w).

End fs.

Module xz.
Import Str Sys.

Fixpoint strip_prefix (pre s : list ascii) : option (list ascii) :=
  match pre, s with
  | [], _ => Some s
  | _ :: _, [] => None
  | a :: pre', c :: s' => if Ascii.eqb a c then strip_prefix pre' s' else None
  end.

(** [s] ends with ".xz". *)
Definition has_xz_suffix (s : list ascii) : bool :=
  starts_with (rev (lit ".xz")) (rev s).

(** [xz -9e p]: replaces [p] by [p.xz]; refuses a file that has the suffix
    already and a target that exists. The exit status is returned. *)
Definition compress (p : list ascii) : M Z :=
  let! w := get_world in
  if bool_decide (p ∈ xz_failing w) then ret 1
  else if has_xz_suffix p then ret 2
  else match files w !! p, files w !! (p ++ lit ".xz") with
       | Some f, None =>
           do! put_world (set_files w (<[p ++ lit ".xz" := mkFile (mtime f) (Xz (content f))]>
                                        (delete p (files w)))) in
           ret 0
       | _, _ => ret 1
       end.

(** [xz -d -k -f p]: writes the contents of [p] decompressed beside it,
    under the name without the suffix, over whatever is there; keeps [p]. *)
Definition decompress (p : list ascii) : M Z :=
  let! w := get_world in
  if bool_decide (p ∈ xz_failing w) then ret 1
  else if negb (has_xz_suffix p) then ret 2
  else match files w !! p with
       | Some (mkFile t (Xz inner)) =>
           do! put_world (set_files w (<[firstn (length p - 3) p := mkFile t inner]> (files w))) in
           ret 0
       | _ => ret 1
       end.

(** [std::system(cmd)] for the two command lines the program builds; the
    path is taken as one word of the command line. *)
Definition system (cmd : list ascii) : M Z :=
  match strip_prefix (lit "xz -9e ") cmd with
  | Some p => compress p
  | None =>
      match strip_prefix (lit "xz -d -k -f ") cmd with
      | Some p => decompress p
      | None => ret 127
      end
  end.

End xz.

(** ** BackupManager *)

Module BackupManager.
Import Str Sys.

(** Two decimal digits, as [%m], [%d], [%H], [%M], [%S] print them. *)
Definition two_digits (v : Z) : list ascii :=
  [ascii_of_nat (48 + Z.to_nat (v / 10 mod 10)); ascii_of_nat (48 + Z.to_nat (v mod 10))].

(** A number in decimal, as [%Y] prints the year. *)
Definition decimal (v : Z) : list ascii :=
  list_ascii_of_string (NilZero.string_of_uint (N.to_uint (Z.to_N v))).

(** [std::put_time(t, "%Y%m%d_%H%M%S")] *)
Definition put_time (t : tm) : list ascii :=
  decimal (1900 + tm_year t) ++ two_digits (tm_mon t + 1) ++ two_digits (tm_mday t) ++
  lit "_" ++ two_digits (tm_hour t) ++ two_digits (tm_min t) ++ two_digits (tm_sec t).

Definition generateTimestamp : M (list ascii) :=
  let! time := fs.localtime_now in
  ret (put_time time).

Definition getBackupBaseName : M (list ascii) :=
  let! originalFilePath := get_originalFilePath in
  ret (fs.filename originalFilePath ++ lit ".bak").

Definition getBackupDirectory : M (list ascii) :=
  let! originalFilePath := get_originalFilePath in
  let! homeDir := fs.getenv_HOME in
  match homeDir with
  | None => ret (fs.parent_path originalFilePath)
  | Some homeDir =>
      let backupDir := fs.join homeDir (lit ".shellbackup") in
      try_catch
        (let! present := fs.exists_ backupDir in
         do! (if negb present then
                do! fs.create_directories backupDir in
                fs.permissions backupDir fs.owner_all
              else ret tt) in
         ret backupDir)
        (fun what =>
           do! set_lastError (lit "Failed to create backup directory: " ++ what) in
           ret (fs.parent_path originalFilePath))
  end.

Definition listBackups : M (list (list ascii)) :=
  let! backupPattern := getBackupBaseName in
  let! backupDir := getBackupDirectory in
  try_catch
    (let! entries := fs.directory_iterator backupDir in
     ret (List.filter
            (fun entry => negb (find_str (fs.filename entry) backupPattern =? npos)) entries))
    (fun what =>
       do! set_lastError (lit "Failed to list backups: " ++ what) in
       ret []).

(** The loop pairing each backup with its modification time; a backup
    whose time cannot be read is skipped. *)
Fixpoint pairWithTime (backups : list (list ascii)) (backupsWithTime : list (list ascii * Z))
  : M (list (list ascii * Z)) :=
  match backups with
  | [] => ret backupsWithTime
  | backup :: rest =>
      let! backupsWithTime :=
        try_catch
          (let! t := fs.last_write_time backup in
           ret (backupsWithTime ++ [(backup, t)]))
          (fun _ => ret backupsWithTime) in
      pairWithTime rest backupsWithTime
  end.

(** [backupPath.substr(backupPath.size() - 3)] *)
Definition last3 (path : list ascii) : outcome (list ascii) :=
  substr path (wsub (size path) 3) npos.

(** [BackupManager::isNewer] *)
Definition isNewer (file1 file2 : list ascii) : M bool :=
  try_catch
    (let! time1 := fs.last_write_time file1 in
     let! time2 := fs.last_write_time file2 in
     ret (time2 <? time1))
    (fun _ => ret false).

Section Sorting.

(** [std::sort] with the comparator [a.second > b.second]: some
    rearrangement of its input in which no later element is newer than an
    earlier one. The order of elements of equal time is not fixed. *)
Variable std_sort : list (list ascii * Z) -> list (list ascii * Z).

(** The loop of [cleanupAndCompressOldBackups] from index [i] on. *)
Fixpoint rotate (maxBackups : Z) (i : Z) (backupsWithTime : list (list ascii * Z))
  (deleted : Z) : M Z :=
  match backupsWithTime with
  | [] => ret deleted
  | (path, _) :: rest =>
      let! deleted :=
        (if to_size_t maxBackups <=? i then
           try_catch
             (do! fs.remove path in
              ret (deleted + 1))
             (fun _ => ret deleted)
         else
           let! raw :=
             (if 10 <=? i then
                let! suffix := lift (last3 path) in
                ret (negb (Str.eqb suffix (lit ".xz")))
              else ret false) in
           if raw then
             let cmd := lit "xz -9e " ++ path in
             let! status := xz.system cmd in
             do! (if negb (status =? 0) then
                    set_lastError (lit "Failed to compress backup: " ++ path)
                  else ret tt) in
             ret deleted
           else ret deleted) in
      rotate maxBackups (wadd i 1) rest deleted
  end.

Definition cleanupAndCompressOldBackups (maxBackups : Z) : M Z :=
  let maxBackups := if maxBackups <=? 0 then 20 else maxBackups in
  let! backups := listBackups in
  let! backupsWithTime := pairWithTime backups [] in
  let backupsWithTime := std_sort backupsWithTime in
  rotate maxBackups 0 backupsWithTime 0.

Definition createBackup : M (list ascii) :=
  let! originalFilePath := get_originalFilePath in
  let! present := fs.exists_ originalFilePath in
  if negb present then
    do! set_lastError (lit "Original file does not exist: " ++ originalFilePath) in
    ret []
  else
    let! backupDir := getBackupDirectory in
    let! timestamp := generateTimestamp in
    let backupFilename := fs.filename originalFilePath ++ lit ".bak" ++ timestamp in
    let backupPath := fs.join backupDir backupFilename in
    try_catch
      (do! fs.copy_file originalFilePath backupPath in
       do! cleanupAndCompressOldBackups 20 in
       ret backupPath)
      (fun what =>
         do! set_lastError (lit "Failed to create backup: " ++ what) in
         ret []).

Definition restoreFromBackup (backupPath : list ascii) : M bool :=
  let! originalFilePath := get_originalFilePath in
  let! suffix := lift (last3 backupPath) in
  let! unpacked :=
    (if Str.eqb suffix (lit ".xz") then
       let! whole := lift (substr backupPath 0 (wsub (size backupPath) 3)) in
       let cmd := lit "xz -d -k -f " ++ backupPath in
       let! status := xz.system cmd in
       if negb (status =? 0) then
         do! set_lastError (lit "Failed to decompress backup: " ++ backupPath) in
         ret None
       else ret (Some whole)
     else ret (Some backupPath)) in
  match unpacked with
  | None => ret false
  | Some actualBackupPath =>
      let! present := fs.exists_ actualBackupPath in
      if negb present then
        do! set_lastError (lit "Backup file does not exist: " ++ actualBackupPath) in
        ret false
      else
        try_catch
          (do! fs.copy_file actualBackupPath originalFilePath in
           ret true)
          (fun what =>
             do! set_lastError (lit "Failed to restore from backup: " ++ what) in
             ret false)
  end.

Definition getLastBackupPath : M (list ascii) :=
  let! backups := listBackups in
  if bool_decide (backups = []) then ret []
  else
    let! backupsWithTime := pairWithTime backups [] in
    if bool_decide (backupsWithTime = []) then ret []
    else
      let backupsWithTime := std_sort backupsWithTime in
      ret (fst (nth 0 backupsWithTime ([], 0))).

Definition restoreFromLastBackup : M bool :=
  let! lastBackup := getLastBackupPath in
  if Str.eqb lastBackup [] then
    do! set_lastError (lit "No backup found") in
    ret false
  else restoreFromBackup lastBackup.

End Sorting.

End BackupManager.

(** ** Further library operations: lines of a stream, characters, numbers *)

Module Cxx.
Import Str.

Definition newline : ascii := ascii_of_nat 10.

(** What one [std::getline] takes from a stream that is not at its end: the
    characters before the next newline, and what is left behind that
    newline, which is consumed. *)
Fixpoint read_line (input : list ascii) : list ascii * list ascii :=
  match input with
  | [] => ([], [])
  | c :: input' =>
      if Ascii.eqb c newline then ([], input')
      else let '(line, rest) := read_line input' in (c :: line, rest)
  end.

(** [std::getline(stream, line)] on a stream holding [input]: fails at the
    end of the input; otherwise the line and the rest of the stream. *)
Definition getline (input : list ascii) : option (list ascii * list ascii) :=
  match input with
  | [] => None
  | _ :: _ => Some (read_line input)
  end.

(** The lines [while (std::getline(stream, line))] meets. Every call that
    succeeds consumes a character, so [rounds] calls are enough for an input
    of [rounds] characters. *)
Fixpoint getlines_from (rounds : nat) (input : list ascii) : list (list ascii) :=
  match rounds with
  | O => []
  | S rounds =>
      match getline input with
      | None => []
      | Some (line, rest) => line :: getlines_from rounds rest
      end
  end.

Definition getlines (input : list ascii) : list (list ascii) :=
  getlines_from (length input) input.

(** [::tolower] in the "C" locale. *)
Definition tolower (c : ascii) : ascii :=
  let n := nat_of_ascii c in
  if (65 <=? n)%nat && (n <=? 90)%nat then ascii_of_nat (n + 32) else c.

(** [s.find_last_of(c)] *)
Definition find_last_of (s : list ascii) (c : ascii) : Z :=
  match find_if (Ascii.eqb c) (rev s) with
  | Some i => size s - 1 - Z.of_nat i
  | None => npos
  end.

(** [std::to_string] of an [int]. *)
Definition to_string (v : Z) : list ascii :=
  if v <? 0 then lit "-" ++ list_ascii_of_string (NilZero.string_of_uint (N.to_uint (Z.to_N (- v))))
  else list_ascii_of_string (NilZero.string_of_uint (N.to_uint (Z.to_N v))).

(** [s.back()] and [s.pop_back()] on a string that is not empty. *)
Definition back (s : list ascii) : ascii := List.last s Ascii.zero.
Definition pop_back (s : list ascii) : list ascii := List.removelast s.

End Cxx.

(** ** The host: the file system with its permission bits, the process
    environment, the password database *)

Module Posix.
Import Str Sys.

Record Host : Type := mkHost {
  (** the file system, the clock, [HOME] *)
  disk : World;
  (** [getenv] of the variables other than [HOME] *)
  environ : gmap (list ascii) (list ascii);
  (** [getpwuid(getuid())->pw_dir]; [None] when the call gives no entry *)
  pw_dir_self : option (list ascii);
  (** [getpwnam(name)->pw_dir] *)
  pw_dir_of : gmap (list ascii) (list ascii);
  (** [getppid()] *)
  ppid : Z;
  (** what [ps -p <ppid> -o comm=] prints; [None] when [popen] fails *)
  ps_comm : option (list ascii);
  (** the bytes [xz] writes for given contents *)
  xz_bytes : blob -> list ascii;
  (** the permission bits of the regular files *)
  file_mode : list ascii -> Z;
  umask : Z;
  (** paths the process may not open for reading, open for writing, change
      the mode of *)
  read_denied : gset (list ascii);
  write_denied : gset (list ascii);
  chmod_denied : gset (list ascii)
}.

Definition set_disk (h : Host) (w : World) : Host :=
  {| disk := w; environ := environ h; pw_dir_self := pw_dir_self h; pw_dir_of := pw_dir_of h;
     ppid := ppid h; ps_comm := ps_comm h; xz_bytes := xz_bytes h; file_mode := file_mode h;
     umask := umask h; read_denied := read_denied h; write_denied := write_denied h;
     chmod_denied := chmod_denied h |}.

Definition set_file_mode (h : Host) (modes : list ascii -> Z) : Host :=
  {| disk := disk h; environ := environ h; pw_dir_self := pw_dir_self h; pw_dir_of := pw_dir_of h;
     ppid := ppid h; ps_comm := ps_comm h; xz_bytes := xz_bytes h; file_mode := modes;
     umask := umask h; read_denied := read_denied h; write_denied := write_denied h;
     chmod_denied := chmod_denied h |}.

Definition set_file (h : Host) (path : list ascii) (f : file) : Host :=
  set_disk h (set_files (disk h) (<[path := f]> (files (disk h)))).

(** [std::getenv] *)
Definition getenv (h : Host) (name : list ascii) : option (list ascii) :=
  if Str.eqb name (lit "HOME") then env_HOME (disk h) else environ h !! name.

(** [fs::exists]: an entry that is there exists; on a path whose status
    cannot be read the call throws; any other path does not exist. *)
Definition exists_ (h : Host) (p : list ascii) : outcome bool :=
  if bool_decide (is_Some (files (disk h) !! p)) || bool_decide (is_Some (dirs (disk h) !! p))
  then Returns true
  else if bool_decide (p ∈ status_unreadable (disk h)) then
    Throws (lit "filesystem error: cannot get file status")
  else Returns false.

(** The bytes a file holds. *)
Definition bytes_of (h : Host) (b : blob) : list ascii :=
  match b with
  | Plain bytes => bytes
  | Xz inner => xz_bytes h inner
  end.

(** [std::ifstream file(path)]: what there is to read when [is_open()]. A
    directory opens and gives nothing to read. *)
Definition ifstream (h : Host) (path : list ascii) : option (list ascii) :=
  if bool_decide (path ∈ read_denied h) then None
  else match files (disk h) !! path with
       | Some f => Some (bytes_of h (content f))
       | None => if bool_decide (is_Some (dirs (disk h) !! path)) then Some [] else None
       end.

(** The mode of a file the process creates: [0666 & ~umask]. *)
Definition created_mode (h : Host) : Z := Z.ldiff 438 (umask h).

Definition create_file (h : Host) (path : list ascii) : Host :=
  set_file
    (set_file_mode h (fun q => if Str.eqb q path then created_mode h else file_mode h q))
    path (mkFile (now (disk h)) (Plain [])).

(** [std::ofstream file(path)], [std::ofstream file(path, std::ios::trunc)]:
    the host once the file is open, emptied or created; [None] when
    [is_open()] is false. *)
Definition ofstream_trunc (h : Host) (path : list ascii) : option Host :=
  if bool_decide (path ∈ write_denied h) || bool_decide (is_Some (dirs (disk h) !! path))
  then None
  else match files (disk h) !! path with
       | Some _ => Some (set_file h path (mkFile (now (disk h)) (Plain [])))
       | None => Some (create_file h path)
       end.

(** [std::ofstream file(path, std::ios::app)]: the contents stay. *)
Definition ofstream_app (h : Host) (path : list ascii) : option Host :=
  if bool_decide (path ∈ write_denied h) || bool_decide (is_Some (dirs (disk h) !! path))
  then None
  else match files (disk h) !! path with
       | Some _ => Some h
       | None => Some (create_file h path)
       end.

(** [file << text], flushed when the stream closes. *)
Definition write (h : Host) (path text : list ascii) : Host :=
  match text, files (disk h) !! path with
  | _ :: _, Some f => set_file h path (mkFile (now (disk h)) (Plain (bytes_of h (content f) ++ text)))
  | _, _ => h
  end.

(** [chmod(path, mode)]: the host afterwards and the result, 0 or -1. *)
Definition chmod (h : Host) (path : list ascii) (mode : Z) : Host * Z :=
  if bool_decide (path ∈ chmod_denied h) then (h, -1)
  else match files (disk h) !! path, dirs (disk h) !! path with
       | Some _, _ =>
           (set_file_mode h (fun q => if Str.eqb q path then mode else file_mode h q), 0)
       | None, Some _ => (set_disk h (set_dirs (disk h) (<[path := mode]> (dirs (disk h)))), 0)
       | None, None => (h, -1)
       end.

(** [stat(path, &sb)]: the permission bits of [sb.st_mode] when the call
    returns 0. *)
Definition stat (h : Host) (path : list ascii) : option Z :=
  match files (disk h) !! path, dirs (disk h) !! path with
  | Some _, _ => Some (file_mode h path)
  | None, Some mode => Some mode
  | None, None => None
  end.

Definition S_IRUSR : Z := 256.
Definition S_IWUSR : Z := 128.
Definition S_IRGRP : Z := 32.
Definition S_IROTH : Z := 4.

End Posix.

(** ** ShellDetector *)

Module ShellDetectorImpl.
Import Str Cxx Posix.
Import ShellDetector.

Definition BASHRC : list ascii := lit ".bashrc".
Definition ZSHRC : list ascii := lit ".zshrc".
Definition FISH_CONFIG : list ascii := lit ".config/fish/config.fish".

Definition expandHome (h : Host) (path : list ascii) : outcome (list ascii) :=
  if Str.eqb path [] || negb (Ascii.eqb (at_ path 0) "~") then Returns path else
  let homeDir :=
    match getenv h (lit "HOME") with
    | Some dir => Some dir
    | None => pw_dir_self h
    end in
  match homeDir with
  | None => Returns path
  | Some homeDir =>
      if size path =? 1 then Returns homeDir else
      if negb (Ascii.eqb (at_ path 1) "/") then
        let slashPos := find path "/" 0 in
        let? username :=
          (if slashPos =? npos then substr path 1 npos
           else substr path 1 (wsub slashPos 1)) in
        match pw_dir_of h !! username with
        | Some homeDir =>
            if negb (slashPos =? npos) then
              let? tail := substr path slashPos npos in
              Returns (homeDir ++ tail)
            else Returns homeDir
        | None => Returns path
        end
      else
        let? tail := substr path 1 npos in
        Returns (homeDir ++ tail)
  end.

Definition detectFromEnvironment (h : Host) : outcome Shell :=
  match getenv h (lit "BASH_VERSION") with
  | Some _ => Returns BASH
  | None =>
  match getenv h (lit "ZSH_VERSION") with
  | Some _ => Returns ZSH
  | None =>
  match getenv h (lit "FISH_VERSION") with
  | Some _ => Returns FISH
  | None =>
  match getenv h (lit "SHELL") with
  | Some shellPath =>
      let lastSlash := find_last_of shellPath "/" in
      let? shellName :=
        (if negb (lastSlash =? npos) then substr shellPath (wadd lastSlash 1) npos
         else Returns shellPath) in
      let shellNameLower := map tolower shellName in
      if negb (find_str shellNameLower (lit "zsh") =? npos) then Returns ZSH
      else if negb (find_str shellNameLower (lit "bash") =? npos) then Returns BASH
      else if negb (find_str shellNameLower (lit "fish") =? npos) then Returns FISH
      else Returns UNKNOWN
  | None => Returns UNKNOWN
  end end end end.

(** The loop of [detectFromConfigFiles] over the table of configuration
    files. *)
Fixpoint first_config (h : Host) (home : list ascii) (configs : list (Shell * list ascii))
  : outcome Shell :=
  match configs with
  | [] => Returns UNKNOWN
  | (shell, config) :: rest =>
      let configPath := home ++ lit "/" ++ config in
      let? present := exists_ h configPath in
      if present then Returns shell else first_config h home rest
  end.

Definition detectFromConfigFiles (h : Host) : outcome Shell :=
  let? home := expandHome h (lit "~") in
  let configs := [(BASH, BASHRC); (ZSH, ZSHRC); (FISH, FISH_CONFIG)] in
  first_config h home configs.

Definition getParentProcess (h : Host) : list ascii :=
  let parentPid := ppid h in
  let procPath := lit "/proc/" ++ to_string parentPid ++ lit "/comm" in
  let fromProc :=
    match ifstream h procPath with
    | Some bytes =>
        match getline bytes with
        | Some (processName, _) =>
            Some (if negb (Str.eqb processName []) && Ascii.eqb (back processName) newline
                  then pop_back processName else processName)
        | None => None
        end
    | None => None
    end in
  match fromProc with
  | Some processName => processName
  | None =>
      match ps_comm h with
      | Some result =>
          if negb (Str.eqb result []) && Ascii.eqb (back result) newline
          then pop_back result else result
      | None => []
      end
  end.

(** [shell == Shell::UNKNOWN] *)
Definition is_unknown (shell : Shell) : bool :=
  match shell with
  | UNKNOWN => true
  | _ => false
  end.

(** [detectShell]: the shell, and what it writes to [std::cout]. *)
Definition detectShell (h : Host) : outcome (Shell * list ascii) :=
  let? shell := detectFromEnvironment h in
  if negb (is_unknown shell) then Returns (shell, []) else
  let? shell := detectFromConfigFiles h in
  if negb (is_unknown shell) then Returns (shell, []) else
  let parent := getParentProcess h in
  let fromParent :=
    if negb (Str.eqb parent []) then
      let parentLower := map tolower parent in
      if negb (find_str parentLower (lit "zsh") =? npos) then Some ZSH
      else if negb (find_str parentLower (lit "bash") =? npos) then Some BASH
      else if negb (find_str parentLower (lit "fish") =? npos) then Some FISH
      else None
    else None in
  match fromParent with
  | Some shell => Returns (shell, [])
  | None =>
      match getenv h (lit "SHELL") with
      | Some shellEnv =>
          Returns (BASH, lit "Warning: Using BASH fallback (detected SHELL=" ++ shellEnv ++
                         lit ")" ++ [newline])
      | None => Returns (BASH, [])
      end
  end.

Definition getConfigFilePath (h : Host) (shell : Shell) : outcome (list ascii) :=
  let? home := expandHome h (lit "~") in
  match shell with
  | BASH => Returns (home ++ lit "/" ++ BASHRC)
  | ZSH => Returns (home ++ lit "/" ++ ZSHRC)
  | FISH => Returns (home ++ lit "/" ++ FISH_CONFIG)
  | UNKNOWN => Returns []
  end.

Definition getShellName (shell : Shell) : list ascii :=
  match shell with
  | BASH => lit "BASH"
  | ZSH => lit "ZSH"
  | FISH => lit "FISH"
  | UNKNOWN => lit "UNKNOWN"
  end.

End ShellDetectorImpl.

(** ** ConfigFileHandler *)

(** Computations on a state [S] that return or throw. *)
Module IO.

Definition t (S A : Type) : Type := S -> outcome A * S.

Definition ret {S A} (a : A) : t S A := fun s => (Returns a, s).

Definition bind {S A B} (c : t S A) (k : A -> t S B) : t S B :=
  fun s => match c s with
           | (Returns a, s') => k a s'
           | (Throws e, s') => (Throws e, s')
           end.

Definition lift {S A} (o : outcome A) : t S A := fun s => (o, s).

End IO.

Notation "'let*' x ':=' c 'in' k" := (IO.bind c (fun x => k))
  (at level 10, x name, c at level 100, k at level 200).
Notation "'do*' c 'in' k" := (IO.bind c (fun _ => k))
  (at level 10, c at level 100, k at level 200).

Module ConfigFileHandler.
Import Str Cxx Posix AliasManager.

(** The object: its four members. *)
Record t : Type := mk {
  configFilePath : list ascii;
  shell : ShellDetector.Shell;
  lastError : list ascii;
  aliasManager : AliasManager.t
}.

(** The constructor. *)
Definition new (configFilePath : list ascii) (shell : ShellDetector.Shell) : t :=
  {| configFilePath := configFilePath; shell := shell; lastError := [];
     aliasManager := AliasManager.mk shell |}.

Record State : Type := mkState { host : Host; this : t }.

Definition M (A : Type) : Type := IO.t State A.

Definition get_host : M Host := fun s => (Returns (host s), s).

Definition put_host (h : Host) : M unit :=
  fun s => (Returns tt, {| host := h; this := this s |}).

Definition get_this : M t := fun s => (Returns (this s), s).

Definition set_lastError (e : list ascii) : M unit :=
  fun s => (Returns tt,
            {| host := host s;
               this := {| configFilePath := configFilePath (this s); shell := shell (this s);
                          lastError := e; aliasManager := aliasManager (this s) |} |}).

Definition configFileExists : M bool :=
  let* self := get_this in
  let* h := get_host in
  IO.lift (exists_ h (configFilePath self)).

Definition setFilePermissions : M bool :=
  let* self := get_this in
  let* h := get_host in
  let '(h', result) := chmod h (configFilePath self) (Z.lor (Z.lor (Z.lor S_IRUSR S_IWUSR) S_IRGRP) S_IROTH) in
  do* put_host h' in
  IO.ret (result =? 0).

Definition ensureFileExists : M bool :=
  let* self := get_this in
  let* h := get_host in
  let* present := IO.lift (exists_ h (configFilePath self)) in
  if present then IO.ret true
  else
    match ofstream_trunc h (configFilePath self) with
    | None => IO.ret false
    | Some h' =>
        do* put_host h' in
        do* setFilePermissions in
        IO.ret true
    end.

(** The loop of [loadAliases] over the lines of the file. *)
Fixpoint load_lines (lines : list (list ascii)) (aliases : list Alias) : outcome (list Alias) :=
  match lines with
  | [] => Returns aliases
  | line :: rest =>
      let? is_alias := isAliasLine line in
      let? aliases :=
        (if is_alias then
           let? parsed := parseAliasLine line in
           Returns (if negb (Str.eqb (name parsed) []) then aliases ++ [parsed] else aliases)
         else Returns aliases) in
      load_lines rest aliases
  end.

Definition loadAliases : M (list Alias) :=
  let* self := get_this in
  let* present := configFileExists in
  if negb present then
    do* set_lastError (lit "Config file does not exist: " ++ configFilePath self) in
    IO.ret []
  else
    let* h := get_host in
    match ifstream h (configFilePath self) with
    | None =>
        do* set_lastError (lit "Cannot open config file for reading: " ++ configFilePath self) in
        IO.ret []
    | Some bytes => IO.lift (load_lines (getlines bytes) [])
    end.

Definition addAlias (alias : Alias) : M bool :=
  let* self := get_this in
  if negb (validateAliasName (name alias)) || negb (validateCommand (command alias)) then
    do* set_lastError (lit "Invalid alias name or command") in
    IO.ret false
  else
    let* created := ensureFileExists in
    if negb created then
      do* set_lastError (lit "Cannot create config file") in
      IO.ret false
    else
      let* h := get_host in
      match ofstream_app h (configFilePath self) with
      | None =>
          do* set_lastError (lit "Cannot open config file for writing") in
          IO.ret false
      | Some h' =>
          do* put_host (write h' (configFilePath self)
                          ([newline] ++ formatAlias (aliasManager self) alias)) in
          do* setFilePermissions in
          IO.ret true
      end.

Definition readAllLines : M (list (list ascii)) :=
  let* self := get_this in
  let* h := get_host in
  match ifstream h (configFilePath self) with
  | None => IO.ret []
  | Some bytes => IO.ret (getlines bytes)
  end.

(** The loop of [writeAllLines]: what it sends to the stream from line [i]
    on, [n] being [lines.size()]. *)
Fixpoint write_lines (lines : list (list ascii)) (i n : Z) (out : list ascii) : list ascii :=
  match lines with
  | [] => out
  | line :: rest =>
      let out := out ++ line in
      let out := if i <? wsub n 1 then out ++ [newline] else out in
      write_lines rest (wadd i 1) n out
  end.

Definition writeAllLines (lines : list (list ascii)) : M bool :=
  let* self := get_this in
  let* h := get_host in
  match ofstream_trunc h (configFilePath self) with
  | None =>
      do* set_lastError (lit "Cannot open file for writing") in
      IO.ret false
  | Some h' =>
      do* put_host (write h' (configFilePath self) (write_lines lines 0 (Z.of_nat (length lines)) [])) in
      do* setFilePermissions in
      IO.ret true
  end.

(** The loop of [removeAlias] over the lines: whether the alias was met, and
    the lines that stay. *)
Fixpoint remove_lines (lines : list (list ascii)) (aliasName : list ascii)
  (found : bool) (newLines : list (list ascii)) : outcome (bool * list (list ascii)) :=
  match lines with
  | [] => Returns (found, newLines)
  | line :: rest =>
      let? is_alias := isAliasLine line in
      let? skip :=
        (if is_alias then
           let? parsed := parseAliasLine line in
           Returns (Str.eqb (name parsed) aliasName)
         else Returns false) in
      if skip then remove_lines rest aliasName true newLines
      else remove_lines rest aliasName found (newLines ++ [line])
  end.

Definition removeAlias (aliasName : list ascii) : M bool :=
  let* present := configFileExists in
  if negb present then
    do* set_lastError (lit "Config file does not exist") in
    IO.ret false
  else
    let* lines := readAllLines in
    if bool_decide (lines = []) then
      do* set_lastError (lit "Failed to read config file") in
      IO.ret false
    else
      let* filtered := IO.lift (remove_lines lines aliasName false []) in
      let '(found, newLines) := filtered in
      if negb found then
        do* set_lastError (lit "Alias not found: " ++ aliasName) in
        IO.ret false
      else writeAllLines newLines.

Definition getConfigFilePath : M (list ascii) :=
  let* self := get_this in
  let* h := get_host in
  match shell self with
  | ShellDetector.BASH => IO.lift (ShellDetectorImpl.expandHome h (lit "~/.bashrc"))
  | ShellDetector.ZSH => IO.lift (ShellDetectorImpl.expandHome h (lit "~/.zshrc"))
  | ShellDetector.FISH => IO.lift (ShellDetectorImpl.expandHome h (lit "~/.config/fish/config.fish"))
  | ShellDetector.UNKNOWN => IO.ret (configFilePath self)
  end.

Definition checkPermissions : M bool :=
  let* self := get_this in
  let* h := get_host in
  match stat h (configFilePath self) with
  | None => IO.ret false
  | Some st_mode =>
      let canRead := negb (Z.land st_mode S_IRUSR =? 0) in
      let canWrite := negb (Z.land st_mode S_IWUSR =? 0) in
      IO.ret (canRead && canWrite)
  end.

Definition getLastError : M (list ascii) :=
  let* self := get_this in
  IO.ret (lastError self).

End ConfigFileHandler.

(** * Vocabulary of the specification, and what the loops do

    The definitions below are not part of the program: they word the
    specification, name the effect of the program's loops on the data, and
    give sample machines. *)

(** ** The words of the codec's specification *)

Module Spec.
Import Str AliasManager.

(** "a letter", "a digit": the ASCII ones. *)
Definition is_letter (c : ascii) : Prop :=
  (65 <= nat_of_ascii c <= 90)%nat \/ (97 <= nat_of_ascii c <= 122)%nat.

Definition is_digit (c : ascii) : Prop :=
  (48 <= nat_of_ascii c <= 57)%nat.

(** "its first character is a letter, digit, or underscore". *)
Definition first_char_ok (c : ascii) : Prop :=
  is_letter c \/ is_digit c \/ c = "_"%char.

(** "every remaining character is a letter, digit, underscore, or hyphen". *)
Definition later_char_ok (c : ascii) : Prop :=
  is_letter c \/ is_digit c \/ c = "_"%char \/ c = "-"%char.

(** A name as the data model wants it. *)
Definition conforming_name (name : list ascii) : Prop :=
  1 <= size name <= 255 /\
  match name with
  | [] => False
  | c :: rest => first_char_ok c /\ Forall later_char_ok rest
  end.

(** Horizontal whitespace: what the parser skips, a space or a tab. *)
Definition hws (c : ascii) : bool := one_of (lit " " ++ [tab]) c.

(** "after skipping leading spaces and tabs". *)
Fixpoint skip_hws (s : list ascii) : list ascii :=
  match s with
  | [] => []
  | c :: s' => if hws c then skip_hws s' else s
  end.

(** "trimmed": without the leading and the trailing spaces and tabs. *)
Definition trim_hws (s : list ascii) : list ascii :=
  rev (skip_hws (rev (skip_hws s))).

(** "only whitespace": spaces and tabs. *)
Definition blank (s : list ascii) : Prop := Forall (fun c => hws c = true) s.

(** "the command contains a single-quote character". *)
Definition has_squote (command : list ascii) : Prop := In squote command.

(** "wraps the escaped command in outer [q] quotes": the formatted line ends
    with the escaped command between two [q]. *)
Definition wraps_in (q : ascii) (command line : list ascii) : Prop :=
  exists before, line = before ++ [q] ++ escapeCommand command ++ [q].

(** The quoting rule as the specification words it, for one manager and one
    record. *)
Definition quoting_rule (self : AliasManager.t) (alias : Alias) : Prop :=
  validateAliasName (name alias) = true ->
  validateCommand (command alias) = true ->
  (has_squote (command alias) -> wraps_in dquote (command alias) (formatAlias self alias)) /\
  (~ has_squote (command alias) -> wraps_in squote (command alias) (formatAlias self alias)).

(** "parsing the formatted line round-trips", on the fields
    [(name, command)]. *)
Definition roundtrips (self : AliasManager.t) (r : Alias) : Prop :=
  exists r', parseAliasLine (formatAlias self r) = Returns r' /\
             name r' = name r /\ command r' = command r.

(** The round-trip property as the specification words it, for one dialect
    and one record. *)
Definition roundtrip_rule (d : ShellDetector.Shell) (r : Alias) : Prop :=
  validateAliasName (name r) = true ->
  validateCommand (command r) = true ->
  ~ has_squote (command r) ->
  roundtrips (AliasManager.mk d) r.

(** A record with the two fields that matter. *)
Definition alias_of (n c : list ascii) : Alias :=
  set_command (set_name Alias_default n) c.

End Spec.

(** ** Pieces of the codec *)

Module CodecAux.
Import Str AliasManager.

(** What [escapeCommand] emits for one character. *)
Definition escape_char (c : ascii) : list ascii :=
  if needs_escape c then [backslash; c] else [c].

(** The part of [parseAliasLine] that reads the command out of what follows
    the equals sign, once the name is known. *)
Definition parse_command (result : Alias) (commandPart : list ascii) : outcome Alias :=
  let cmdStart := find_first_not_of commandPart (lit " " ++ [tab]) in
  if cmdStart =? npos then Returns result else
  let? cmd :=
    (if Ascii.eqb (at_ commandPart cmdStart) squote || Ascii.eqb (at_ commandPart cmdStart) dquote
     then
       let quote := at_ commandPart cmdStart in
       let endQuote := find commandPart quote (wadd cmdStart 1) in
       if negb (endQuote =? npos) then
         substr commandPart (wadd cmdStart 1) (wsub (wsub endQuote cmdStart) 1)
       else
         substr commandPart (wadd cmdStart 1) npos
     else
       let commentPos := find commandPart "#" cmdStart in
       let? c0 := substr commandPart cmdStart (wsub commentPos cmdStart) in
       let end_ := find_last_not_of c0 (lit " " ++ [tab]) in
       Returns (if negb (end_ =? npos) then resize c0 (wadd end_ 1) else c0)) in
  Returns (set_command result (unescapeString cmd)).

End CodecAux.

(** ** What the backup manager does to the machine *)

Module Effects.
Import Str Sys BackupManager.

(** What [getBackupDirectory] leaves of the machine: the files and the
    faults are as before. *)
Definition same_files (m m' : Machine) : Prop :=
  files (world m') = files (world m) /\
  time_unreadable (world m') = time_unreadable (world m) /\
  undeletable (world m') = undeletable (world m) /\
  xz_failing (world m') = xz_failing (world m) /\
  copy_failure (world m') = copy_failure (world m) /\
  now (world m') = now (world m) /\
  localtime (world m') = localtime (world m) /\
  originalFilePath (self m') = originalFilePath (self m) /\
  status_unreadable (world m') = status_unreadable (world m).

(** The machine with a message in the last-error slot. *)
Definition with_lastError (m : Machine) (e : list ascii) : Machine :=
  {| world := world m;
     self := {| originalFilePath := originalFilePath (self m); lastError := e |} |}.

(** The pairs [pairWithTime] makes of a list of backups. *)
Definition times_of (w : World) (backups : list (list ascii)) : list (list ascii * Z) :=
  flat_map
    (fun p => if bool_decide (p ∈ time_unreadable w) then []
              else match files w !! p with
                   | Some f => [(p, mtime f)]
                   | None => []
                   end)
    backups.

(** The backup entries: what [listBackups] returns. *)
Definition backup_entries (m : Machine) : list (list ascii) :=
  match listBackups m with
  | (Returns backups, _) => backups
  | (Throws _, _) => []
  end.

(** The machine after the listing (the backup directory may have been
    created on the way). *)
Definition after_listing (m : Machine) : Machine := snd (listBackups m).

Section Order.

(** [std::sort], as in [BackupManager]. *)
Variable std_sort : list (list ascii * Z) -> list (list ascii * Z).

(** The backups in the order the rotation and the restoration use: those
    of [listBackups] whose modification time can be read, newest first. *)
Definition backups_newest_first (m : Machine) : list (list ascii * Z) :=
  match (let! backups := listBackups in pairWithTime backups []) m with
  | (Returns backupsWithTime, _) => std_sort backupsWithTime
  | (Throws _, _) => []
  end.

End Order.

(** The suffix test of the rotation loop. *)
Definition is_raw (path : list ascii) : bool :=
  match last3 path with
  | Returns suffix => negb (Str.eqb suffix (lit ".xz"))
  | Throws _ => false
  end.

(** What [xz -9e] does to the files. *)
Definition compress_files (X : gset (list ascii)) (p : list ascii)
  (F : gmap (list ascii) file) : gmap (list ascii) file :=
  if bool_decide (p ∈ X) then F
  else if xz.has_xz_suffix p then F
  else match F !! p, F !! (p ++ lit ".xz") with
       | Some f, None => <[p ++ lit ".xz" := mkFile (mtime f) (Xz (content f))]> (delete p F)
       | _, _ => F
       end.

(** What a guarded [fs::remove] does to the files. *)
Definition remove_files (U : gset (list ascii)) (p : list ascii)
  (F : gmap (list ascii) file) : gmap (list ascii) file :=
  if bool_decide (p ∈ U) then F else delete p F.

(** One iteration of the rotation loop, on the files and on the count. *)
Definition step_files (U X : gset (list ascii)) (maxBackups i : Z) (p : list ascii)
  (F : gmap (list ascii) file) : gmap (list ascii) file :=
  if to_size_t maxBackups <=? i then remove_files U p F
  else if (10 <=? i) && is_raw p then compress_files X p F
  else F.

Definition step_count (U : gset (list ascii)) (maxBackups i : Z) (p : list ascii) : Z :=
  if to_size_t maxBackups <=? i then (if bool_decide (p ∈ U) then 0 else 1) else 0.

Fixpoint rotate_files (U X : gset (list ascii)) (maxBackups i : Z)
  (l : list (list ascii * Z)) (F : gmap (list ascii) file) : gmap (list ascii) file :=
  match l with
  | [] => F
  | (p, _) :: rest => rotate_files U X maxBackups (wadd i 1) rest (step_files U X maxBackups i p F)
  end.

Fixpoint rotate_count (U : gset (list ascii)) (maxBackups i : Z)
  (l : list (list ascii * Z)) : Z :=
  match l with
  | [] => 0
  | (p, _) :: rest => step_count U maxBackups i p + rotate_count U maxBackups (wadd i 1) rest
  end.

Definition compress_all (X : gset (list ascii)) (ps : list (list ascii))
  (F : gmap (list ascii) file) : gmap (list ascii) file :=
  fold_left (fun F p => compress_files X p F) ps F.

Definition remove_all (U : gset (list ascii)) (ps : list (list ascii))
  (F : gmap (list ascii) file) : gmap (list ascii) file :=
  fold_left (fun F p => remove_files U p F) ps F.

(** The entries [fs::remove] removes: those it does not throw on. *)
Definition removable (U : gset (list ascii)) (ps : list (list ascii)) : list (list ascii) :=
  List.filter (fun p => negb (bool_decide (p ∈ U))) ps.

(** [xz] succeeds on [p]: nothing in its way. *)
Definition compressible (X : gset (list ascii)) (F : gmap (list ascii) file)
  (p : list ascii) : bool :=
  negb (bool_decide (p ∈ X)) && negb (xz.has_xz_suffix p) &&
  bool_decide (F !! (p ++ lit ".xz") = None).

(** The shape YYYYMMDD_HHMMSS: eight digits, an underscore, six digits. *)
Definition timestamp_shape (s : list ascii) : Prop :=
  exists date time,
    s = date ++ lit "_" ++ time /\ length date = 8%nat /\ length time = 6%nat /\
    Forall Spec.is_digit date /\ Forall Spec.is_digit time.

Definition is_digit_b (c : ascii) : bool :=
  (48 <=? nat_of_ascii c)%nat && (nat_of_ascii c <=? 57)%nat.

Definition year_printed_ok (y : nat) : bool :=
  (length (decimal (Z.of_nat y)) =? 4)%nat && forallb is_digit_b (decimal (Z.of_nat y)).

End Effects.

(** ** The claims about the backups as the specification words them *)

Module BackupSpec.
Import Str Sys BackupManager Effects.

(** The rotation invariant, for one sorting function and one machine:
    "entries 0-9 remain raw, entries 10-19 are compressed (or already were),
    entries 20-24 are deleted; the count returned equals 5 minus any entries
    whose deletion failed". *)
Definition rotation_rule (std_sort : list (list ascii * Z) -> list (list ascii * Z))
  (m : Machine) : Prop :=
  length (backups_newest_first std_sort m) = 25%nat ->
  exists deleted m',
    cleanupAndCompressOldBackups std_sort 20 m = (Returns deleted, m') /\
    (forall (i : nat) (p : list ascii) (t : Z),
       backups_newest_first std_sort m !! i = Some (p, t) ->
       if (i <? 10)%nat then files (world m') !! p = files (world m) !! p
       else if (i <? 20)%nat then
         xz.has_xz_suffix p = true \/
         (files (world m') !! p = None /\ is_Some (files (world m') !! (p ++ lit ".xz")))
       else
         files (world m') !! p = None \/
         (p ∈ undeletable (world m) /\ files (world m') !! p = files (world m) !! p)) /\
    deleted
    = 5 - Z.of_nat (length (List.filter
                              (fun e => bool_decide (fst e ∈ undeletable (world m)))
                              (skipn 20 (backups_newest_first std_sort m)))).

(** "returns false and records a no-backup error if and only if no backup
    entries exist for the tracked file". *)
Definition no_backup_rule (std_sort : list (list ascii * Z) -> list (list ascii * Z))
  (m : Machine) : Prop :=
  (exists m', restoreFromLastBackup std_sort m = (Returns false, m') /\
              lastError (self m') = lit "No backup found")
  <-> backup_entries m = [].

End BackupSpec.

(** ** An instance of the sorting contract, and sample machines *)

Module Sample.
Import Str Sys BackupManager.

(** Insertion by modification time, newest first: one function that meets
    what [std::sort] promises. *)
Fixpoint insert_newest (e : list ascii * Z) (l : list (list ascii * Z))
  : list (list ascii * Z) :=
  match l with
  | [] => [e]
  | x :: l' => if snd x <? snd e then e :: l else x :: insert_newest e l'
  end.

Definition sort_newest (l : list (list ascii * Z)) : list (list ascii * Z) :=
  fold_right insert_newest [] l.

(** The backup made on day [i] of January 2024 at noon. *)
Definition bak (i : Z) : list ascii :=
  lit "/home/u/.shellbackup/.bashrc.bak202401" ++ two_digits i ++ lit "_120000".

(** The tracked file and [n] backups of it, the backup of day [i] being
    [i] seconds newer than the one of day [i - 1]. *)
Definition home_with_backups (n : nat) : gmap (list ascii) file :=
  fold_right
    (fun i F => <[bak (Z.of_nat i) := mkFile (1000 + Z.of_nat i) (Plain (lit "alias ll='ls'"))]> F)
    (<[lit "/home/u/.bashrc" := mkFile 2000 (Plain (lit "alias ll='ls -la'"))]> ∅)
    (seq 1 n).

Definition home_world (F : gmap (list ascii) file)
  (unreadable undeletable xz_failing : gset (list ascii)) : World :=
  {| files := F;
     dirs := <[lit "/home/u/.shellbackup" := 448]> (<[lit "/home/u" := 493]> ∅);
     env_HOME := Some (lit "/home/u");
     now := 3000;
     localtime := mkTm 124 1 15 14 30 25;
     status_unreadable := ∅;
     time_unreadable := unreadable;
     undeletable := undeletable;
     xz_failing := xz_failing;
     copy_failure := None; mkdir_failure := None; chmod_failure := None |}.

Definition manager : Manager :=
  {| originalFilePath := lit "/home/u/.bashrc"; lastError := [] |}.

(** Twenty-five backups; the oldest cannot be removed. *)
Definition machine25 : Machine :=
  {| world := home_world (home_with_backups 25) ∅ {[bak 1]} ∅; self := manager |}.

(** Twenty-five backups; [xz] fails on the backup of day 13. *)
Definition machine25_xz_fails : Machine :=
  {| world := home_world (home_with_backups 25) ∅ ∅ {[bak 13]}; self := manager |}.

(** One backup, whose modification time cannot be read. *)
Definition machine1_unreadable : Machine :=
  {| world := home_world (home_with_backups 1) {[bak 1]} ∅ ∅; self := manager |}.

(** A file name of 300 characters, more than a file system takes: no such
    file exists, and reading its status fails. *)
Definition long_name : list ascii := lit "/home/u/" ++ repeat "x"%char 300.

Definition with_status_unreadable (w : World) (paths : gset (list ascii)) : World :=
  {| files := files w; dirs := dirs w; env_HOME := env_HOME w; now := now w;
     localtime := localtime w; status_unreadable := paths;
     time_unreadable := time_unreadable w; undeletable := undeletable w;
     xz_failing := xz_failing w; copy_failure := copy_failure w;
     mkdir_failure := mkdir_failure w; chmod_failure := chmod_failure w |}.

(** A manager made for the file of that name. *)
Definition machine_long_name : Machine :=
  {| world := with_status_unreadable (home_world (home_with_backups 1) ∅ ∅ ∅) {[long_name]};
     self := {| originalFilePath := long_name; lastError := [] |} |}.

End Sample.

(** ** Further words: restoring, listing, detecting, the handler's file *)

Module MoreEffects.
Import Str Sys BackupManager.

(** The modification time [fs::last_write_time] reads, when it can. *)
Definition file_time (w : World) (p : list ascii) : option Z :=
  if bool_decide (p ∈ time_unreadable w) then None
  else match files w !! p with
       | Some f => Some (mtime f)
       | None => None
       end.

(** The machine once [content] has been copied over the tracked file. *)
Definition restored_with (m : Machine) (F : gmap (list ascii) file) (content : blob) : Machine :=
  {| world := set_files (world m)
                (<[originalFilePath (self m) := mkFile (now (world m)) content]> F);
     self := self m |}.


(** The machine with a directory entered. *)
Definition with_dir (m : Machine) (dir : list ascii) (mode : Z) : Machine :=
  {| world := set_dirs (world m) (<[dir := mode]> (dirs (world m))); self := self m |}.

(** The path is an entry of the world, a file or a directory. *)
Definition present (w : World) (p : list ascii) : bool :=
  match files w !! p, dirs w !! p with
  | None, None => false
  | _, _ => true
  end.

(** [fs::exists] throws on the path: it is no entry and its status cannot
    be read. *)
Definition status_throws (w : World) (p : list ascii) : bool :=
  negb (present w p) && bool_decide (p ∈ status_unreadable w).




End MoreEffects.

Module DetectorWords.
Import Str Cxx Posix ShellDetector.

(** The three tests on a lower-case name, in the order the sources make
    them. *)
Definition shell_of_name (nameLower : list ascii) : Shell :=
  if negb (find_str nameLower (lit "zsh") =? npos) then ZSH
  else if negb (find_str nameLower (lit "bash") =? npos) then BASH
  else if negb (find_str nameLower (lit "fish") =? npos) then FISH
  else UNKNOWN.

(** The home directory [expandHome] resolves: [HOME], else the password
    database. *)
Definition home_of (h : Host) : option (list ascii) :=
  match getenv h (lit "HOME") with
  | Some dir => Some dir
  | None => pw_dir_self h
  end.

(** The configuration files [detectFromConfigFiles] looks for, in its
    order. *)
Definition config_paths (h : Host) : list (list ascii) :=
  let home := match home_of h with
              | Some dir => dir
              | None => lit "~"
              end in
  map (fun config => home ++ lit "/" ++ config)
      [lit ".bashrc"; lit ".zshrc"; lit ".config/fish/config.fish"].

(** Looking for the first of [paths] that is there, [fs::exists] meets one
    it throws on before it meets one that is there. *)
Fixpoint scan_throws (w : Sys.World) (paths : list (list ascii)) : bool :=
  match paths with
  | [] => false
  | p :: rest =>
      if MoreEffects.present w p then false
      else if bool_decide (p ∈ Sys.status_unreadable w) then true
      else scan_throws w rest
  end.

End DetectorWords.

Module HandlerWords.
Import Str Cxx AliasManager.

(** The lines with a newline between each two, as [writeAllLines] sends
    them. *)
Fixpoint join_lines (lines : list (list ascii)) : list ascii :=
  match lines with
  | [] => []
  | [line] => line
  | line :: rest => line ++ newline :: join_lines rest
  end.

(** The lines, without the last one when it is empty. *)
Fixpoint drop_last_empty (lines : list (list ascii)) : list (list ascii) :=
  match lines with
  | [] => []
  | [[]] => []
  | line :: rest => line :: drop_last_empty rest
  end.

(** The records the lines of a file give: the parsed lines that have a
    name. *)
Definition aliases_of_lines (lines : list (list ascii)) : list Alias :=
  flat_map
    (fun line =>
       match parseAliasLine line with
       | Returns parsed => if Str.eqb (name parsed) [] then [] else [parsed]
       | Throws _ => []
       end)
    lines.

(** The characters of the lines, counting one more for each line. *)
Fixpoint lines_length (lines : list (list ascii)) : nat :=
  match lines with
  | [] => 0
  | line :: rest => length line + 1 + lines_length rest
  end.

(** The test [removeAlias] makes on a line. *)
Definition defines (aliasName line : list ascii) : bool :=
  match isAliasLine line, parseAliasLine line with
  | Returns true, Returns parsed => Str.eqb (name parsed) aliasName
  | _, _ => false
  end.

End HandlerWords.

Module HandlerEffects.
Import Str Sys Cxx Posix.

(** What the file at [path] holds, as a reader sees it; nothing when there
    is no such file. *)
Definition current_bytes (h : Host) (path : list ascii) : list ascii :=
  match files (disk h) !! path with
  | Some f => bytes_of h (content f)
  | None => []
  end.

(** [h2] differs from [h] in the file at [path] and in its mode only. *)
Definition touches_only (path : list ascii) (h h2 : Host) : Prop :=
  set_file_mode (set_disk h2 (disk h)) (file_mode h) = h /\
  set_files (disk h2) (files (disk h)) = disk h /\
  forall q, q <> path ->
            files (disk h2) !! q = files (disk h) !! q /\ file_mode h2 q = file_mode h q.

(** The state once an error message is recorded. *)
Definition with_error (s : ConfigFileHandler.State) (e : list ascii) : ConfigFileHandler.State :=
  snd (ConfigFileHandler.set_lastError e s).

(** What every run of the three writing operations keeps: it touches the
    configuration file only, leaves the host alone unless it answers [ok],
    and has recorded an error when it answers [failed]. *)
Definition careful {A} (path : list ascii) (h : Host) (r : outcome A * ConfigFileHandler.State)
  (ok failed : outcome A) : Prop :=
  touches_only path h (ConfigFileHandler.host (snd r)) /\
  (fst r <> ok -> ConfigFileHandler.host (snd r) = h) /\
  (fst r = failed ->
   ConfigFileHandler.lastError (ConfigFileHandler.this (snd r)) <> []).

End HandlerEffects.

(** ** A sample host *)

Module HostSample.
Import Str Sys Cxx Posix.

Definition bashrc : list ascii := lit "/home/u/.bashrc".

Definition bashrc_text : list ascii :=
  lit "alias ll='ls -la'" ++ [newline] ++ lit "export EDITOR=vi" ++ [newline] ++
  lit "alias gs='git status'".

Definition bashrc_file : file := mkFile 2000 (Plain bashrc_text).

(** A host whose user runs zsh and has a [.bashrc] with two aliases. *)
Definition laptop : Host :=
  {| disk := Sample.home_world (<[bashrc := bashrc_file]> ∅) ∅ ∅ ∅;
     environ := <[lit "SHELL" := lit "/usr/bin/zsh"]> ∅;
     pw_dir_self := Some (lit "/home/u");
     pw_dir_of := <[lit "u" := lit "/home/u"]> ∅;
     ppid := 4242;
     ps_comm := Some (lit "zsh" ++ [newline]);
     xz_bytes := fun _ => lit "(xz)";
     file_mode := fun _ => 384;
     umask := 18;
     read_denied := ∅; write_denied := ∅; chmod_denied := ∅ |}.

(** A handler for that file. *)
Definition session : ConfigFileHandler.State :=
  {| ConfigFileHandler.host := laptop;
     ConfigFileHandler.this := ConfigFileHandler.new bashrc ShellDetector.BASH |}.

(** One compressed backup of the tracked file. *)
Definition machine_xz : Machine :=
  {| world :=
       Sample.home_world
         (<[Sample.bak 1 ++ lit ".xz" := mkFile 1001 (Xz (Plain (lit "alias ll='ls'")))]>
            (Sample.home_with_backups 0)) ∅ ∅ ∅;
     self := Sample.manager |}.

(** One raw backup of the tracked file. *)
Definition machine_raw : Machine :=
  {| world := Sample.home_world (Sample.home_with_backups 1) ∅ ∅ ∅; self := Sample.manager |}.


End HostSample.

(** ** Tactics *)

(** Running the monadic code: unfold the plumbing, keep the data. *)
Ltac mrun :=
  cbv beta iota zeta delta
    [Sys.bind Sys.ret Sys.throw Sys.try_catch Sys.lift Sys.get_world Sys.put_world
     Sys.get_originalFilePath Sys.set_lastError
     fs.exists_ fs.copy_file fs.last_write_time fs.remove fs.create_directories
     fs.permissions fs.directory_iterator fs.getenv_HOME fs.localtime_now];
  cbn [Sys.world Sys.self Sys.files Sys.dirs Sys.env_HOME Sys.now Sys.localtime
       Sys.status_unreadable Sys.time_unreadable Sys.undeletable Sys.xz_failing Sys.copy_failure
       Sys.mkdir_failure Sys.chmod_failure Sys.originalFilePath Sys.lastError
       Sys.set_files Sys.set_dirs].

Ltac mrun_in H :=
  cbn [Sys.world Sys.self Sys.files Sys.dirs Sys.env_HOME Sys.now Sys.localtime
       Sys.status_unreadable Sys.time_unreadable Sys.undeletable Sys.xz_failing Sys.copy_failure
       Sys.mkdir_failure Sys.chmod_failure Sys.originalFilePath Sys.lastError
       Sys.set_files Sys.set_dirs] in H.

(** The same, past the test of an exit status. *)
Ltac mstatus :=
  mrun;
  try change (negb (0 =? 0)) with false;
  try change (negb (1 =? 0)) with true;
  try change (negb (2 =? 0)) with true;
  try change (negb (127 =? 0)) with true;
  mrun.

(** Running the handler's code: unfold the plumbing, keep the data. *)
Ltac hrun :=
  cbv beta iota zeta delta
    [IO.bind IO.ret IO.lift ConfigFileHandler.get_host ConfigFileHandler.put_host
     ConfigFileHandler.get_this ConfigFileHandler.set_lastError
     ConfigFileHandler.configFileExists];
  cbn [ConfigFileHandler.host ConfigFileHandler.this ConfigFileHandler.configFilePath
       ConfigFileHandler.shell ConfigFileHandler.lastError ConfigFileHandler.aliasManager].

(** A refused operation: the reason, then the three things it leaves. *)
Ltac refused := split; [|split; [reflexivity|split; [reflexivity|discriminate]]].

(** * Theorems *)

Import Str AliasManager.

(** ** Facts about the string operations *)

Section StrFacts.
Import Str.

Lemma find_if_None (p : ascii -> bool) (s : list ascii) :
  find_if p s = None <-> Forall (fun c => p c = false) s.
Proof.
  induction s as [|c s IH]; simpl.
  - split; [constructor | reflexivity].
  - destruct (p c) eqn:E.
    + split; [discriminate | intros H; inversion H; congruence].
    + destruct (find_if p s); simpl.
      * split; [discriminate|]. intros H. inversion H; subst.
        destruct IH as [_ IH]. specialize (IH ltac:(assumption)). discriminate.
      * split; [|reflexivity]. intros _. constructor; [assumption|]. now apply IH.
Qed.

Lemma find_if_Some (p : ascii -> bool) (s : list ascii) (i : nat) :
  find_if p s = Some i <->
  exists l1 c l2, s = l1 ++ c :: l2 /\ length l1 = i /\ p c = true /\
                  Forall (fun c => p c = false) l1.
Proof.
  revert i. induction s as [|c s IH]; intros i; simpl.
  - split; [discriminate|]. intros (l1 & c & l2 & H & _). destruct l1; discriminate.
  - destruct (p c) eqn:E.
    + split.
      * intros [= <-]. exists [], c, s. repeat split; auto.
      * intros (l1 & c' & l2 & H & Hl & Hc & Hall).
        destruct l1 as [|a l1]; simpl in *; [congruence|].
        injection H as -> ->. inversion Hall; congruence.
    + split.
      * destruct (find_if p s) as [j|] eqn:Ej; simpl; [|discriminate].
        intros [= <-]. destruct (proj1 (IH j) eq_refl) as (l1 & c' & l2 & -> & Hl & Hc & Hall).
        exists (c :: l1), c', l2. simpl. repeat split; auto.
      * intros (l1 & c' & l2 & H & Hl & Hc & Hall).
        destruct l1 as [|a l1]; simpl in *.
        { injection H as -> ->. congruence. }
        injection H as -> ->. inversion Hall; subst.
        rewrite (proj2 (IH (length l1))); [reflexivity|].
        exists l1, c', l2. repeat split; auto.
Qed.

Lemma find_if_app (p : ascii -> bool) (l1 l2 : list ascii) :
  Forall (fun c => p c = false) l1 ->
  find_if p (l1 ++ l2) = option_map (fun i => (length l1 + i)%nat) (find_if p l2).
Proof.
  induction 1 as [|c l1 Hc _ IH]; simpl.
  - now destruct (find_if p l2).
  - rewrite Hc, IH. now destruct (find_if p l2).
Qed.

Lemma find_if_hit (p : ascii -> bool) (l1 : list ascii) (c : ascii) (l2 : list ascii) :
  Forall (fun c => p c = false) l1 -> p c = true ->
  find_if p (l1 ++ c :: l2) = Some (length l1).
Proof.
  intros H Hc. rewrite find_if_app by assumption. simpl. rewrite Hc. simpl.
  f_equal. lia.
Qed.

Lemma wadd_small (a b : Z) : 0 <= a + b < two64 -> wadd a b = a + b.
Proof. intros H. unfold wadd. now apply Z.mod_small. Qed.

Lemma wsub_small (a b : Z) : 0 <= a - b < two64 -> wsub a b = a - b.
Proof. intros H. unfold wsub. now apply Z.mod_small. Qed.

Lemma two64_value : two64 = 18446744073709551616.
Proof. reflexivity. Qed.

Lemma npos_value : npos = 18446744073709551615.
Proof. reflexivity. Qed.

Lemma size_app (a b : list ascii) : size (a ++ b) = size a + size b.
Proof. unfold size. rewrite length_app. lia. Qed.

Lemma size_nonneg (a : list ascii) : 0 <= size a.
Proof. unfold size. lia. Qed.

Lemma size_cons (c : ascii) (a : list ascii) : size (c :: a) = 1 + size a.
Proof. unfold size. simpl length. lia. Qed.

Lemma firstn_min_length (n : nat) (l : list ascii) :
  firstn (Nat.min n (length l)) l = firstn n l.
Proof.
  destruct (Nat.le_ge_cases n (length l)) as [H|H].
  - now rewrite Nat.min_l.
  - rewrite Nat.min_r by assumption. now rewrite firstn_all, firstn_all2.
Qed.

(** Within range, [substr] returns and is [firstn] of [skipn]. *)
Lemma substr_in_range (s : list ascii) (pos n : Z) :
  0 <= pos <= size s -> 0 <= n ->
  substr s pos n = Returns (firstn (Z.to_nat n) (skipn (Z.to_nat pos) s)).
Proof.
  intros Hpos Hn. unfold substr.
  destruct (size s <? pos) eqn:E; [apply Z.ltb_lt in E; lia|].
  f_equal. rewrite <- (firstn_min_length (Z.to_nat n)).
  f_equal. rewrite length_skipn. unfold size. lia.
Qed.

(** The shape the parser meets: a prefix, then the wanted part. *)
Lemma substr_app (a b c : list ascii) :
  size (a ++ b ++ c) < npos ->
  substr (a ++ b ++ c) (size a) (size b) = Returns b.
Proof.
  intros Hsz. rewrite substr_in_range.
  - unfold size. rewrite !Nat2Z.id.
    now rewrite drop_app_length, take_app_length.
  - rewrite size_app. pose proof (size_nonneg a). pose proof (size_nonneg (b ++ c)). lia.
  - apply size_nonneg.
Qed.

Lemma substr_to_end (a b : list ascii) (n : Z) :
  size b <= n ->
  substr (a ++ b) (size a) n = Returns b.
Proof.
  intros Hn. pose proof (size_nonneg a). pose proof (size_nonneg b).
  rewrite substr_in_range; [|rewrite size_app; lia|lia].
  unfold size in *. rewrite Nat2Z.id.
  rewrite drop_app_length. now rewrite firstn_all2 by lia.
Qed.

(** [find] reaches the first occurrence past [pos]. *)
Lemma find_hit (a b : list ascii) (c : ascii) (d : list ascii) :
  ~ In c b ->
  find (a ++ b ++ c :: d) c (size a) = size a + size b.
Proof.
  intros Hb. unfold find.
  destruct (size (a ++ b ++ c :: d) <=? size a) eqn:E.
  - apply Z.leb_le in E. rewrite !size_app, size_cons in E.
    pose proof (size_nonneg b). pose proof (size_nonneg d). lia.
  - unfold size. rewrite Nat2Z.id.
    rewrite drop_app_length.
    rewrite find_if_hit.
    + reflexivity.
    + apply List.Forall_forall. intros x Hx. apply Ascii.eqb_neq. congruence.
    + apply Ascii.eqb_refl.
Qed.

(** [find] answers [npos] when the character does not occur past [pos]. *)
Lemma find_miss (a b : list ascii) (c : ascii) :
  ~ In c b -> find (a ++ b) c (size a) = npos.
Proof.
  intros Hb. unfold find.
  destruct (size (a ++ b) <=? size a); [reflexivity|].
  unfold size. rewrite Nat2Z.id.
  rewrite drop_app_length.
  rewrite (proj2 (find_if_None _ _)); [reflexivity|].
  apply List.Forall_forall. intros x Hx. apply Ascii.eqb_neq. congruence.
Qed.

Lemma find_below_npos (s : list ascii) (c : ascii) (pos : Z) :
  0 <= pos -> size s < npos -> find s c pos <> npos ->
  pos <= find s c pos < size s /\ In c s.
Proof.
  intros Hpos Hsz. unfold find.
  destruct (size s <=? pos) eqn:E; [congruence|]. apply Z.leb_gt in E.
  destruct (find_if _ _) as [i|] eqn:Ei; [|congruence]. intros _.
  apply find_if_Some in Ei. destruct Ei as (l1 & x & l2 & Hs & Hl & Hx & _).
  apply Ascii.eqb_eq in Hx. subst x.
  assert (Hlen : length (skipn (Z.to_nat pos) s) = (length l1 + S (length l2))%nat).
  { rewrite Hs, length_app. reflexivity. }
  rewrite length_skipn in Hlen. unfold size in *.
  split; [lia|].
  rewrite <- (firstn_skipn (Z.to_nat pos) s). apply in_or_app. right.
  rewrite Hs. apply in_elt.
Qed.

Lemma find_zero_npos_iff (s : list ascii) (c : ascii) :
  size s < npos -> (find s c 0 = npos <-> ~ In c s).
Proof.
  intros Hsz. split.
  - intros Hf Hin. unfold find in Hf.
    destruct (size s <=? 0) eqn:E.
    + apply Z.leb_le in E. destruct s; [destruct Hin|]. rewrite size_cons in E.
      pose proof (size_nonneg s). lia.
    + change (drop (Z.to_nat 0) s) with s in Hf.
      destruct (find_if (Ascii.eqb c) s) as [i|] eqn:Ei.
      * apply find_if_Some in Ei. destruct Ei as (l1 & x & l2 & Hs & Hl & _).
        assert (Z.of_nat i < size s).
        { unfold size. rewrite Hs, length_app. simpl length. lia. }
        lia.
      * apply find_if_None in Ei. rewrite List.Forall_forall in Ei.
        specialize (Ei c Hin). rewrite Ascii.eqb_refl in Ei. discriminate.
  - intros Hin. change s with ([] ++ s). now apply (find_miss [] s c).
Qed.

End StrFacts.

(** ** Escaping and unescaping *)

Section Escaping.
Import Str AliasManager CodecAux.

Lemma escape_loop_acc (s acc : list ascii) :
  fold_left
    (fun escaped c =>
       let escaped := if needs_escape c then escaped ++ [backslash] else escaped in
       escaped ++ [c]) s acc
  = acc ++ flat_map escape_char s.
Proof.
  revert acc. induction s as [|c s IH]; intros acc; simpl.
  - now rewrite app_nil_r.
  - rewrite IH. unfold escape_char. destruct (needs_escape c); simpl;
      now rewrite <- ?app_assoc.
Qed.

Lemma escapeCommand_flat_map (s : list ascii) :
  escapeCommand s = flat_map escape_char s.
Proof. unfold escapeCommand. now rewrite escape_loop_acc. Qed.

Lemma needs_escape_backslash : needs_escape backslash = true.
Proof. reflexivity. Qed.

Lemma unescape_escape_char (acc : list ascii) (c : ascii) :
  fold_left unescape_step (escape_char c) (acc, false) = (acc ++ [c], false).
Proof.
  unfold escape_char. destruct (needs_escape c) eqn:E.
  - reflexivity.
  - simpl. destruct (Ascii.eqb c backslash) eqn:Eb; [|reflexivity].
    apply Ascii.eqb_eq in Eb. subst c. rewrite needs_escape_backslash in E. discriminate.
Qed.

Lemma unescape_loop_escaped (s acc : list ascii) :
  fold_left unescape_step (flat_map escape_char s) (acc, false) = (acc ++ s, false).
Proof.
  revert acc. induction s as [|c s IH]; intros acc; simpl.
  - now rewrite app_nil_r.
  - rewrite fold_left_app, unescape_escape_char, IH. now rewrite <- app_assoc.
Qed.

(** C9: for every string [s], [unescapeString (escapeCommand s)] is [s]:
    unescaping is a left inverse of the command escaping, whatever
    backslashes and escaped special characters [s] holds. *)
Theorem unescape_escape_inverse (s : list ascii) :
  unescapeString (escapeCommand s) = s.
Proof.
  unfold unescapeString. rewrite escapeCommand_flat_map, unescape_loop_escaped.
  reflexivity.
Qed.

(** Escaping adds no single quote to a command that has none. *)
Lemma escape_keeps_free (q : ascii) (s : list ascii) :
  q <> backslash -> ~ In q s -> ~ In q (escapeCommand s).
Proof.
  intros Hq Hs. rewrite escapeCommand_flat_map. rewrite in_flat_map.
  intros (c & Hc & Hin). unfold escape_char in Hin.
  destruct (needs_escape c); simpl in Hin; intuition congruence.
Qed.

Lemma escape_length (s : list ascii) :
  (length (escapeCommand s) <= 2 * length s)%nat.
Proof.
  rewrite escapeCommand_flat_map. induction s as [|c s IH]; simpl; [lia|].
  rewrite length_app. unfold escape_char at 1. destruct (needs_escape c); simpl length; lia.
Qed.

End Escaping.

(** ** Name validation *)

Section Validation.
Import Str AliasManager Spec.

Lemma isalnum_spec (c : ascii) :
  isalnum c = true <-> is_letter c \/ is_digit c.
Proof.
  unfold isalnum, is_letter, is_digit. cbv zeta.
  rewrite !orb_true_iff, !andb_true_iff, !Z.leb_le. lia.
Qed.

Lemma first_char_spec (c : ascii) :
  isalnum c || Ascii.eqb c "_" = true <-> first_char_ok c.
Proof.
  unfold first_char_ok. rewrite orb_true_iff, isalnum_spec, Ascii.eqb_eq. tauto.
Qed.

Lemma later_char_spec (c : ascii) :
  isalnum c || Ascii.eqb c "_" || Ascii.eqb c "-" = true <-> later_char_ok c.
Proof.
  unfold later_char_ok. rewrite !orb_true_iff, isalnum_spec, !Ascii.eqb_eq. tauto.
Qed.

Lemma validateAliasName_spec (name : list ascii) :
  validateAliasName name = true <-> conforming_name name.
Proof.
  unfold validateAliasName, conforming_name, Str.eqb, size.
  destruct name as [|c rest].
  - simpl. split; [discriminate | tauto].
  - rewrite bool_decide_eq_false_2 by discriminate. simpl orb.
    change (at_ (c :: rest) 0) with c. simpl tl.
    change (S (length rest)) with (length (c :: rest)).
    destruct (255 <? Z.of_nat (length (c :: rest))) eqn:Elen.
    + apply Z.ltb_lt in Elen. split; [discriminate | lia].
    + apply Z.ltb_ge in Elen.
      rewrite <- negb_orb.
      destruct (isalnum c || Ascii.eqb c "_") eqn:Ehead; simpl negb; cbv iota.
      * rewrite forallb_forall, List.Forall_forall.
        apply first_char_spec in Ehead.
        split.
        -- intros H. repeat split; [simpl length; lia | lia | assumption |].
           intros x Hx. apply later_char_spec. apply H. assumption.
        -- intros (_ & _ & H) x Hx. apply later_char_spec. apply H. assumption.
      * split; [discriminate|]. intros (_ & H & _).
        apply first_char_spec in H. congruence.
Qed.

(** C4: [validateAliasName name] is true exactly when [name] has between 1
    and 255 characters, starts with a letter, a digit or an underscore, and
    continues with letters, digits, underscores and hyphens only; a
    conforming name of 255 characters is accepted, one of 256 is refused, the
    empty name is refused, "_ok-1" is accepted and "bad name" is refused. *)
Theorem validateAliasName_iff_conforming (name : list ascii) :
  (validateAliasName name = true <-> conforming_name name) /\
  validateAliasName (repeat "a"%char 255) = true /\
  validateAliasName (repeat "a"%char 256) = false /\
  validateAliasName [] = false /\
  validateAliasName (lit "_ok-1") = true /\
  validateAliasName (lit "bad name") = false.
Proof.
  split; [apply validateAliasName_spec|].
  repeat split; vm_compute; reflexivity.
Qed.

End Validation.

(** ** Skipping and trimming horizontal whitespace *)

Section Whitespace.
Import Str AliasManager Spec.

Lemma blank_app (a b : list ascii) : blank a -> blank b -> blank (a ++ b).
Proof. unfold blank. intros. now apply List.Forall_app. Qed.

Lemma blank_rev (a : list ascii) : blank a -> blank (rev a).
Proof. unfold blank. apply List.Forall_rev. Qed.

Lemma skip_hws_split (s : list ascii) :
  exists a, blank a /\ s = a ++ skip_hws s /\
            match skip_hws s with [] => True | c :: _ => hws c = false end.
Proof.
  induction s as [|c s (a & Ha & Hs & Hhead)]; simpl.
  - exists []. repeat split. constructor.
  - destruct (hws c) eqn:E.
    + exists (c :: a). repeat split; [constructor; assumption | simpl; congruence | assumption].
    + exists []. repeat split; [constructor | assumption].
Qed.

Lemma skip_hws_blank (s : list ascii) : blank s -> skip_hws s = [].
Proof. induction 1 as [|c s Hc _ IH]; simpl; [reflexivity | now rewrite Hc]. Qed.

Lemma skip_hws_at (a : list ascii) (c : ascii) (d : list ascii) :
  blank a -> hws c = false -> skip_hws (a ++ c :: d) = c :: d.
Proof.
  induction 1 as [|x a Hx _ IH]; intros Hc; simpl.
  - now rewrite Hc.
  - rewrite Hx. now apply IH.
Qed.

Lemma not_hws_pred (a : list ascii) :
  blank a -> Forall (fun c => negb (one_of (lit " " ++ [tab]) c) = false) a.
Proof.
  unfold blank, hws. apply List.Forall_impl. intros c Hc. now rewrite Hc.
Qed.

Lemma find_first_not_of_blank (s : list ascii) :
  blank s -> find_first_not_of s (lit " " ++ [tab]) = npos.
Proof.
  intros H. unfold find_first_not_of.
  now rewrite (proj2 (find_if_None _ _) (not_hws_pred _ H)).
Qed.

Lemma find_first_not_of_at (a : list ascii) (c : ascii) (d : list ascii) :
  blank a -> hws c = false ->
  find_first_not_of (a ++ c :: d) (lit " " ++ [tab]) = size a.
Proof.
  intros Ha Hc. unfold find_first_not_of.
  rewrite find_if_hit; [reflexivity | now apply not_hws_pred |].
  change (negb (hws c) = true). now rewrite Hc.
Qed.

Lemma find_last_not_of_blank (s : list ascii) :
  blank s -> find_last_not_of s (lit " " ++ [tab]) = npos.
Proof.
  intros H. unfold find_last_not_of.
  now rewrite (proj2 (find_if_None _ _) (not_hws_pred _ (blank_rev _ H))).
Qed.

Lemma find_last_not_of_at (a : list ascii) (c : ascii) (d : list ascii) :
  hws c = false -> blank d ->
  find_last_not_of (a ++ c :: d) (lit " " ++ [tab]) = size a.
Proof.
  intros Hc Hd. unfold find_last_not_of.
  rewrite rev_app_distr. simpl rev. rewrite <- app_assoc. simpl app.
  rewrite find_if_hit.
  - unfold size. rewrite length_app, length_rev. simpl length. lia.
  - apply not_hws_pred. now apply blank_rev.
  - change (negb (hws c) = true). now rewrite Hc.
Qed.

(** A string is blank, or its trimmed part sits between two blank ends and
    has a first and a last character that are not blank. *)
Lemma trim_hws_split (s : list ascii) :
  (blank s /\ trim_hws s = []) \/
  (exists a z c e, blank a /\ blank z /\ s = a ++ trim_hws s ++ z /\
                   hws c = false /\ hws e = false /\
                   (exists m, trim_hws s = c :: m) /\
                   (exists m, trim_hws s = m ++ [e])).
Proof.
  unfold trim_hws.
  destruct (skip_hws_split s) as (a & Ha & Hs & Hhead).
  destruct (skip_hws s) as [|c d] eqn:Et.
  - left. rewrite app_nil_r in Hs. subst a. split; [assumption | reflexivity].
  - right.
    destruct (skip_hws_split (rev (c :: d))) as (b & Hb & Hr & Hhead').
    destruct (skip_hws (rev (c :: d))) as [|e f] eqn:Eu.
    + exfalso. rewrite app_nil_r in Hr. subst b.
      apply blank_rev in Hb. rewrite rev_involutive in Hb.
      inversion Hb; congruence.
    + assert (Ht : c :: d = rev (e :: f) ++ rev b).
      { rewrite <- rev_app_distr, <- Hr. now rewrite rev_involutive. }
      exists a, (rev b), c, e.
      repeat split; try assumption.
      * now apply blank_rev.
      * now rewrite <- Ht.
      * simpl rev in *. destruct (rev f) as [|x m] eqn:Ef; simpl in Ht.
        -- injection Ht as -> _. now exists [].
        -- injection Ht as -> _. now exists (m ++ [e]).
      * simpl rev. now exists (rev f).
Qed.

Lemma trim_hws_at (a z : list ascii) (c e : ascii) (m m1 m2 : list ascii) :
  blank a -> blank z -> hws c = false -> hws e = false ->
  m = c :: m1 -> m = m2 ++ [e] ->
  trim_hws (a ++ m ++ z) = m.
Proof.
  intros Ha Hz Hc He Hm1 Hm2. unfold trim_hws.
  rewrite Hm1 at 1. simpl app. rewrite skip_hws_at by assumption.
  change (c :: m1 ++ z) with ((c :: m1) ++ z). rewrite <- Hm1, Hm2.
  rewrite !rev_app_distr. simpl rev. simpl app.
  rewrite skip_hws_at by (try apply blank_rev; assumption).
  simpl rev. now rewrite rev_involutive.
Qed.

Lemma trim_hws_blank (s : list ascii) : blank s -> trim_hws s = [].
Proof. intros H. unfold trim_hws. rewrite (skip_hws_blank s) by assumption. reflexivity. Qed.

End Whitespace.

(** ** Recognising and parsing alias lines *)

Section Parsing.
Import Str AliasManager Spec CodecAux.

(** A line made of blanks, the keyword, a name part free of equals signs, an
    equals sign and a rest: the parser trims the name part, gives up when
    nothing is left of it, and reads the command out of the rest. *)
Lemma parseAliasLine_shape (lead n rest : list ascii) :
  blank lead -> ~ In "="%char n ->
  size (lead ++ lit "alias" ++ n ++ "="%char :: rest) < npos ->
  parseAliasLine (lead ++ lit "alias" ++ n ++ "="%char :: rest) =
  match trim_hws n with
  | [] => Returns Alias_default
  | nm => parse_command (set_name Alias_default nm) rest
  end.
Proof.
  intros Hlead Hn Hsz.
  set (line := lead ++ lit "alias" ++ n ++ "="%char :: rest) in *.
  pose proof (size_nonneg lead) as Hl0. pose proof (size_nonneg n) as Hn0.
  pose proof (size_nonneg rest) as Hr0.
  assert (Hsize : size line = size lead + 5 + size n + 1 + size rest).
  { unfold line. rewrite !size_app, size_cons. change (size (lit "alias")) with 5. lia. }
  rewrite npos_value in Hsz.
  unfold parseAliasLine. cbv zeta.
  (* the keyword *)
  assert (Hstart : find_first_not_of line (lit " " ++ [tab]) = size lead).
  { unfold line. simpl app. now apply find_first_not_of_at. }
  rewrite Hstart.
  destruct (size lead =? npos) eqn:E; [apply Z.eqb_eq in E; rewrite npos_value in E; lia|clear E].
  assert (Hkw : substr line (size lead) 5 = Returns (lit "alias")).
  { unfold line. apply (substr_app lead (lit "alias")). fold line. rewrite npos_value. lia. }
  rewrite Hkw. cbn [obind].
  unfold Str.eqb at 1. rewrite bool_decide_eq_true_2 by reflexivity. simpl negb. cbv iota.
  (* the equals sign *)
  rewrite (wadd_small (size lead) 5) by (rewrite two64_value; lia).
  assert (Hline : line = (lead ++ lit "alias") ++ n ++ "="%char :: rest).
  { unfold line. now rewrite <- app_assoc. }
  assert (Hpre : size (lead ++ lit "alias") = size lead + 5).
  { rewrite size_app. reflexivity. }
  assert (Heq : find line "=" (size lead + 5) = size lead + 5 + size n).
  { rewrite Hline, <- Hpre. now apply find_hit. }
  rewrite Heq.
  destruct (size lead + 5 + size n =? npos) eqn:E;
    [apply Z.eqb_eq in E; rewrite npos_value in E; lia|clear E].
  rewrite (wsub_small (size lead + 5 + size n) (size lead)) by (rewrite two64_value; lia).
  rewrite (wsub_small _ 5) by (rewrite two64_value; lia).
  replace (size lead + 5 + size n - size lead - 5) with (size n) by lia.
  assert (HnamePart : substr line (size lead + 5) (size n) = Returns n).
  { rewrite Hline, <- Hpre. apply substr_app. rewrite <- Hline, npos_value. lia. }
  rewrite HnamePart. cbn [obind].
  (* what follows the equals sign *)
  rewrite (wadd_small (size lead + 5 + size n) 1) by (rewrite two64_value; lia).
  assert (Hcmd : substr line (size lead + 5 + size n + 1) npos = Returns rest).
  { assert (Hl2 : line = (lead ++ lit "alias" ++ n ++ ["="%char]) ++ rest).
    { unfold line. rewrite <- !app_assoc. reflexivity. }
    assert (Hp2 : size (lead ++ lit "alias" ++ n ++ ["="%char]) = size lead + 5 + size n + 1).
    { rewrite !size_app. change (size (lit "alias")) with 5. change (size ["="%char]) with 1. lia. }
    rewrite Hl2, <- Hp2. apply substr_to_end. rewrite npos_value. lia. }
  (* the name *)
  destruct (trim_hws_split n) as [[Hblank Htrim]|(a & z & c & e & Ha & Hz & Hsplit & Hc & He & [m1 Hm1] & [m2 Hm2])].
  - rewrite Htrim, find_first_not_of_blank by assumption.
    rewrite Z.eqb_refl. reflexivity.
  - set (m := trim_hws n) in *.
    pose proof (size_nonneg a) as Ha0. pose proof (size_nonneg z) as Hz0.
    pose proof (size_nonneg m2) as Hm0.
    assert (Hsn : size n = size a + size m + size z).
    { rewrite Hsplit at 1. rewrite !size_app. lia. }
    assert (Hsm : size m = size m2 + 1).
    { rewrite Hm2, size_app. reflexivity. }
    assert (HnameStart : find_first_not_of n (lit " " ++ [tab]) = size a).
    { rewrite Hsplit, Hm1. simpl app. now apply find_first_not_of_at. }
    assert (HnameEnd : find_last_not_of n (lit " " ++ [tab]) = size a + size m2).
    { rewrite Hsplit, Hm2, <- app_assoc. simpl app. rewrite app_assoc, <- size_app.
      now apply find_last_not_of_at. }
    rewrite HnameStart, HnameEnd.
    destruct (size a =? npos) eqn:E; [apply Z.eqb_eq in E; rewrite npos_value in E; lia|clear E].
    rewrite (wsub_small _ (size a)) by (rewrite two64_value; lia).
    rewrite (wadd_small _ 1) by (rewrite two64_value; lia).
    replace (size a + size m2 - size a + 1) with (size m) by lia.
    assert (Hnm : substr n (size a) (size m) = Returns m).
    { rewrite Hsplit at 1. apply substr_app. rewrite <- Hsplit, npos_value. lia. }
    rewrite Hnm. cbn [obind]. rewrite Hcmd. cbn [obind].
    rewrite Hm1. reflexivity.
Qed.

Lemma isAliasLine_decides (line : list ascii) :
  size line < npos ->
  isAliasLine line = Returns (bool_decide (firstn 5 (skip_hws line) = lit "alias")).
Proof.
  intros Hsz. unfold isAliasLine.
  destruct (skip_hws_split line) as (a & Ha & Hs & Hhead).
  destruct (skip_hws line) as [|c d] eqn:Et.
  - rewrite app_nil_r in Hs. subst a.
    rewrite find_first_not_of_blank by assumption. reflexivity.
  - assert (Hff : find_first_not_of line (lit " " ++ [tab]) = size a).
    { rewrite Hs. now apply find_first_not_of_at. }
    rewrite Hff.
    assert (Hlt : size a < size line).
    { rewrite Hs, size_app, size_cons. pose proof (size_nonneg d). lia. }
    pose proof (size_nonneg a) as Ha0.
    destruct (size a =? npos) eqn:E; [apply Z.eqb_eq in E; lia|]. simpl negb. cbv iota.
    rewrite substr_in_range; [|lia|lia].
    unfold size at 1. rewrite Nat2Z.id. rewrite Hs at 1. rewrite drop_app_length. reflexivity.
Qed.

(** C6: [isAliasLine line] is true exactly when, after the leading spaces
    and tabs, the next five characters are "alias"; nothing is asked of the
    character after them, so "aliasfoo=1" is taken for an alias line. *)
Theorem isAliasLine_prefix_match (line : list ascii) (Hsz : size line < npos) :
  (isAliasLine line = Returns true <-> firstn 5 (skip_hws line) = lit "alias") /\
  (isAliasLine line = Returns false <-> firstn 5 (skip_hws line) <> lit "alias") /\
  isAliasLine (lit "aliasfoo=1") = Returns true.
Proof.
  rewrite (isAliasLine_decides line Hsz).
  repeat split.
  - intros [= H]. now apply bool_decide_eq_true in H.
  - intros H. f_equal. now apply bool_decide_eq_true.
  - intros [= H]. now apply bool_decide_eq_false in H.
  - intros H. f_equal. now apply bool_decide_eq_false.
Qed.

Lemma isAliasLine_prefix_match_witness :
  (isAliasLine (lit "  alias ll='ls'") = Returns true <->
   firstn 5 (skip_hws (lit "  alias ll='ls'")) = lit "alias") /\
  (isAliasLine (lit "  alias ll='ls'") = Returns false <->
   firstn 5 (skip_hws (lit "  alias ll='ls'")) <> lit "alias") /\
  isAliasLine (lit "aliasfoo=1") = Returns true.
Proof.
  apply (isAliasLine_prefix_match (lit "  alias ll='ls'")). vm_compute. reflexivity.
Defined.

(** C5: the parser on the five lines of the specification. *)
Theorem parseAliasLine_examples :
  parseAliasLine (lit "alias ll='ls -la'")
  = Returns (set_command (set_name Alias_default (lit "ll")) (lit "ls -la")) /\
  parseAliasLine (lit "alias gcm=" ++ [dquote] ++ lit "git commit -m 'initial commit'" ++ [dquote])
  = Returns (set_command (set_name Alias_default (lit "gcm"))
               (lit "git commit -m 'initial commit'")) /\
  parseAliasLine (lit "alias ll = 'ls -la'")
  = Returns (set_command (set_name Alias_default (lit "ll")) (lit "ls -la")) /\
  parseAliasLine (lit "not an alias") = Returns Alias_default /\
  parseAliasLine [] = Returns Alias_default.
Proof. repeat split; vm_compute; reflexivity. Qed.

Lemma parse_command_blank (result : Alias) (ws : list ascii) :
  blank ws -> parse_command result ws = Returns result.
Proof.
  intros H. unfold parse_command. cbv zeta.
  rewrite find_first_not_of_blank by assumption. now rewrite Z.eqb_refl.
Qed.

(** C10: on a line "alias <name>=" followed by spaces and tabs only (or by
    nothing) the parser returns a record: its name is the trimmed <name> and
    its command is empty, a command [validateCommand] refuses. *)
Theorem parseAliasLine_empty_command (lead n ws : list ascii)
  (Hlead : blank lead) (Hn : ~ In "="%char n) (Hws : blank ws)
  (Hsz : size (lead ++ lit "alias" ++ n ++ "="%char :: ws) < npos) :
  parseAliasLine (lead ++ lit "alias" ++ n ++ "="%char :: ws)
  = Returns (alias_of (trim_hws n) []) /\
  validateCommand (command (alias_of (trim_hws n) [])) = false.
Proof.
  split; [|reflexivity].
  rewrite parseAliasLine_shape by assumption.
  destruct (trim_hws n) as [|c m]; [reflexivity|].
  now rewrite parse_command_blank.
Qed.

Lemma parseAliasLine_empty_command_witness :
  parseAliasLine ([] ++ lit "alias" ++ lit " gs " ++ "="%char :: lit "  ")
  = Returns (alias_of (trim_hws (lit " gs ")) []) /\
  validateCommand (command (alias_of (trim_hws (lit " gs ")) [])) = false.
Proof.
  apply (parseAliasLine_empty_command [] (lit " gs ") (lit "  ")).
  - constructor.
  - vm_compute. intuition discriminate.
  - repeat constructor.
  - vm_compute. reflexivity.
Defined.

(** A quoted command whose body is free of the quote: the parser reads the
    body and unescapes it. *)
Lemma parse_command_quoted (result : Alias) (q : ascii) (body : list ascii) :
  q = squote \/ q = dquote -> ~ In q body -> size body + 2 < npos ->
  parse_command result (q :: body ++ [q])
  = Returns (set_command result (unescapeString body)).
Proof.
  intros Hq Hbody Hsz. unfold parse_command. cbv zeta.
  pose proof (size_nonneg body) as Hb0. rewrite npos_value in Hsz.
  assert (Hblank : hws q = false) by (destruct Hq; subst q; reflexivity).
  assert (Hstart : find_first_not_of (q :: body ++ [q]) (lit " " ++ [tab]) = 0).
  { apply (find_first_not_of_at [] q); [constructor | assumption]. }
  rewrite Hstart. change (0 =? npos) with false. cbv iota.
  change (at_ (q :: body ++ [q]) 0) with q.
  assert (Hisq : Ascii.eqb q squote || Ascii.eqb q dquote = true)
    by (destruct Hq; subst q; reflexivity).
  rewrite Hisq. change (wadd 0 1) with 1.
  assert (Hend : find (q :: body ++ [q]) q 1 = 1 + size body).
  { apply (find_hit [q] body q []). assumption. }
  rewrite Hend.
  destruct (1 + size body =? npos) eqn:E;
    [apply Z.eqb_eq in E; rewrite npos_value in E; lia|clear E].
  simpl negb. cbv iota.
  rewrite (wsub_small _ 0) by (rewrite two64_value; lia).
  rewrite (wsub_small _ 1) by (rewrite two64_value; lia).
  replace (1 + size body - 0 - 1) with (size body) by lia.
  assert (Hsub : substr (q :: body ++ [q]) 1 (size body) = Returns body).
  { apply (substr_app [q] body [q]). rewrite !size_app, !size_cons, npos_value.
    change (size []) with 0. lia. }
  rewrite Hsub. reflexivity.
Qed.

(** The characters of a valid name are neither blank nor an equals sign. *)
Lemma later_char_plain (c : ascii) :
  later_char_ok c -> hws c = false /\ c <> "="%char.
Proof.
  unfold later_char_ok, is_letter, is_digit. intros H.
  assert (Hno : forall x : ascii,
             (nat_of_ascii x < 48)%nat \/ nat_of_ascii x = 61%nat ->
             x <> "_"%char -> x <> "-"%char -> c <> x).
  { intros x Hx H1 H2 ->. destruct H as [[H|H]|[H|[H|H]]]; try congruence; lia. }
  split.
  - unfold hws, one_of. simpl existsb.
    destruct (Ascii.eqb_spec c " ") as [E|_];
      [exfalso; revert E; apply Hno; [left; cbv; lia | discriminate | discriminate]|].
    destruct (Ascii.eqb_spec c tab) as [E|_];
      [exfalso; revert E; apply Hno; [left; cbv; lia | discriminate | discriminate]|].
    reflexivity.
  - apply Hno; [right; reflexivity | discriminate | discriminate].
Qed.

Lemma first_char_later (c : ascii) : first_char_ok c -> later_char_ok c.
Proof. unfold first_char_ok, later_char_ok. tauto. Qed.

Lemma conforming_chars (n : list ascii) :
  conforming_name n -> n <> [] /\ Forall later_char_ok n.
Proof.
  intros [_ H]. destruct n as [|c m]; [destruct H|]. destruct H as [Hc Hm].
  split; [discriminate|]. constructor; [now apply first_char_later | assumption].
Qed.

(** A valid name behind one space is what trimming gives back. *)
Lemma trim_space_name (n : list ascii) :
  conforming_name n -> trim_hws (" "%char :: n) = n /\ ~ In "="%char (" "%char :: n).
Proof.
  intros Hn. destruct (conforming_chars n Hn) as [Hne Hall].
  rewrite List.Forall_forall in Hall.
  split.
  - destruct n as [|c m1] eqn:En; [congruence|]. rewrite <- En in *.
    destruct (exists_last Hne) as (m2 & e & Hlast).
    assert (Hc : hws c = false).
    { apply later_char_plain, Hall. rewrite En. now left. }
    assert (He : hws e = false).
    { apply later_char_plain, Hall. rewrite Hlast. apply in_elt. }
    change (" "%char :: n) with ([" "%char] ++ n).
    rewrite <- (app_nil_r n) at 1.
    apply (trim_hws_at [" "%char] [] c e n m1 m2); try assumption.
    + repeat constructor.
    + constructor.
  - intros [H|H]; [discriminate|].
    destruct (later_char_plain _ (Hall _ H)) as [_ Hneq]. congruence.
Qed.

Lemma validateCommand_size (c : list ascii) :
  validateCommand c = true -> 1 <= size c <= 2048.
Proof.
  unfold validateCommand, Str.eqb. destruct c as [|x c]; [discriminate|].
  rewrite bool_decide_eq_false_2 by discriminate.
  destruct (2048 <? size (x :: c)) eqn:E; [discriminate|].
  apply Z.ltb_ge in E. rewrite size_cons in *. pose proof (size_nonneg c). lia.
Qed.

(** What [formatAlias] writes for a valid record, by dialect. *)
Lemma formatAlias_valid (self : AliasManager.t) (r : Alias) :
  validateAliasName (name r) = true -> validateCommand (command r) = true ->
  formatAlias self r =
  match currentShell self with
  | ShellDetector.BASH | ShellDetector.ZSH =>
      if negb (find (command r) squote 0 =? npos)
      then lit "alias " ++ name r ++ lit "=" ++ [dquote] ++ escapeCommand (command r) ++ [dquote]
      else lit "alias " ++ name r ++ lit "='" ++ escapeCommand (command r) ++ lit "'"
  | ShellDetector.FISH =>
      lit "alias " ++ name r ++ lit " '" ++ escapeCommand (command r) ++ lit "'"
  | ShellDetector.UNKNOWN =>
      lit "alias " ++ name r ++ lit "='" ++ escapeCommand (command r) ++ lit "'"
  end.
Proof. intros Hn Hc. unfold formatAlias. rewrite Hn, Hc. reflexivity. Qed.

Lemma find_squote_iff (c : list ascii) :
  validateCommand c = true ->
  (negb (find c squote 0 =? npos) = true <-> has_squote c).
Proof.
  intros Hc. apply validateCommand_size in Hc.
  assert (Hsz : size c < npos) by (rewrite npos_value; lia).
  pose proof (find_zero_npos_iff c squote Hsz) as Hiff. unfold has_squote.
  destruct (find c squote 0 =? npos) eqn:E; simpl.
  - apply Z.eqb_eq in E. split; [discriminate|]. intros H. now apply Hiff in E.
  - apply Z.eqb_neq in E. split; [|reflexivity]. intros _.
    destruct (in_dec ascii_dec squote c) as [H|H]; [assumption|]. now apply Hiff in H.
Qed.

(** The line a POSIX formatter writes parses back to the record. *)
Lemma parse_posix_line (n c : list ascii) (q : ascii) :
  conforming_name n -> validateCommand c = true ->
  q = squote \/ q = dquote -> ~ In q c ->
  parseAliasLine (lit "alias " ++ n ++ lit "=" ++ [q] ++ escapeCommand c ++ [q])
  = Returns (alias_of n c).
Proof.
  intros Hn Hc Hq Hfree.
  destruct (trim_space_name n Hn) as [Htrim Hnoeq].
  pose proof (validateCommand_size c Hc) as Hcs.
  pose proof (escape_length c) as Hel.
  destruct Hn as [Hns _].
  assert (Hesc : size (escapeCommand c) <= 4096) by (unfold size in *; lia).
  pose proof (size_nonneg (escapeCommand c)) as He0.
  change (lit "alias " ++ n ++ lit "=" ++ [q] ++ escapeCommand c ++ [q])
    with ([] ++ lit "alias" ++ (" "%char :: n) ++ "="%char :: (q :: escapeCommand c ++ [q])).
  rewrite parseAliasLine_shape.
  - rewrite Htrim. destruct n as [|x m] eqn:En; [change (size []) with 0 in Hns; lia|].
    rewrite <- En. rewrite parse_command_quoted.
    + unfold unescapeString. now rewrite escapeCommand_flat_map, unescape_loop_escaped.
    + assumption.
    + apply escape_keeps_free; [destruct Hq; subst q; discriminate | assumption].
    + rewrite npos_value. lia.
  - constructor.
  - assumption.
  - repeat (rewrite size_app || rewrite size_cons). rewrite npos_value.
    change (size (lit "alias")) with 5. change (size []) with 0. lia.
Qed.

(** A line with the keyword and no equals sign after it gives the empty
    record. *)
Lemma parseAliasLine_no_equals (lead rest : list ascii) :
  blank lead -> ~ In "="%char rest ->
  size (lead ++ lit "alias" ++ rest) < npos ->
  parseAliasLine (lead ++ lit "alias" ++ rest) = Returns Alias_default.
Proof.
  intros Hlead Hrest Hsz.
  set (line := lead ++ lit "alias" ++ rest) in *.
  pose proof (size_nonneg lead) as Hl0. pose proof (size_nonneg rest) as Hr0.
  assert (Hsize : size line = size lead + 5 + size rest).
  { unfold line. rewrite !size_app. change (size (lit "alias")) with 5. lia. }
  rewrite npos_value in Hsz.
  unfold parseAliasLine. cbv zeta.
  assert (Hstart : find_first_not_of line (lit " " ++ [tab]) = size lead).
  { unfold line. simpl app. now apply find_first_not_of_at. }
  rewrite Hstart.
  destruct (size lead =? npos) eqn:E; [apply Z.eqb_eq in E; rewrite npos_value in E; lia|clear E].
  assert (Hkw : substr line (size lead) 5 = Returns (lit "alias")).
  { unfold line. apply (substr_app lead (lit "alias")). fold line. rewrite npos_value. lia. }
  rewrite Hkw. cbn [obind].
  unfold Str.eqb at 1. rewrite bool_decide_eq_true_2 by reflexivity. simpl negb. cbv iota.
  rewrite (wadd_small (size lead) 5) by (rewrite two64_value; lia).
  assert (Heq : find line "=" (size lead + 5) = npos).
  { unfold line. rewrite app_assoc.
    replace (size lead + 5) with (size (lead ++ lit "alias")) by (now rewrite size_app).
    now apply find_miss. }
  rewrite Heq. reflexivity.
Qed.

(** Reading the command leaves the name as it is. *)
Lemma parse_command_name (result r' : Alias) (rest : list ascii) :
  parse_command result rest = Returns r' -> name r' = name result.
Proof.
  unfold parse_command. cbv zeta.
  destruct (find_first_not_of rest (lit " " ++ [tab]) =? npos); [now intros [= <-]|].
  match goal with
  | |- obind ?c _ = _ -> _ => destruct c as [cmd|e]
  end; cbn [obind]; [now intros [= <-] | discriminate].
Qed.

Lemma first_occurrence (c : ascii) (s : list ascii) :
  In c s -> exists s1 s2, s = s1 ++ c :: s2 /\ ~ In c s1.
Proof.
  induction s as [|x s IH]; [intros []|]. intros Hin.
  destruct (ascii_dec x c) as [->|Hne].
  - exists [], s. split; [reflexivity | intros []].
  - destruct Hin as [->|Hin]; [congruence|].
    destruct (IH Hin) as (s1 & s2 & -> & Hs1). exists (x :: s1), s2.
    split; [reflexivity|]. intros [H|H]; [congruence | tauto].
Qed.

(** Trimming keeps every character that is not blank. *)
Lemma trim_hws_keeps (c : ascii) (s : list ascii) :
  In c s -> hws c = false -> In c (trim_hws s).
Proof.
  intros Hin Hc.
  assert (Hout : forall b, blank b -> ~ In c b).
  { intros b Hb H. unfold blank in Hb. rewrite List.Forall_forall in Hb.
    apply Hb in H. congruence. }
  destruct (trim_hws_split s) as [[Hblank _]|(a & z & _ & _ & Ha & Hz & Hs & _)].
  - now apply Hout in Hblank.
  - rewrite Hs in Hin. apply in_app_or in Hin. destruct Hin as [Hin|Hin].
    + now apply Hout in Ha.
    + apply in_app_or in Hin. destruct Hin as [Hin|Hin]; [assumption|]. now apply Hout in Hz.
Qed.

(** The line the FISH formatter writes never parses back to the record:
    without an equals sign in the command the parser gives the empty record,
    with one it takes everything before it for the name. *)
Lemma parse_fish_line (n c : list ascii) (r' : Alias) :
  conforming_name n -> validateCommand c = true ->
  parseAliasLine (lit "alias " ++ n ++ lit " '" ++ escapeCommand c ++ lit "'") = Returns r' ->
  name r' <> n.
Proof.
  intros Hn Hc Hparse.
  destruct (conforming_chars n Hn) as [Hne Hall]. rewrite List.Forall_forall in Hall.
  pose proof (validateCommand_size c Hc) as Hcs.
  pose proof (escape_length c) as Hel.
  destruct Hn as [Hns _].
  assert (Hesc : size (escapeCommand c) <= 4096) by (unfold size in *; lia).
  pose proof (size_nonneg (escapeCommand c)) as He0.
  set (tail := escapeCommand c ++ lit "'") in *.
  assert (Htail : size tail <= 4097).
  { unfold tail. rewrite size_app. change (size (lit "'")) with 1. lia. }
  assert (Hnosq : ~ In squote n).
  { intros H. apply Hall in H. unfold later_char_ok, is_letter, is_digit in H.
    destruct H as [[H|H]|[H|[H|H]]]; try discriminate H; vm_compute in H; lia. }
  assert (Hnoeq : ~ In "="%char (" "%char :: n ++ lit " '")).
  { intros [H|H]; [discriminate|]. apply in_app_or in H. destruct H as [H|H].
    - destruct (later_char_plain _ (Hall _ H)) as [_ Hneq]. congruence.
    - destruct H as [H|[H|[]]]; discriminate. }
  destruct (in_dec ascii_dec "="%char tail) as [Hin|Hnot].
  - destruct (first_occurrence _ _ Hin) as (e1 & s2 & Htl & He1).
    assert (Hline : lit "alias " ++ n ++ lit " '" ++ tail
                    = [] ++ lit "alias" ++ (" "%char :: n ++ lit " '" ++ e1) ++ "="%char :: s2).
    { rewrite Htl. simpl. rewrite <- !app_assoc. reflexivity. }
    fold tail in Hparse. rewrite Hline in Hparse.
    rewrite parseAliasLine_shape in Hparse.
    + assert (Hsq : In squote (trim_hws (" "%char :: n ++ lit " '" ++ e1))).
      { apply trim_hws_keeps; [|reflexivity].
        right. apply in_or_app. right. right. now left. }
      destruct (trim_hws (" "%char :: n ++ lit " '" ++ e1)) as [|x nm] eqn:Et;
        [destruct Hsq|].
      apply parse_command_name in Hparse. cbn [name set_name] in Hparse.
      rewrite Hparse. intros <-. now apply Hnosq.
    + constructor.
    + intros [H|H]; [discriminate|]. apply in_app_or in H. destruct H as [H|H].
      * destruct (later_char_plain _ (Hall _ H)) as [_ Hneq]. congruence.
      * destruct H as [H|[H|H]]; try discriminate. tauto.
    + rewrite <- Hline. repeat (rewrite size_app || rewrite size_cons). rewrite npos_value.
      change (size (lit "alias ")) with 6. change (size (lit " '")) with 2. lia.
  - assert (Hline : lit "alias " ++ n ++ lit " '" ++ tail
                    = [] ++ lit "alias" ++ (" "%char :: n ++ lit " '" ++ tail)) by reflexivity.
    fold tail in Hparse. rewrite Hline in Hparse.
    rewrite parseAliasLine_no_equals in Hparse.
    + injection Hparse as <-. cbn [name Alias_default]. congruence.
    + constructor.
    + intros [H|H]; [discriminate|]. apply in_app_or in H. destruct H as [H|H].
      * destruct (later_char_plain _ (Hall _ H)) as [_ Hneq]. congruence.
      * destruct H as [H|[H|H]]; try discriminate. tauto.
    + rewrite <- Hline. repeat (rewrite size_app || rewrite size_cons). rewrite npos_value.
      change (size (lit "alias ")) with 6. change (size (lit " '")) with 2. lia.
Qed.

(** C1, as the code has it: for every valid record whose command does not
    hold both kinds of quote (in particular, for every command free of single
    quotes), under the POSIX dialect (BASH, ZSH) parsing the formatted line
    gives back the name and the command of the record; under the FISH dialect
    it never does. *)
Theorem roundtrip_by_dialect (self : AliasManager.t) (r : Alias)
  (Hname : validateAliasName (name r) = true)
  (Hcommand : validateCommand (command r) = true)
  (Hquote : ~ has_squote (command r) \/ ~ In dquote (command r)) :
  match currentShell self with
  | ShellDetector.BASH | ShellDetector.ZSH =>
      parseAliasLine (formatAlias self r) = Returns (alias_of (name r) (command r)) /\
      roundtrips self r /\
      Alias_eqb (alias_of (name r) (command r)) r = true
  | ShellDetector.FISH => ~ roundtrips self r
  | ShellDetector.UNKNOWN => True
  end.
Proof.
  pose proof (formatAlias_valid self r Hname Hcommand) as Hfmt.
  pose proof (find_squote_iff (command r) Hcommand) as Hsq.
  apply validateAliasName_spec in Hname.
  assert (Hposix :
            currentShell self = ShellDetector.BASH \/ currentShell self = ShellDetector.ZSH ->
            parseAliasLine (formatAlias self r) = Returns (alias_of (name r) (command r)) /\
            roundtrips self r /\
            Alias_eqb (alias_of (name r) (command r)) r = true).
  { intros Hshell.
    assert (Hparse : parseAliasLine (formatAlias self r)
                     = Returns (alias_of (name r) (command r))).
    { rewrite Hfmt.
      destruct (negb (find (command r) squote 0 =? npos)) eqn:E.
      - assert (Hd : ~ In dquote (command r)).
        { destruct Hquote as [H|H]; [|assumption]. exfalso. apply H. now apply Hsq. }
        destruct Hshell as [-> | ->]; apply parse_posix_line; auto.
      - assert (Hs : ~ In squote (command r)).
        { intros H. apply Hsq in H. congruence. }
        destruct Hshell as [-> | ->];
          apply (parse_posix_line (name r) (command r) squote); auto. }
    split; [assumption|]. split.
    - exists (alias_of (name r) (command r)). split; [assumption|]. split; reflexivity.
    - unfold Alias_eqb, Str.eqb. simpl. now rewrite !bool_decide_eq_true_2. }
  destruct (currentShell self) eqn:Eshell; try (apply Hposix; tauto); [|exact I].
  intros (r' & Hparse & Hn & _). rewrite Hfmt in Hparse.
  now apply (parse_fish_line (name r) (command r) r' Hname Hcommand) in Hparse.
Qed.

Lemma roundtrip_by_dialect_witness :
  parseAliasLine (formatAlias (AliasManager.mk ShellDetector.BASH)
                    (alias_of (lit "gcm") (lit "git commit -m 'wip' $1")))
  = Returns (alias_of (lit "gcm") (lit "git commit -m 'wip' $1")) /\
  roundtrips (AliasManager.mk ShellDetector.BASH)
    (alias_of (lit "gcm") (lit "git commit -m 'wip' $1")) /\
  Alias_eqb (alias_of (lit "gcm") (lit "git commit -m 'wip' $1"))
    (alias_of (lit "gcm") (lit "git commit -m 'wip' $1")) = true.
Proof.
  apply (roundtrip_by_dialect (AliasManager.mk ShellDetector.BASH)
           (alias_of (lit "gcm") (lit "git commit -m 'wip' $1"))).
  - vm_compute. reflexivity.
  - vm_compute. reflexivity.
  - right. vm_compute. intuition discriminate.
Defined.

(** C1, as stated, fails for the FISH dialect: the line written for the
    valid record (ll, ls -la) has no equals sign, and the parser returns the
    empty record for it. *)
Lemma roundtrip_fails_for_fish :
  ~ roundtrip_rule ShellDetector.FISH (alias_of (lit "ll") (lit "ls -la")).
Proof.
  intros H.
  destruct H as (r' & Hparse & Hname & _).
  - vm_compute. reflexivity.
  - vm_compute. reflexivity.
  - vm_compute. intuition discriminate.
  - vm_compute in Hparse. injection Hparse as <-. discriminate Hname.
Qed.

End Parsing.

(** ** Formatting *)

Section Formatting.
Import Str AliasManager Spec.

(** C3, as the code has it: for every valid record, under the BASH and ZSH
    dialects [formatAlias] puts the escaped command between double quotes
    when the command holds a single quote and between single quotes when it
    does not; under the FISH dialect it puts it between single quotes
    always. *)
Theorem formatAlias_quoting (self : AliasManager.t) (r : Alias)
  (Hname : validateAliasName (name r) = true)
  (Hcommand : validateCommand (command r) = true) :
  match currentShell self with
  | ShellDetector.BASH | ShellDetector.ZSH =>
      (has_squote (command r) ->
       formatAlias self r
       = lit "alias " ++ name r ++ lit "=" ++ [dquote] ++ escapeCommand (command r) ++ [dquote]) /\
      (~ has_squote (command r) ->
       formatAlias self r
       = lit "alias " ++ name r ++ lit "=" ++ [squote] ++ escapeCommand (command r) ++ [squote])
  | ShellDetector.FISH =>
      formatAlias self r
      = lit "alias " ++ name r ++ lit " " ++ [squote] ++ escapeCommand (command r) ++ [squote]
  | ShellDetector.UNKNOWN => True
  end.
Proof.
  rewrite formatAlias_valid by assumption.
  pose proof (find_squote_iff (command r) Hcommand) as Hsq.
  destruct (currentShell self); try exact I; try reflexivity.
  all: destruct (negb (find (command r) squote 0 =? npos)) eqn:E; split; intros H;
    try reflexivity.
  all: try (exfalso; apply H; now apply Hsq).
  all: apply Hsq in H; congruence.
Qed.

Lemma formatAlias_quoting_witness :
  (has_squote (lit "echo it's") ->
   formatAlias (AliasManager.mk ShellDetector.ZSH) (alias_of (lit "e") (lit "echo it's"))
   = lit "alias " ++ lit "e" ++ lit "=" ++ [dquote] ++ escapeCommand (lit "echo it's") ++ [dquote]) /\
  (~ has_squote (lit "echo it's") ->
   formatAlias (AliasManager.mk ShellDetector.ZSH) (alias_of (lit "e") (lit "echo it's"))
   = lit "alias " ++ lit "e" ++ lit "=" ++ [squote] ++ escapeCommand (lit "echo it's") ++ [squote]).
Proof.
  apply (formatAlias_quoting (AliasManager.mk ShellDetector.ZSH)
           (alias_of (lit "e") (lit "echo it's")));
    vm_compute; reflexivity.
Defined.

(** C3, as stated, fails under the FISH dialect: the valid record
    (e, echo it's) has a single quote in its command and is written between
    single quotes. *)
Lemma quoting_rule_fails_for_fish :
  ~ quoting_rule (AliasManager.mk ShellDetector.FISH) (alias_of (lit "e") (lit "echo it's")).
Proof.
  intros H. destruct H as [Hd _]; [vm_compute; reflexivity ..|].
  destruct Hd as [before Hline].
  - unfold has_squote. vm_compute. tauto.
  - apply (f_equal (@rev ascii)) in Hline.
    rewrite !rev_app_distr in Hline. vm_compute in Hline. discriminate Hline.
Qed.

End Formatting.

(** ** The backup manager: what the calls do to the machine *)

Section Listing.
Import Str Sys BackupManager Effects.

Lemma starts_with_length (pat s : list ascii) :
  starts_with pat s = true -> (length pat <= length s)%nat.
Proof.
  revert s. induction pat as [|a pat IH]; intros [|c s]; simpl; try lia; try discriminate.
  intros H. apply andb_true_iff in H. destruct H as [_ H]. apply IH in H. lia.
Qed.

Lemma find_sub_length (pat s : list ascii) (i j : nat) :
  find_sub pat s i = Some j -> (length pat <= length s)%nat.
Proof.
  revert i. induction s as [|c s IH]; intros i; simpl.
  - destruct (starts_with pat []) eqn:E; [|discriminate].
    intros _. now apply starts_with_length in E.
  - destruct (starts_with pat (c :: s)) eqn:E.
    + intros _. now apply starts_with_length in E.
    + intros H. apply IH in H. lia.
Qed.

Lemma find_str_found_length (s pat : list ascii) :
  (find_str s pat =? npos) = false -> size pat <= size s.
Proof.
  unfold find_str. destruct (find_sub pat s 0) as [j|] eqn:E.
  - intros _. apply find_sub_length in E. unfold size. lia.
  - now rewrite Z.eqb_refl.
Qed.

Lemma filename_length (p : list ascii) : size (fs.filename p) <= size p.
Proof.
  unfold fs.filename, size. apply inj_le.
  induction p as [|c p IH]; simpl; [lia|].
  destruct (fs.split_last_slash p) as [[before|] name]; simpl in *; [lia|].
  destruct (Ascii.eqb c "/"); simpl; lia.
Qed.

Lemma same_files_refl (m : Machine) : same_files m m.
Proof. repeat split. Qed.

Lemma same_files_trans (a b c : Machine) :
  same_files a b -> same_files b c -> same_files a c.
Proof.
  unfold same_files. intros (?&?&?&?&?&?&?&?&?) (?&?&?&?&?&?&?&?&?).
  repeat split; congruence.
Qed.

Lemma getBackupDirectory_returns (m : Machine) :
  exists dir m', getBackupDirectory m = (Returns dir, m') /\ same_files m m'.
Proof.
  unfold getBackupDirectory. mrun.
  destruct (env_HOME (world m)) as [home|]; [|eexists _, _; split; [reflexivity|apply same_files_refl]].
  mrun.
  destruct (bool_decide (is_Some (files (world m) !! fs.join home (lit ".shellbackup")))
            || bool_decide (is_Some (dirs (world m) !! fs.join home (lit ".shellbackup")))) eqn:E;
    mrun; cbn [negb]; mrun.
  { eexists _, _; split; [reflexivity|apply same_files_refl]. }
  destruct (bool_decide (fs.join home (lit ".shellbackup") ∈ status_unreadable (world m)));
    mrun; cbn [negb]; mrun.
  { eexists _, _; split; [reflexivity|]. repeat split. }
  destruct (mkdir_failure (world m)) as [what|]; mrun.
  { eexists _, _; split; [reflexivity|]. repeat split. }
  destruct (dirs (world m) !! fs.join home (lit ".shellbackup")) as [mode|]; mrun;
    destruct (chmod_failure (world m)) as [what|]; mrun;
    eexists _, _; (split; [reflexivity|]); repeat split.
Qed.

(** The files [listBackups] reports: regular files of the backup directory
    whose name holds the pattern. *)
Lemma listBackups_returns (m : Machine) :
  exists backups m',
    listBackups m = (Returns backups, m') /\ same_files m m' /\
    List.NoDup backups /\
    (forall p, In p backups -> is_Some (files (world m) !! p) /\ 4 <= size p).
Proof.
  unfold listBackups, getBackupBaseName. mrun.
  destruct (getBackupDirectory_returns m) as (dir & m1 & Hdir & Hsame).
  rewrite Hdir. mrun.
  destruct (dirs (world m1) !! dir) as [mode|]; mrun.
  - eexists _, _. split; [reflexivity|]. split; [assumption|].
    destruct Hsame as (Hfiles & _). rewrite Hfiles.
    split.
    + apply List.NoDup_filter, List.NoDup_filter.
      apply NoDup_ListNoDup, NoDup_fst_map_to_list.
    + intros p Hp. apply filter_In in Hp. destruct Hp as [Hp Hpat].
      apply filter_In in Hp. destruct Hp as [Hp _].
      split.
      * apply in_map_iff in Hp. destruct Hp as ([q f] & <- & Hq). simpl.
        exists f. apply elem_of_map_to_list. now apply list_elem_of_In.
      * apply negb_true_iff in Hpat. apply find_str_found_length in Hpat.
        pose proof (filename_length p) as Hlen.
        rewrite size_app in Hpat. change (size (lit ".bak")) with 4 in Hpat.
        pose proof (size_nonneg (fs.filename (originalFilePath (self m)))). lia.
  - eexists _, _. split; [reflexivity|]. split.
    + destruct Hsame as (?&?&?&?&?&?&?&?&?). repeat split; assumption.
    + split; [constructor|]. intros p [].
Qed.

End Listing.

Section Rotation.
Import Str Sys BackupManager Effects.

Lemma pairWithTime_returns (backups : list (list ascii)) (acc : list (list ascii * Z))
  (m : Machine) :
  pairWithTime backups acc m = (Returns (acc ++ times_of (world m) backups), m).
Proof.
  revert acc. induction backups as [|p rest IH]; intros acc; simpl.
  - unfold ret. now rewrite app_nil_r.
  - mrun. destruct (bool_decide (p ∈ time_unreadable (world m))); mrun.
    + apply IH.
    + destruct (files (world m) !! p) as [f|]; mrun.
      * rewrite IH. now rewrite <- app_assoc.
      * apply IH.
Qed.

Lemma times_of_In (w : World) (backups : list (list ascii)) (p : list ascii) (t : Z) :
  In (p, t) (times_of w backups) ->
  In p backups /\ (p ∉ time_unreadable w) /\
  exists f, files w !! p = Some f /\ mtime f = t.
Proof.
  unfold times_of. rewrite in_flat_map. intros (q & Hq & Hin).
  destruct (bool_decide (q ∈ time_unreadable w)) eqn:E; [destruct Hin|].
  apply bool_decide_eq_false in E.
  destruct (files w !! q) as [f|] eqn:Ef; [|destruct Hin].
  destruct Hin as [[= <- <-]|[]]. repeat split; try assumption. now exists f.
Qed.

Lemma times_of_complete (w : World) (backups : list (list ascii)) (p : list ascii) (f : file) :
  In p backups -> p ∉ time_unreadable w -> files w !! p = Some f ->
  In (p, mtime f) (times_of w backups).
Proof.
  intros Hin Hr Hf. unfold times_of. rewrite in_flat_map. exists p. split; [assumption|].
  rewrite bool_decide_eq_false_2 by assumption. rewrite Hf. now left.
Qed.

Lemma times_of_NoDup (w : World) (backups : list (list ascii)) :
  List.NoDup backups -> List.NoDup (map fst (times_of w backups)).
Proof.
  induction 1 as [|p rest Hp Hnd IH]; simpl; [constructor|].
  rewrite map_app. destruct (bool_decide (p ∈ time_unreadable w)); [assumption|].
  destruct (files w !! p) as [f|]; [|assumption]. simpl. constructor; [|assumption].
  intros Hin. apply in_map_iff in Hin. destruct Hin as ([q t] & Hq & Hin). simpl in Hq. subst q.
  apply times_of_In in Hin. now destruct Hin.
Qed.

Lemma last3_returns (path : list ascii) :
  3 <= size path -> exists suffix, last3 path = Returns suffix.
Proof.
  intros H. unfold last3, substr.
  destruct (size path <? wsub (size path) 3) eqn:E; [|eauto].
  apply Z.ltb_lt in E. unfold wsub in E.
  assert (0 < two64) by (rewrite two64_value; lia).
  pose proof (Z.mod_le (size path - 3) two64 ltac:(lia) ltac:(lia)). lia.
Qed.

Lemma last3_value (path : list ascii) :
  3 <= size path < two64 ->
  last3 path = Returns (skipn (length path - 3) path).
Proof.
  intros H. unfold last3. rewrite wsub_small by lia.
  rewrite substr_in_range by (rewrite ?npos_value; lia).
  f_equal. replace (Z.to_nat (size path - 3)) with (length path - 3)%nat by (unfold size; lia).
  apply firstn_all2. rewrite length_skipn, npos_value. lia.
Qed.

Lemma is_raw_suffix (path : list ascii) :
  3 <= size path < two64 -> is_raw path = negb (xz.has_xz_suffix path).
Proof.
  intros H. unfold is_raw. rewrite last3_value by assumption. f_equal.
  unfold xz.has_xz_suffix.
  assert (Hlen : length (skipn (length path - 3) path) = 3%nat)
    by (rewrite length_skipn; unfold size in H; lia).
  assert (Hrev : rev path = rev (skipn (length path - 3) path)
                            ++ rev (firstn (length path - 3) path))
    by (now rewrite <- rev_app_distr, firstn_skipn).
  rewrite Hrev.
  destruct (skipn (length path - 3) path) as [|x [|y [|z [|? ?]]]]; try discriminate Hlen.
  change (rev (lit ".xz")) with ["z"%char; "x"%char; "."%char].
  cbn [rev app starts_with].
  unfold Str.eqb.
  destruct (Ascii.eqb_spec "z" z) as [<-|Hz]; destruct (Ascii.eqb_spec "x" y) as [<-|Hy];
    destruct (Ascii.eqb_spec "." x) as [<-|Hx]; simpl;
    try (apply bool_decide_eq_false_2; intros Heq; inversion Heq; congruence).
  reflexivity.
Qed.

Lemma system_compress (p : list ascii) : xz.system (lit "xz -9e " ++ p) = xz.compress p.
Proof. reflexivity. Qed.

Lemma system_decompress (p : list ascii) :
  xz.system (lit "xz -d -k -f " ++ p) = xz.decompress p.
Proof. reflexivity. Qed.

(** The rotation loop returns, and changes the files as [rotate_files]
    says, whenever the paths are long enough for the suffix test. *)
Lemma rotate_returns (maxBackups : Z) (l : list (list ascii * Z)) :
  forall (i d : Z) (m : Machine),
    Forall (fun e => 3 <= size (fst e)) l ->
    exists m',
      rotate maxBackups i l d m
      = (Returns (d + rotate_count (undeletable (world m)) maxBackups i l), m') /\
      files (world m')
      = rotate_files (undeletable (world m)) (xz_failing (world m)) maxBackups i l
          (files (world m)) /\
      undeletable (world m') = undeletable (world m) /\
      xz_failing (world m') = xz_failing (world m) /\
      originalFilePath (self m') = originalFilePath (self m).
Proof.
  induction l as [|[p t] rest IH]; intros i d m Hl.
  - exists m. simpl. unfold ret. rewrite Z.add_0_r. repeat split.
  - inversion Hl as [|? ? Hp Hrest]; subst. simpl fst in Hp.
    cbn [rotate rotate_files rotate_count]. unfold step_files, step_count, remove_files.
    unfold bind at 1.
    destruct (to_size_t maxBackups <=? i) eqn:Emax.
    + (* beyond the cap: remove *)
      mrun. destruct (bool_decide (p ∈ undeletable (world m))) eqn:EU; mrun.
      * destruct (IH (wadd i 1) d m Hrest) as (m' & Hrun & Hrest').
        exists m'. rewrite Hrun. split; [f_equal; f_equal; lia | mrun_in Hrest'; exact Hrest'].
      * destruct (files (world m) !! p) as [f|] eqn:Ef; mrun.
        -- destruct (IH (wadd i 1) (d + 1)
                       {| world := set_files (world m) (delete p (files (world m)));
                          self := self m |} Hrest) as (m' & Hrun & Hrest').
           exists m'. rewrite Hrun. split; [f_equal; f_equal; cbn; lia | mrun_in Hrest'; exact Hrest'].
        -- destruct (IH (wadd i 1) (d + 1) m Hrest) as (m' & Hrun & Hrest').
           exists m'. rewrite Hrun. split; [f_equal; f_equal; lia |].
           rewrite delete_id by assumption. exact Hrest'.
    + (* within the cap *)
      unfold bind at 1. unfold is_raw.
      destruct (10 <=? i) eqn:E10.
      * destruct (last3_returns p Hp) as [suffix Hsuffix]. rewrite Hsuffix.
        unfold bind at 1. unfold lift at 1. cbv beta iota. unfold ret at 1. cbv beta iota.
        cbn [andb].
        destruct (negb (Str.eqb suffix (lit ".xz"))) eqn:Eraw.
        -- rewrite system_compress. unfold compress_files, xz.compress. mrun.
           destruct (bool_decide (p ∈ xz_failing (world m))) eqn:EX; mstatus.
           { destruct (IH (wadd i 1) d
                         {| world := world m;
                            self := {| originalFilePath := originalFilePath (self m);
                                       lastError := lit "Failed to compress backup: " ++ p |} |}
                         Hrest) as (m' & Hrun & Hrest').
             exists m'. rewrite Hrun. split; [f_equal; f_equal; cbn; lia | mrun_in Hrest'; exact Hrest']. }
           destruct (xz.has_xz_suffix p); mstatus.
           { destruct (IH (wadd i 1) d
                         {| world := world m;
                            self := {| originalFilePath := originalFilePath (self m);
                                       lastError := lit "Failed to compress backup: " ++ p |} |}
                         Hrest) as (m' & Hrun & Hrest').
             exists m'. rewrite Hrun. split; [f_equal; f_equal; cbn; lia | mrun_in Hrest'; exact Hrest']. }
           destruct (files (world m) !! p) as [f|] eqn:Ef;
             [destruct (files (world m) !! (p ++ lit ".xz")) as [g|] eqn:Eg|]; mstatus.
           ++ destruct (IH (wadd i 1) d
                         {| world := world m;
                            self := {| originalFilePath := originalFilePath (self m);
                                       lastError := lit "Failed to compress backup: " ++ p |} |}
                         Hrest) as (m' & Hrun & Hrest').
              exists m'. rewrite Hrun. split; [f_equal; f_equal; cbn; lia | mrun_in Hrest'; exact Hrest'].
           ++ destruct (IH (wadd i 1) d
                         {| world := set_files (world m)
                                       (<[p ++ lit ".xz" := mkFile (mtime f) (Xz (content f))]>
                                          (delete p (files (world m))));
                            self := self m |} Hrest) as (m' & Hrun & Hrest').
              exists m'. rewrite Hrun. split; [f_equal; f_equal; cbn; lia | mrun_in Hrest'; exact Hrest'].
           ++ destruct (IH (wadd i 1) d
                         {| world := world m;
                            self := {| originalFilePath := originalFilePath (self m);
                                       lastError := lit "Failed to compress backup: " ++ p |} |}
                         Hrest) as (m' & Hrun & Hrest').
              exists m'. rewrite Hrun. split; [f_equal; f_equal; cbn; lia | mrun_in Hrest'; exact Hrest'].
        -- unfold ret at 1.
           destruct (IH (wadd i 1) d m Hrest) as (m' & Hrun & Hrest').
           exists m'. rewrite Hrun. split; [f_equal; f_equal; lia | mrun_in Hrest'; exact Hrest'].
      * unfold ret at 1. cbv beta iota. cbn [andb]. cbv iota. unfold ret at 1.
        destruct (IH (wadd i 1) d m Hrest) as (m' & Hrun & Hrest').
        exists m'. rewrite Hrun. split; [f_equal; f_equal; lia | mrun_in Hrest'; exact Hrest'].
Qed.

(** *** The three phases of the rotation *)

Lemma to_size_t_small (z : Z) : 0 <= z < two64 -> to_size_t z = z.
Proof. intros H. unfold to_size_t. now apply Z.mod_small. Qed.

Lemma rotate_files_app (U X : gset (list ascii)) (maxBackups : Z)
  (l1 l2 : list (list ascii * Z)) :
  forall (i : Z) (F : gmap (list ascii) file),
    0 <= i -> i + Z.of_nat (length l1) < two64 ->
    rotate_files U X maxBackups i (l1 ++ l2) F
    = rotate_files U X maxBackups (i + Z.of_nat (length l1)) l2
        (rotate_files U X maxBackups i l1 F) /\
    rotate_count U maxBackups i (l1 ++ l2)
    = rotate_count U maxBackups i l1
      + rotate_count U maxBackups (i + Z.of_nat (length l1)) l2.
Proof.
  induction l1 as [|[p t] l1 IH]; intros i F Hi Hlen.
  - simpl. rewrite Z.add_0_r. split; reflexivity.
  - cbn [app rotate_files rotate_count length] in *.
    rewrite wadd_small by lia.
    destruct (IH (i + 1) (step_files U X maxBackups i p F) ltac:(lia) ltac:(lia)) as [HF Hc].
    rewrite HF, Hc. replace (i + 1 + Z.of_nat (length l1)) with (i + Z.of_nat (S (length l1))) by lia.
    split; [reflexivity | lia].
Qed.

(** The ten newest: nothing happens. *)
Lemma rotate_files_keep (U X : gset (list ascii)) (maxBackups : Z)
  (l : list (list ascii * Z)) :
  forall (i : Z) (F : gmap (list ascii) file),
    0 <= i -> i + Z.of_nat (length l) <= 10 -> 10 <= maxBackups < two64 ->
    rotate_files U X maxBackups i l F = F /\ rotate_count U maxBackups i l = 0.
Proof.
  induction l as [|[p t] l IH]; intros i F Hi Hlen Hmax; [split; reflexivity|].
  cbn [rotate_files rotate_count length] in *.
  rewrite wadd_small by (rewrite two64_value; lia).
  unfold step_files, step_count. rewrite to_size_t_small by lia.
  destruct (maxBackups <=? i) eqn:E1; [apply Z.leb_le in E1; lia|].
  destruct (10 <=? i) eqn:E2; [apply Z.leb_le in E2; lia|].
  cbn [andb]. destruct (IH (i + 1) F ltac:(lia) ltac:(lia) Hmax) as [HF Hc].
  rewrite HF, Hc. split; reflexivity.
Qed.

(** From the eleventh to the cap: [xz] on each entry that lacks the
    suffix. *)
Lemma rotate_files_compress (U X : gset (list ascii)) (maxBackups : Z)
  (l : list (list ascii * Z)) :
  forall (i : Z) (F : gmap (list ascii) file),
    10 <= i -> i + Z.of_nat (length l) <= maxBackups -> maxBackups < two64 ->
    Forall (fun e => 3 <= size (fst e) < two64) l ->
    rotate_files U X maxBackups i l F = compress_all X (map fst l) F /\
    rotate_count U maxBackups i l = 0.
Proof.
  induction l as [|[p t] l IH]; intros i F Hi Hlen Hmax Hl; [split; reflexivity|].
  inversion Hl as [|? ? Hp Hrest]; subst. simpl fst in Hp.
  cbn [rotate_files rotate_count length map fst] in *.
  rewrite wadd_small by lia.
  unfold step_files, step_count. rewrite to_size_t_small by lia.
  destruct (maxBackups <=? i) eqn:E1; [apply Z.leb_le in E1; lia|].
  destruct (10 <=? i) eqn:E2; [|apply Z.leb_gt in E2; lia].
  cbn [andb].
  assert (Hstep : (if is_raw p then compress_files X p F else F) = compress_files X p F).
  { rewrite is_raw_suffix by assumption. unfold compress_files.
    destruct (xz.has_xz_suffix p); [|reflexivity]. cbn [negb].
    now destruct (bool_decide (p ∈ X)). }
  rewrite Hstep.
  destruct (IH (i + 1) (compress_files X p F) ltac:(lia) ltac:(lia) Hmax Hrest) as [HF Hc].
  rewrite HF, Hc. split; reflexivity.
Qed.

(** Past the cap: a guarded removal of each entry. *)
Lemma rotate_files_remove (U X : gset (list ascii)) (maxBackups : Z)
  (l : list (list ascii * Z)) :
  forall (i : Z) (F : gmap (list ascii) file),
    0 <= maxBackups <= i -> i + Z.of_nat (length l) < two64 ->
    rotate_files U X maxBackups i l F = remove_all U (map fst l) F /\
    rotate_count U maxBackups i l = Z.of_nat (length (removable U (map fst l))).
Proof.
  induction l as [|[p t] l IH]; intros i F Hi Hlen; [split; reflexivity|].
  cbn [rotate_files rotate_count length map fst] in *.
  rewrite wadd_small by lia.
  unfold step_files, step_count. rewrite to_size_t_small by lia.
  destruct (maxBackups <=? i) eqn:E1; [|apply Z.leb_gt in E1; lia].
  destruct (IH (i + 1) (remove_files U p F) ltac:(lia) ltac:(lia)) as [HF Hc].
  rewrite HF, Hc. split; [reflexivity|].
  unfold removable. cbn [List.filter]. destruct (bool_decide (p ∈ U)); cbn [negb length]; lia.
Qed.

(** *** What the phases do to one path *)

Lemma has_xz_suffix_app (p : list ascii) : xz.has_xz_suffix (p ++ lit ".xz") = true.
Proof. unfold xz.has_xz_suffix. rewrite rev_app_distr. reflexivity. Qed.

Lemma xz_name_differs (p : list ascii) : p ++ lit ".xz" <> p.
Proof.
  intros H. apply (f_equal (@length ascii)) in H. rewrite length_app in H.
  simpl in H. lia.
Qed.

(** A file that is there stays, unless it is an entry without the suffix. *)
Lemma compress_files_keeps (X : gset (list ascii)) (p q : list ascii) (f : file)
  (F : gmap (list ascii) file) :
  F !! q = Some f -> (p = q -> xz.has_xz_suffix q = true) ->
  compress_files X p F !! q = Some f.
Proof.
  intros Hq Hp. unfold compress_files.
  destruct (bool_decide (p ∈ X)); [assumption|].
  destruct (xz.has_xz_suffix p) eqn:Es; [assumption|].
  destruct (F !! p) as [g|] eqn:Eg; [|assumption].
  destruct (F !! (p ++ lit ".xz")) as [h|] eqn:Eh; [assumption|].
  assert (p <> q) by (intros ->; rewrite Hp in Es by reflexivity; discriminate).
  assert (p ++ lit ".xz" <> q) by congruence.
  rewrite lookup_insert_ne by assumption. now rewrite lookup_delete_ne.
Qed.

Lemma compress_all_keeps (X : gset (list ascii)) (ps : list (list ascii)) (q : list ascii)
  (f : file) :
  forall F : gmap (list ascii) file,
    F !! q = Some f -> (In q ps -> xz.has_xz_suffix q = true) ->
    compress_all X ps F !! q = Some f.
Proof.
  induction ps as [|p ps IH]; intros F Hq Hin; [assumption|].
  cbn [compress_all fold_left]. apply IH.
  - apply compress_files_keeps; [assumption|]. intros ->. apply Hin. now left.
  - intros H. apply Hin. now right.
Qed.

(** A file that is not there is not made, unless it is the compressed form
    of an entry. *)
Lemma compress_files_makes (X : gset (list ascii)) (p q : list ascii)
  (F : gmap (list ascii) file) :
  F !! q = None -> p ++ lit ".xz" <> q -> compress_files X p F !! q = None.
Proof.
  intros Hq Hp. unfold compress_files.
  destruct (bool_decide (p ∈ X)); [assumption|].
  destruct (xz.has_xz_suffix p); [assumption|].
  destruct (F !! p) as [g|]; [|assumption].
  destruct (F !! (p ++ lit ".xz")) as [h|]; [assumption|].
  rewrite lookup_insert_ne by assumption.
  rewrite lookup_delete. now destruct (decide (p = q)).
Qed.

Lemma compress_all_makes (X : gset (list ascii)) (ps : list (list ascii)) (q : list ascii) :
  forall F : gmap (list ascii) file,
    F !! q = None -> (forall p, In p ps -> p ++ lit ".xz" <> q) ->
    compress_all X ps F !! q = None.
Proof.
  induction ps as [|p ps IH]; intros F Hq Hin; [assumption|].
  cbn [compress_all fold_left]. apply IH.
  - apply compress_files_makes; [assumption|]. apply Hin. now left.
  - intros p' H. apply Hin. now right.
Qed.

Lemma compress_files_self (X : gset (list ascii)) (p : list ascii) (f : file)
  (F : gmap (list ascii) file) :
  F !! p = Some f ->
  if compressible X F p then
    compress_files X p F !! p = None /\
    compress_files X p F !! (p ++ lit ".xz") = Some (mkFile (mtime f) (Xz (content f)))
  else compress_files X p F = F.
Proof.
  intros Hp. unfold compressible, compress_files.
  destruct (bool_decide (p ∈ X)); [reflexivity|].
  destruct (xz.has_xz_suffix p); [reflexivity|]. cbn [negb andb]. rewrite Hp.
  destruct (F !! (p ++ lit ".xz")) as [h|] eqn:Eh.
  - now rewrite bool_decide_eq_false_2.
  - rewrite bool_decide_eq_true_2 by reflexivity. split.
    + rewrite lookup_insert_ne by apply xz_name_differs. apply lookup_delete_eq.
    + apply lookup_insert_eq.
Qed.

(** The compression phase on one of its entries. *)
Lemma compress_all_entry (X : gset (list ascii)) (ps : list (list ascii)) (p : list ascii)
  (f : file) (F : gmap (list ascii) file) :
  List.NoDup ps -> In p ps -> F !! p = Some f ->
  if compressible X F p then
    compress_all X ps F !! p = None /\
    compress_all X ps F !! (p ++ lit ".xz") = Some (mkFile (mtime f) (Xz (content f)))
  else compress_all X ps F !! p = Some f.
Proof.
  intros Hnd Hin Hp.
  apply in_split in Hin. destruct Hin as (l1 & l2 & ->).
  apply NoDup_remove_2 in Hnd.
  assert (Hl1 : ~ In p l1) by (intros H; apply Hnd, in_or_app; now left).
  assert (Hl2 : ~ In p l2) by (intros H; apply Hnd, in_or_app; now right).
  unfold compress_all. rewrite fold_left_app. cbn [fold_left].
  fold (compress_all X l1 F). set (F1 := compress_all X l1 F).
  fold (compress_all X l2 (compress_files X p F1)).
  assert (Hp1 : F1 !! p = Some f) by (apply compress_all_keeps; tauto).
  assert (Hsame : compressible X F1 p = compressible X F p).
  { unfold compressible. f_equal.
    destruct (F !! (p ++ lit ".xz")) as [g|] eqn:Eg.
    - rewrite !bool_decide_eq_false_2; [reflexivity | congruence |].
      unfold F1. erewrite compress_all_keeps; [discriminate | eassumption |].
      intros _. apply has_xz_suffix_app.
    - rewrite !bool_decide_eq_true_2; [reflexivity | reflexivity |].
      apply compress_all_makes; [assumption|].
      intros p' Hp' Heq. apply app_inv_tail in Heq. congruence. }
  pose proof (compress_files_self X p f F1 Hp1) as Hself. rewrite Hsame in Hself.
  destruct (compressible X F p) eqn:Ec.
  - destruct Hself as [Hgone Hmade]. split.
    + apply compress_all_makes; [assumption|].
      intros p' _ Heq.
      unfold compressible in Ec. apply andb_true_iff in Ec. destruct Ec as [Ec _].
      apply andb_true_iff in Ec. destruct Ec as [_ Ec]. apply negb_true_iff in Ec.
      rewrite <- Heq, has_xz_suffix_app in Ec. discriminate.
    + apply compress_all_keeps; [assumption|]. intros _. apply has_xz_suffix_app.
  - rewrite Hself. apply compress_all_keeps; tauto.
Qed.

(** The removal phase on any path. *)
Lemma remove_all_kept (U : gset (list ascii)) (ps : list (list ascii)) (q : list ascii) :
  forall F : gmap (list ascii) file,
    ~ In q ps \/ q ∈ U -> remove_all U ps F !! q = F !! q.
Proof.
  induction ps as [|p ps IH]; intros F Hq; [reflexivity|].
  cbn [remove_all fold_left]. fold (remove_all U ps (remove_files U p F)).
  rewrite IH by (simpl in Hq; tauto).
  unfold remove_files. destruct (bool_decide (p ∈ U)) eqn:EU; [reflexivity|].
  apply bool_decide_eq_false in EU.
  apply lookup_delete_ne. intros ->. destruct Hq as [Hq|Hq]; [apply Hq; now left | tauto].
Qed.

Lemma remove_all_absent (U : gset (list ascii)) (ps : list (list ascii)) (q : list ascii) :
  forall F : gmap (list ascii) file,
    F !! q = None -> remove_all U ps F !! q = None.
Proof.
  induction ps as [|p ps IH]; intros F Hq; [assumption|].
  cbn [remove_all fold_left]. apply IH. unfold remove_files.
  destruct (bool_decide (p ∈ U)); [assumption|].
  rewrite lookup_delete. now destruct (decide (p = q)).
Qed.

Lemma remove_all_gone (U : gset (list ascii)) (ps : list (list ascii)) (q : list ascii) :
  forall F : gmap (list ascii) file,
    In q ps -> q ∉ U -> remove_all U ps F !! q = None.
Proof.
  induction ps as [|p ps IH]; intros F Hin HU; [destruct Hin|].
  cbn [remove_all fold_left]. fold (remove_all U ps (remove_files U p F)).
  destruct (decide (p = q)) as [->|Hne].
  - apply remove_all_absent. unfold remove_files.
    rewrite bool_decide_eq_false_2 by assumption. apply lookup_delete_eq.
  - apply IH; [|assumption]. destruct Hin; [congruence | assumption].
Qed.

End Rotation.

(** ** Rotation, backup creation and restoration *)

Section Lifecycle.
Import Str Sys BackupManager Effects MoreEffects.

Variable std_sort : list (list ascii * Z) -> list (list ascii * Z).

(** [std::sort] rearranges. *)
Hypothesis std_sort_perm : forall l, Permutation (std_sort l) l.

(** [std::sort] with [a.second > b.second] leaves no later element newer
    than an earlier one. *)
Hypothesis std_sort_sorted :
  forall l, StronglySorted (fun a b => snd b <= snd a) (std_sort l).

Lemma times_of_same (m m' : Machine) (l : list (list ascii)) :
  same_files m m' -> times_of (world m') l = times_of (world m) l.
Proof.
  intros (Hf & Ht & _). unfold times_of. now rewrite Hf, Ht.
Qed.

Lemma listing_unfold (m : Machine) :
  listBackups m = (Returns (backup_entries m), after_listing m) /\
  same_files m (after_listing m) /\
  backups_newest_first std_sort m = std_sort (times_of (world m) (backup_entries m)).
Proof.
  unfold backup_entries, after_listing, backups_newest_first.
  destruct (listBackups_returns m) as (backups & m1 & Hrun & Hsame & _).
  unfold bind. rewrite Hrun. cbn [fst snd]. rewrite pairWithTime_returns.
  cbn [app]. rewrite (times_of_same m m1) by assumption. repeat split; apply Hsame.
Qed.

(** Every backup in the order is a file with that modification time, and
    no path comes twice. *)
Lemma backups_newest_first_entries (m : Machine) :
  List.NoDup (map fst (backups_newest_first std_sort m)) /\
  (forall p t, In (p, t) (backups_newest_first std_sort m) ->
     In p (backup_entries m) /\ (p ∉ time_unreadable (world m)) /\ 4 <= size p /\
     exists f, files (world m) !! p = Some f /\ mtime f = t).
Proof using std_sort_perm.
  destruct (listing_unfold m) as (Hrun & Hsame & ->).
  destruct (listBackups_returns m) as (backups & m1 & Hrun' & _ & Hnd & Hfiles).
  rewrite Hrun in Hrun'. injection Hrun' as <- _.
  split.
  - eapply Permutation_NoDup.
    + apply Permutation_map. symmetry. apply std_sort_perm.
    + now apply times_of_NoDup.
  - intros p t Hin.
    apply (Permutation_in _ (std_sort_perm _)) in Hin.
    apply times_of_In in Hin. destruct Hin as (Hin & Hr & Hf).
    repeat split; try assumption. now apply Hfiles.
Qed.

Lemma cleanup_unfold (maxBackups : Z) (m : Machine) :
  cleanupAndCompressOldBackups std_sort maxBackups m
  = rotate (if maxBackups <=? 0 then 20 else maxBackups) 0 (backups_newest_first std_sort m) 0
      (after_listing m).
Proof.
  destruct (listing_unfold m) as (Hrun & Hsame & ->).
  unfold cleanupAndCompressOldBackups. cbv zeta. unfold bind at 1. rewrite Hrun.
  unfold bind at 1. rewrite pairWithTime_returns. cbn [app].
  now rewrite (times_of_same m (after_listing m)).
Qed.

(** The rotation returns: the loop never throws on the paths of the
    listing. *)
Lemma cleanup_returns (maxBackups : Z) (m : Machine) :
  exists deleted m',
    cleanupAndCompressOldBackups std_sort maxBackups m = (Returns deleted, m') /\
    files (world m')
    = rotate_files (undeletable (world m)) (xz_failing (world m))
        (if maxBackups <=? 0 then 20 else maxBackups) 0
        (backups_newest_first std_sort m) (files (world m)) /\
    deleted = rotate_count (undeletable (world m))
                (if maxBackups <=? 0 then 20 else maxBackups) 0 (backups_newest_first std_sort m) /\
    originalFilePath (self m') = originalFilePath (self m).
Proof using std_sort_perm.
  rewrite cleanup_unfold.
  destruct (listing_unfold m) as (_ & (Hf & _ & HU & HX & _ & _ & _ & Ho & _) & _).
  destruct (backups_newest_first_entries m) as [_ Hentries].
  destruct (rotate_returns (if maxBackups <=? 0 then 20 else maxBackups)
              (backups_newest_first std_sort m) 0 0 (after_listing m)) as (m' & Hrun & HF & _ & _ & Ho').
  { apply List.Forall_forall. intros [p t] Hin. apply Hentries in Hin. simpl. lia. }
  exists (0 + rotate_count (undeletable (world (after_listing m)))
                (if maxBackups <=? 0 then 20 else maxBackups) 0 (backups_newest_first std_sort m)), m'.
  rewrite HF, HU, HX, Hf in *. repeat split; try assumption; try lia. congruence.
Qed.

(** Twenty-five backups under a cap of twenty: ten kept, ten compressed,
    the rest removed. *)
Lemma rotate_three_phases (U X : gset (list ascii)) (k c d : list (list ascii * Z))
  (F : gmap (list ascii) file) :
  length k = 10%nat -> length c = 10%nat -> Z.of_nat (length d) < two64 - 20 ->
  Forall (fun e => 3 <= size (fst e) < two64) c ->
  rotate_files U X 20 0 (k ++ c ++ d) F
  = remove_all U (map fst d) (compress_all X (map fst c) F) /\
  rotate_count U 20 0 (k ++ c ++ d) = Z.of_nat (length (removable U (map fst d))).
Proof.
  intros Hk Hc Hd Hpaths.
  assert (H64 : two64 = 18446744073709551616) by reflexivity.
  destruct (rotate_files_app U X 20 k (c ++ d) 0 F ltac:(lia) ltac:(lia)) as [HF1 Hc1].
  destruct (rotate_files_keep U X 20 k 0 F ltac:(lia) ltac:(lia) ltac:(lia)) as [HF2 Hc2].
  rewrite HF1, Hc1, HF2, Hc2, Hk. change (0 + Z.of_nat 10) with 10.
  destruct (rotate_files_app U X 20 c d 10 F ltac:(lia) ltac:(lia)) as [HF3 Hc3].
  destruct (rotate_files_compress U X 20 c 10 F ltac:(lia) ltac:(lia) ltac:(lia) Hpaths)
    as [HF4 Hc4].
  rewrite HF3, Hc3, HF4, Hc4, Hc. change (10 + Z.of_nat 10) with 20.
  destruct (rotate_files_remove U X 20 d 20 (compress_all X (map fst c) F)
              ltac:(lia) ltac:(lia)) as [HF5 Hc5].
  rewrite HF5, Hc5. split; [reflexivity | lia].
Qed.

Lemma removable_count (U : gset (list ascii)) (l : list (list ascii * Z)) :
  Z.of_nat (length (removable U (map fst l)))
  = Z.of_nat (length l)
    - Z.of_nat (length (List.filter (fun e => bool_decide (fst e ∈ U)) l)).
Proof.
  unfold removable. induction l as [|[p t] l IH]; [reflexivity|].
  cbn [map fst List.filter]. destruct (bool_decide (p ∈ U)); cbn [negb length]; lia.
Qed.

(** C2, as the code has it: with exactly 25 backups in newest-first order
    and a cap of 20, the rotation returns; the entries at positions 0-9 are
    left as they were; an entry at positions 10-19 that has the compressed
    suffix is left as it was, one that lacks it is replaced by its compressed
    form when the compression tool succeeds on it and is left as it was when
    the tool fails; an entry at positions 20-24 is removed unless its removal
    fails, and is then left as it was; the count returned is 5 minus the
    number of entries whose removal failed. *)
Theorem rotation_of_25_backups (m : Machine)
  (Hpaths : map_Forall (fun p _ => size p < npos) (files (world m)))
  (H25 : length (backups_newest_first std_sort m) = 25%nat) :
  exists deleted m',
    cleanupAndCompressOldBackups std_sort 20 m = (Returns deleted, m') /\
    (forall (i : nat) (p : list ascii) (t : Z),
       backups_newest_first std_sort m !! i = Some (p, t) ->
       exists f, files (world m) !! p = Some f /\
         if (i <? 10)%nat then files (world m') !! p = Some f
         else if (i <? 20)%nat then
           if xz.has_xz_suffix p then files (world m') !! p = Some f
           else if compressible (xz_failing (world m)) (files (world m)) p then
             files (world m') !! p = None /\
             files (world m') !! (p ++ lit ".xz") = Some (mkFile (mtime f) (Xz (content f)))
           else files (world m') !! p = Some f
         else
           if bool_decide (p ∈ undeletable (world m)) then files (world m') !! p = Some f
           else files (world m') !! p = None) /\
    deleted
    = 5 - Z.of_nat (length (List.filter
                              (fun e => bool_decide (fst e ∈ undeletable (world m)))
                              (skipn 20 (backups_newest_first std_sort m)))).
Proof using std_sort_perm.
  destruct (cleanup_returns 20 m) as (deleted & m' & Hrun & HF & Hcount & _).
  change (if 20 <=? 0 then 20 else 20) with 20 in *.
  destruct (backups_newest_first_entries m) as [Hnd Hentries].
  set (bs := backups_newest_first std_sort m) in *.
  set (U := undeletable (world m)) in *. set (X := xz_failing (world m)) in *.
  set (F := files (world m)) in *.
  set (k := firstn 10 bs). set (c := firstn 10 (skipn 10 bs)). set (d := skipn 20 bs).
  assert (Hbs : bs = k ++ c ++ d).
  { unfold k, c, d. rewrite <- (firstn_skipn 10 bs) at 1. f_equal.
    rewrite <- (firstn_skipn 10 (skipn 10 bs)) at 1. f_equal. now rewrite skipn_skipn. }
  assert (Hk : length k = 10%nat) by (unfold k; rewrite length_firstn; lia).
  assert (Hc : length c = 10%nat) by (unfold c; rewrite length_firstn, length_skipn; lia).
  assert (Hd : length d = 5%nat) by (unfold d; rewrite length_skipn; lia).
  assert (Hsizes : forall p t, In (p, t) bs -> 3 <= size p < two64).
  { intros p t Hin. destruct (Hentries p t Hin) as (_ & _ & H4 & f & Hf & _).
    apply Hpaths in Hf. rewrite npos_value in Hf. rewrite two64_value. lia. }
  destruct (rotate_three_phases U X k c d F Hk Hc) as [Hfiles Hn].
  { rewrite Hd, two64_value. lia. }
  { apply List.Forall_forall. intros [p t] Hin. apply (Hsizes p t).
    rewrite Hbs. apply in_or_app. right. apply in_or_app. now left. }
  rewrite <- Hbs in Hfiles, Hn. rewrite Hfiles in HF. rewrite Hn in Hcount.
  (* the paths of the three parts are apart *)
  rewrite Hbs, !map_app in Hnd.
  pose proof (NoDup_app_remove_l _ _ Hnd) as Hnd_cd.
  assert (Hk_c : forall p, In p (map fst k) -> ~ In p (map fst c)).
  { intros p H1 H2. apply NoDup_ListNoDup, NoDup_app in Hnd. destruct Hnd as (_ & Hdis & _).
    apply (Hdis p); [now apply list_elem_of_In|].
    apply list_elem_of_In, in_or_app. now left. }
  assert (Hk_d : forall p, In p (map fst k) -> ~ In p (map fst d)).
  { intros p H1 H2. apply NoDup_ListNoDup, NoDup_app in Hnd. destruct Hnd as (_ & Hdis & _).
    apply (Hdis p); [now apply list_elem_of_In|].
    apply list_elem_of_In, in_or_app. now right. }
  assert (Hc_d : forall p, In p (map fst c) -> ~ In p (map fst d)).
  { intros p H1 H2. apply NoDup_ListNoDup, NoDup_app in Hnd_cd.
    destruct Hnd_cd as (_ & Hdis & _).
    apply (Hdis p); now apply list_elem_of_In. }
  assert (Hnd_c : List.NoDup (map fst c)) by (now apply NoDup_app_remove_r in Hnd_cd).
  exists deleted, m'. split; [assumption|]. split.
  - intros i p t Hi.
    assert (Hin : In (p, t) bs) by (apply list_elem_of_In; eapply list_elem_of_lookup_2; eassumption).
    destruct (Hentries p t Hin) as (_ & _ & _ & f & Hf & _).
    exists f. split; [assumption|]. rewrite HF.
    destruct (i <? 10)%nat eqn:E10.
    + (* one of the ten newest *)
      apply Nat.ltb_lt in E10.
      assert (Hpk : In p (map fst k)).
      { apply in_map_iff. exists (p, t). split; [reflexivity|].
        apply list_elem_of_In. eapply list_elem_of_lookup_2.
        unfold k. rewrite lookup_take_lt; eassumption. }
      rewrite remove_all_kept by (left; now apply Hk_d).
      apply compress_all_keeps; [assumption|]. intros H. now apply Hk_c in H.
    + apply Nat.ltb_ge in E10. destruct (i <? 20)%nat eqn:E20.
      * (* one of the ten to compress *)
        apply Nat.ltb_lt in E20.
        assert (Hpc : In p (map fst c)).
        { apply in_map_iff. exists (p, t). split; [reflexivity|].
          apply list_elem_of_In. apply (list_elem_of_lookup_2 _ (i - 10)).
          unfold c. rewrite lookup_take_lt by lia. rewrite lookup_drop.
          now replace (10 + (i - 10))%nat with i by lia. }
        pose proof (compress_all_entry X (map fst c) p f F Hnd_c Hpc Hf) as Hentry.
        assert (Hpd : ~ In p (map fst d)) by (now apply Hc_d).
        destruct (xz.has_xz_suffix p) eqn:Es.
        -- assert (Hcomp : compressible X F p = false).
           { unfold compressible. rewrite Es. cbn [negb]. now rewrite andb_false_r. }
           rewrite Hcomp in Hentry. rewrite remove_all_kept by (now left). assumption.
        -- destruct (compressible X F p) eqn:Ecomp.
           ++ destruct Hentry as [Hgone Hmade]. split.
              ** now apply remove_all_absent.
              ** rewrite remove_all_kept; [assumption|]. left. intros Hin'.
                 apply in_map_iff in Hin'. destruct Hin' as ([q t'] & Hq & Hin').
                 simpl in Hq. subst q.
                 assert (Hbs' : In (p ++ lit ".xz", t') bs).
                 { rewrite Hbs. apply in_or_app. right. apply in_or_app. now right. }
                 destruct (Hentries _ _ Hbs') as (_ & _ & _ & g & Hg & _).
                 unfold compressible in Ecomp. apply andb_true_iff in Ecomp.
                 destruct Ecomp as [_ Ecomp]. apply bool_decide_eq_true in Ecomp.
                 fold F in Hg. congruence.
           ++ rewrite remove_all_kept by (now left). assumption.
      * (* one of those past the cap *)
        apply Nat.ltb_ge in E20.
        assert (Hpd : In p (map fst d)).
        { apply in_map_iff. exists (p, t). split; [reflexivity|].
          apply list_elem_of_In. apply (list_elem_of_lookup_2 _ (i - 20)).
          unfold d. rewrite lookup_drop. now replace (20 + (i - 20))%nat with i by lia. }
        assert (Hpc : ~ In p (map fst c)) by (intros H; now apply (Hc_d p)).
        destruct (bool_decide (p ∈ U)) eqn:EU.
        -- apply bool_decide_eq_true in EU. rewrite remove_all_kept by (now right).
           apply compress_all_keeps; [assumption | tauto].
        -- apply bool_decide_eq_false in EU. now apply remove_all_gone.
  - rewrite Hcount, removable_count, Hd. reflexivity.
Qed.

(** *** Restoring *)

Lemma is_Some_decide {A : Type} (o : option A) :
  bool_decide (is_Some o) = match o with Some _ => true | None => false end.
Proof. now destruct o. Qed.

Lemma suffix_test (path : list ascii) :
  3 <= size path < two64 ->
  last3 path = Returns (skipn (length path - 3) path) /\
  Str.eqb (skipn (length path - 3) path) (lit ".xz") = xz.has_xz_suffix path.
Proof.
  intros H. split; [now apply last3_value|].
  pose proof (is_raw_suffix path H) as Hraw. unfold is_raw in Hraw.
  rewrite last3_value in Hraw by assumption.
  destruct (Str.eqb _ _), (xz.has_xz_suffix path); simpl in Hraw; congruence.
Qed.

Lemma last3_short (path : list ascii) :
  size path < 3 -> exists what, last3 path = Throws what.
Proof.
  intros H. unfold last3, substr. pose proof (size_nonneg path) as H0.
  assert (Hw : wsub (size path) 3 = size path - 3 + two64).
  { unfold wsub. rewrite <- (Z.mod_add _ 1) by (rewrite two64_value; lia).
    rewrite Z.mul_1_l. apply Z.mod_small. rewrite two64_value. lia. }
  rewrite Hw. destruct (size path <? size path - 3 + two64) eqn:E; [eauto|].
  apply Z.ltb_ge in E. rewrite two64_value in E. lia.
Qed.

(** What [restoreFromBackup] does with a backup that has no ".xz" suffix. *)
Lemma restoreFromBackup_raw_run (path : list ascii) (m : Machine) :
  3 <= size path < two64 -> xz.has_xz_suffix path = false ->
  restoreFromBackup path m
  = match files (world m) !! path, dirs (world m) !! path, copy_failure (world m) with
    | None, None, _ =>
        if bool_decide (path ∈ status_unreadable (world m)) then
          (Throws (lit "filesystem error: cannot get file status"), m)
        else (Returns false, with_lastError m (lit "Backup file does not exist: " ++ path))
    | _, _, Some what =>
        (Returns false, with_lastError m (lit "Failed to restore from backup: " ++ what))
    | None, Some _, None =>
        (Returns false,
         with_lastError m (lit "Failed to restore from backup: " ++
                           lit "filesystem error: cannot copy file"))
    | Some f, _, None => (Returns true, restored_with m (files (world m)) (content f))
    end.
Proof.
  intros Hsz Hraw. destruct (suffix_test path Hsz) as [Hl3 Heq].
  unfold restoreFromBackup. mrun. rewrite Hl3. mrun. rewrite Heq, Hraw. mrun.
  rewrite !is_Some_decide.
  destruct (files (world m) !! path) as [f|] eqn:Ef;
    destruct (dirs (world m) !! path) as [d|] eqn:Ed;
    cbn [orb negb]; mrun;
    try (destruct (bool_decide (path ∈ status_unreadable (world m))); mrun; reflexivity);
    destruct (copy_failure (world m)); mrun; rewrite ?Ef; reflexivity.
Qed.

Lemma xz_suffix_strip (q : list ascii) :
  firstn (length (q ++ lit ".xz") - 3) (q ++ lit ".xz") = q /\
  size (q ++ lit ".xz") = size q + 3.
Proof.
  split.
  - rewrite length_app. change (length (lit ".xz")) with 3%nat.
    replace (length q + 3 - 3)%nat with (length q) by lia. apply take_app_length.
  - now rewrite size_app.
Qed.

(** A path with the suffix is what precedes the suffix, and the suffix. *)
Lemma has_xz_suffix_split (path : list ascii) :
  xz.has_xz_suffix path = true -> exists q, path = q ++ lit ".xz".
Proof.
  unfold xz.has_xz_suffix. intros H.
  assert (Hpre : forall pat s, starts_with pat s = true -> exists t, s = pat ++ t).
  { induction pat as [|a pat IH]; intros [|c t] Hs; cbn [starts_with] in Hs;
      try discriminate; [now exists [] | now exists (c :: t) |].
    apply andb_true_iff in Hs. destruct Hs as [Hc Hs]. apply Ascii.eqb_eq in Hc. subst c.
    destruct (IH _ Hs) as (t' & ->). now exists t'. }
  destruct (Hpre _ _ H) as (t & Ht). exists (rev t).
  apply (f_equal (@rev ascii)) in Ht. rewrite rev_involutive, rev_app_distr in Ht.
  now rewrite rev_involutive in Ht.
Qed.

(** What [restoreFromBackup] does with a backup that has the suffix. *)
Lemma restoreFromBackup_xz_run (q : list ascii) (m : Machine) :
  size (q ++ lit ".xz") < two64 ->
  restoreFromBackup (q ++ lit ".xz") m
  = if bool_decide (q ++ lit ".xz" ∈ xz_failing (world m)) then
      (Returns false, with_lastError m (lit "Failed to decompress backup: " ++ q ++ lit ".xz"))
    else match files (world m) !! (q ++ lit ".xz") with
         | Some (mkFile t (Xz inner)) =>
             let unpacked := <[q := mkFile t inner]> (files (world m)) in
             match copy_failure (world m) with
             | Some what =>
                 (Returns false,
                  with_lastError {| world := set_files (world m) unpacked; self := self m |}
                    (lit "Failed to restore from backup: " ++ what))
             | None => (Returns true, restored_with m unpacked inner)
             end
         | _ =>
             (Returns false,
              with_lastError m (lit "Failed to decompress backup: " ++ q ++ lit ".xz"))
         end.
Proof.
  intros Hsz. destruct (xz_suffix_strip q) as [Hstrip Hsize].
  pose proof (size_nonneg q) as Hq0.
  destruct (suffix_test (q ++ lit ".xz") ltac:(lia)) as [Hl3 Heq].
  unfold restoreFromBackup. mrun. rewrite Hl3. mrun.
  rewrite Heq, has_xz_suffix_app. mrun.
  rewrite wsub_small by lia.
  rewrite substr_in_range by lia. mrun.
  rewrite system_decompress. unfold xz.decompress. mrun.
  destruct (bool_decide (q ++ lit ".xz" ∈ xz_failing (world m))); mstatus; [reflexivity|].
  rewrite has_xz_suffix_app. cbn [negb]. mstatus.
  destruct (files (world m) !! (q ++ lit ".xz")) as [[t [bytes|inner]]|]; mstatus;
    try reflexivity.
  rewrite Hstrip.
  replace (Z.to_nat (size (q ++ lit ".xz") - 3)) with (length q) by (unfold size in *; lia).
  change (drop (Z.to_nat 0) (q ++ lit ".xz")) with (q ++ lit ".xz").
  rewrite take_app_length.
  rewrite !is_Some_decide, lookup_insert_eq.
  cbn [orb negb]. mrun.
  destruct (copy_failure (world m)); mrun; [reflexivity|].
  rewrite lookup_insert_eq. mrun. reflexivity.
Qed.

(** [restoreFromBackup] returns on a path of three characters or more on
    which [exists] does not throw, and when it returns [false] the last
    error is one of its own messages. *)
Lemma restoreFromBackup_returns (path : list ascii) (m : Machine) :
  3 <= size path < two64 ->
  xz.has_xz_suffix path = true \/ status_throws (world m) path = false ->
  exists restored m',
    restoreFromBackup path m = (Returns restored, m') /\
    (restored = false -> lastError (self m') <> lit "No backup found").
Proof.
  intros Hp Hst. destruct (xz.has_xz_suffix path) eqn:Esuffix.
  - destruct (has_xz_suffix_split path Esuffix) as (q & ->).
    rewrite restoreFromBackup_xz_run by lia.
    destruct (bool_decide (q ++ lit ".xz" ∈ xz_failing (world m)));
      [eexists _, _; split; [reflexivity | discriminate]|].
    destruct (files (world m) !! (q ++ lit ".xz")) as [[t [bytes|inner]]|];
      try (eexists _, _; split; [reflexivity | discriminate]).
    cbv zeta. destruct (copy_failure (world m));
      eexists _, _; (split; [reflexivity | discriminate]).
  - rewrite restoreFromBackup_raw_run by assumption.
    destruct Hst as [Hst|Hst]; [discriminate|].
    unfold status_throws, present in Hst.
    destruct (files (world m) !! path) as [f|]; destruct (dirs (world m) !! path) as [d|];
      cbn [negb andb] in Hst; try rewrite Hst;
      destruct (copy_failure (world m));
      eexists _, _; (split; [reflexivity | discriminate]).
Qed.

Lemma std_sort_nil : std_sort [] = [].
Proof using std_sort_perm. apply Permutation_nil. symmetry. apply std_sort_perm. Qed.

Lemma std_sort_not_nil (l : list (list ascii * Z)) : l <> [] -> std_sort l <> [].
Proof using std_sort_perm.
  intros Hl Hs. apply Hl. apply Permutation_nil. rewrite <- Hs. apply std_sort_perm.
Qed.

(** [getLastBackupPath] answers the first path of the order, or nothing. *)
Lemma getLastBackupPath_returns (m : Machine) :
  getLastBackupPath std_sort m
  = (Returns match backups_newest_first std_sort m with
             | [] => []
             | (p, _) :: _ => p
             end,
     after_listing m).
Proof using std_sort_perm.
  destruct (listing_unfold m) as (Hrun & Hsame & Hbs). rewrite Hbs.
  unfold getLastBackupPath. unfold bind at 1. rewrite Hrun.
  destruct (bool_decide (backup_entries m = [])) eqn:Eb.
  - apply bool_decide_eq_true in Eb. rewrite Eb. cbn [times_of flat_map].
    now rewrite std_sort_nil.
  - unfold bind at 1. rewrite pairWithTime_returns. cbn [app].
    rewrite (times_of_same m (after_listing m)) by assumption.
    destruct (bool_decide (times_of (world m) (backup_entries m) = [])) eqn:Et.
    + apply bool_decide_eq_true in Et. rewrite Et. now rewrite std_sort_nil.
    + apply bool_decide_eq_false in Et. apply std_sort_not_nil in Et.
      unfold ret. destruct (std_sort (times_of (world m) (backup_entries m))) as [|[p t] rest];
        [congruence | reflexivity].
Qed.

Lemma restoreFromLastBackup_unfold (m : Machine) :
  restoreFromLastBackup std_sort m
  = match backups_newest_first std_sort m with
    | [] => (Returns false, with_lastError (after_listing m) (lit "No backup found"))
    | (p, _) :: _ =>
        if Str.eqb p [] then
          (Returns false, with_lastError (after_listing m) (lit "No backup found"))
        else restoreFromBackup p (after_listing m)
    end.
Proof using std_sort_perm.
  unfold restoreFromLastBackup. unfold bind at 1. rewrite getLastBackupPath_returns.
  destruct (backups_newest_first std_sort m) as [|[p t] rest]; [reflexivity|].
  now destruct (Str.eqb p []).
Qed.

(** C8, as the code has it: the entries [listBackups] gives are regular
    files; [restoreFromLastBackup] returns [false] with the error "No backup
    found" exactly when none of them has a modification time that can be
    read; otherwise it picks one of those, of the newest modification time
    among them, and returns what [restoreFromBackup] returns for it, which
    is then no "No backup found". *)
Theorem restoreFromLastBackup_outcome (m : Machine)
  (Hpaths : map_Forall (fun p _ => size p < npos) (files (world m))) :
  let readable p := In p (backup_entries m) /\ p ∉ time_unreadable (world m) in
  (forall p, In p (backup_entries m) -> is_Some (files (world m) !! p)) /\
  ((exists m', restoreFromLastBackup std_sort m = (Returns false, m') /\
               lastError (self m') = lit "No backup found")
   <-> forall p, ~ readable p) /\
  ((forall p, ~ readable p) ->
   restoreFromLastBackup std_sort m
   = (Returns false, with_lastError (after_listing m) (lit "No backup found"))) /\
  ((exists p, readable p) ->
   exists p f,
     readable p /\ files (world m) !! p = Some f /\
     (forall q g, readable q -> files (world m) !! q = Some g -> mtime g <= mtime f) /\
     restoreFromLastBackup std_sort m = restoreFromBackup p (after_listing m) /\
     exists restored m',
       restoreFromBackup p (after_listing m) = (Returns restored, m') /\
       (restored = false -> lastError (self m') <> lit "No backup found")).
Proof using std_sort_perm std_sort_sorted.
  cbv zeta. rewrite restoreFromLastBackup_unfold.
  destruct (backups_newest_first_entries m) as [_ Hentries].
  destruct (listing_unfold m) as (Hlist & Hsame & Hbs).
  pose proof (std_sort_sorted (times_of (world m) (backup_entries m))) as Hsorted.
  pose proof (std_sort_perm (times_of (world m) (backup_entries m))) as Hperm.
  rewrite <- Hbs in Hsorted, Hperm.
  assert (Hfiles : forall p, In p (backup_entries m) -> is_Some (files (world m) !! p)).
  { destruct (listBackups_returns m) as (backups & m1 & Hrun' & _ & _ & Hf).
    rewrite Hlist in Hrun'. injection Hrun' as <- _. intros p Hp. now apply Hf. }
  assert (Hcomplete : forall q g, In q (backup_entries m) -> q ∉ time_unreadable (world m) ->
                                  files (world m) !! q = Some g ->
                                  In (q, mtime g) (backups_newest_first std_sort m)).
  { intros q g Hq Hqr Hg. apply (Permutation_in _ (Permutation_sym Hperm)).
    now apply times_of_complete. }
  split; [exact Hfiles|].
  destruct (backups_newest_first std_sort m) as [|[p t] rest] eqn:Ebs.
  - assert (Hnone : forall p, ~ (In p (backup_entries m) /\ p ∉ time_unreadable (world m))).
    { intros p [Hin Hr]. destruct (Hfiles p Hin) as [f Hf].
      destruct (Hcomplete p f Hin Hr Hf). }
    split; [split; [intros _; exact Hnone | intros _; eexists; split; reflexivity]|].
    split; [intros _; reflexivity|]. intros (p & Hp). now destruct (Hnone p).
  - destruct (Hentries p t ltac:(now left)) as (Hin & Hread & Hsize & f & Hf & Ht).
    assert (Hne : Str.eqb p [] = false).
    { apply bool_decide_eq_false_2. intros ->. change (size []) with 0 in Hsize. lia. }
    rewrite Hne.
    pose proof (map_Forall_lookup_1 _ _ _ _ Hpaths Hf) as Hshort. cbn beta in Hshort.
    assert (Hst : status_throws (world (after_listing m)) p = false).
    { unfold status_throws, present. destruct Hsame as (Hf' & _). now rewrite Hf', Hf. }
    destruct (restoreFromBackup_returns p (after_listing m)
                ltac:(rewrite npos_value in Hshort; rewrite two64_value; lia)
                (or_intror Hst))
      as (restored & m' & Hrun & Herr).
    split; [split|].
    + intros (m'' & Hrun' & Herr'). rewrite Hrun in Hrun'. injection Hrun' as -> <-.
      now apply Herr in Herr'.
    + intros Hnone. exfalso. apply (Hnone p). now split.
    + split; [intros Hnone; exfalso; apply (Hnone p); now split|].
      intros _. exists p, f. split; [now split|]. split; [assumption|]. split.
      * intros q g [Hq Hqr] Hg. rewrite Ht.
        destruct (Hcomplete q g Hq Hqr Hg) as [[= -> <-]|Hqin]; [lia|].
        apply StronglySorted_inv in Hsorted. destruct Hsorted as [_ Hall].
        rewrite List.Forall_forall in Hall. apply (Hall _ Hqin).
      * split; [reflexivity|]. eauto.
Qed.

(** *** Creating a backup *)

Lemma two_digits_shape (v : Z) :
  length (two_digits v) = 2%nat /\ Forall Spec.is_digit (two_digits v).
Proof.
  split; [reflexivity|]. unfold two_digits, Spec.is_digit.
  assert (H1 : 0 <= v / 10 mod 10 < 10) by (apply Z.mod_pos_bound; lia).
  assert (H2 : 0 <= v mod 10 < 10) by (apply Z.mod_pos_bound; lia).
  apply List.Forall_cons; [|apply List.Forall_cons; [|apply List.Forall_nil]];
    rewrite nat_ascii_embedding; lia.
Qed.

Lemma years_printed_ok :
  forallb year_printed_ok (seq (Z.to_nat 1000) (Z.to_nat 9000)) = true.
Proof. vm_compute. reflexivity. Qed.

Lemma year_in_range_ok (y : nat) :
  1000 <= Z.of_nat y <= 9999 -> year_printed_ok y = true.
Proof.
  intros Hy. pose proof years_printed_ok as Hall.
  rewrite forallb_forall in Hall. apply Hall. apply in_seq. lia.
Qed.

Lemma decimal_year_shape (y : Z) :
  1000 <= y <= 9999 ->
  length (decimal y) = 4%nat /\ Forall Spec.is_digit (decimal y).
Proof.
  intros Hy. pose proof (year_in_range_ok (Z.to_nat y) ltac:(lia)) as Hok.
  unfold year_printed_ok in Hok. rewrite Z2Nat.id in Hok by lia.
  apply andb_true_iff in Hok. destruct Hok as [Hlen Hdig].
  apply Nat.eqb_eq in Hlen. split; [assumption|].
  apply List.Forall_forall. intros c Hc. rewrite forallb_forall in Hdig.
  specialize (Hdig c Hc). unfold is_digit_b in Hdig. apply andb_true_iff in Hdig.
  destruct Hdig as [H1 H2]. apply Nat.leb_le in H1, H2. unfold Spec.is_digit. lia.
Qed.

Lemma put_time_shape (t : tm) :
  1000 <= 1900 + tm_year t <= 9999 -> timestamp_shape (put_time t).
Proof.
  intros Hy. destruct (decimal_year_shape _ Hy) as [Hlen Hdig].
  pose proof (two_digits_shape (tm_mon t + 1)) as [Hl1 Hd1].
  pose proof (two_digits_shape (tm_mday t)) as [Hl2 Hd2].
  pose proof (two_digits_shape (tm_hour t)) as [Hl3 Hd3].
  pose proof (two_digits_shape (tm_min t)) as [Hl4 Hd4].
  pose proof (two_digits_shape (tm_sec t)) as [Hl5 Hd5].
  unfold put_time.
  generalize dependent (decimal (1900 + tm_year t)).
  generalize dependent (two_digits (tm_mon t + 1)).
  generalize dependent (two_digits (tm_mday t)).
  generalize dependent (two_digits (tm_hour t)).
  generalize dependent (two_digits (tm_min t)).
  generalize dependent (two_digits (tm_sec t)).
  intros ss Hss Hds mm Hmm Hdm hh Hhh Hdh dd Hdd Hdd' mo Hmo Hdmo yy Hyy Hdy.
  exists (yy ++ mo ++ dd), (hh ++ mm ++ ss).
  split; [now rewrite <- !app_assoc|].
  split; [rewrite !length_app; lia|].
  split; [rewrite !length_app; lia|].
  split.
  - apply List.Forall_app. split; [assumption|]. apply List.Forall_app. now split.
  - apply List.Forall_app. split; [assumption|]. apply List.Forall_app. now split.
Qed.

Lemma join_not_empty (a b : list ascii) : b <> [] -> fs.join a b <> [].
Proof.
  intros Hb. unfold fs.join. destruct (starts_with (lit "/") b); [assumption|].
  destruct (rev a) as [|c r] eqn:Er; [assumption|].
  assert (a <> []) by (intros ->; discriminate).
  destruct a as [|x a]; [congruence|]. destruct (Ascii.eqb c "/"); discriminate.
Qed.

(** What [createBackup] does, case by case. On a tracked path that is no
    entry and whose status cannot be read, [fs::exists] throws and nothing
    catches it. Otherwise [createBackup] returns the empty string with the
    reason in the last-error slot when the tracked file does not exist and
    when the copy fails, and else the path of the copy it made, named after
    the tracked file with ".bak" and a YYYYMMDD_HHMMSS time stamp, in the
    directory [getBackupDirectory] resolves, after the rotation with a cap of
    20 has run on the machine holding the copy. *)
Lemma createBackup_outcome (m : Machine)
  (Hyear : 1000 <= 1900 + tm_year (localtime (world m)) <= 9999) :
  let original := originalFilePath (self m) in
  let timestamp := put_time (localtime (world m)) in
  timestamp_shape timestamp /\
  match files (world m) !! original, dirs (world m) !! original with
  | None, None =>
      if bool_decide (original ∈ status_unreadable (world m)) then
        createBackup std_sort m
        = (Throws (lit "filesystem error: cannot get file status"), m)
      else
        createBackup std_sort m
        = (Returns [], with_lastError m (lit "Original file does not exist: " ++ original))
  | tracked, _ =>
      exists backupDir m1,
        getBackupDirectory m = (Returns backupDir, m1) /\
        let backupPath := fs.join backupDir (fs.filename original ++ lit ".bak" ++ timestamp) in
        match copy_failure (world m), tracked with
        | Some what, _ =>
            createBackup std_sort m
            = (Returns [], with_lastError m1 (lit "Failed to create backup: " ++ what))
        | None, None =>
            createBackup std_sort m
            = (Returns [],
               with_lastError m1
                 (lit "Failed to create backup: " ++ lit "filesystem error: cannot copy file"))
        | None, Some f =>
            let copied :=
              {| world := set_files (world m1)
                            (<[backupPath := mkFile (now (world m)) (content f)]>
                               (files (world m)));
                 self := self m1 |} in
            exists deleted m2,
              cleanupAndCompressOldBackups std_sort 20 copied = (Returns deleted, m2) /\
              createBackup std_sort m = (Returns backupPath, m2) /\
              backupPath <> []
        end
  end.
Proof using std_sort_perm.
  cbv zeta. split; [now apply put_time_shape|].
  destruct (getBackupDirectory_returns m) as (dir & m1 & Hdir & Hsame).
  destruct Hsame as (Hf & _ & _ & _ & Hcf & Hnow & Hlt & Ho & Hsu).
  assert (Hrun : forall present : bool,
             present = bool_decide (is_Some (files (world m) !! originalFilePath (self m)))
                       || bool_decide (is_Some (dirs (world m) !! originalFilePath (self m))) ->
             present = true ->
             exists backupDir m1',
               getBackupDirectory m = (Returns backupDir, m1') /\
               match copy_failure (world m), files (world m) !! originalFilePath (self m) with
               | Some what, _ =>
                   createBackup std_sort m
                   = (Returns [], with_lastError m1' (lit "Failed to create backup: " ++ what))
               | None, None =>
                   createBackup std_sort m
                   = (Returns [],
                      with_lastError m1'
                        (lit "Failed to create backup: "
                         ++ lit "filesystem error: cannot copy file"))
               | None, Some f =>
                   exists deleted m2,
                     cleanupAndCompressOldBackups std_sort 20
                       {| world := set_files (world m1')
                                     (<[fs.join backupDir
                                          (fs.filename (originalFilePath (self m)) ++ lit ".bak"
                                           ++ put_time (localtime (world m))) :=
                                          mkFile (now (world m)) (content f)]>
                                        (files (world m)));
                          self := self m1' |} = (Returns deleted, m2) /\
                     createBackup std_sort m
                     = (Returns (fs.join backupDir
                                   (fs.filename (originalFilePath (self m)) ++ lit ".bak"
                                    ++ put_time (localtime (world m)))), m2) /\
                     fs.join backupDir
                       (fs.filename (originalFilePath (self m)) ++ lit ".bak"
                        ++ put_time (localtime (world m))) <> []
               end).
  { intros present Hpresent Htrue. exists dir, m1. split; [assumption|].
    unfold createBackup. mrun. rewrite <- Hpresent, Htrue. cbn [negb]. mrun.
    rewrite Hdir. unfold generateTimestamp. mrun. rewrite Hcf, Hlt, Hf, Hnow.
    destruct (copy_failure (world m)) as [what|]; mrun; [reflexivity|].
    destruct (files (world m) !! originalFilePath (self m)) as [f|]; mrun; [|reflexivity].
    match goal with
    | |- context [cleanupAndCompressOldBackups std_sort 20 ?m2] =>
        destruct (cleanup_returns 20 m2) as (deleted & m3 & Hclean & _)
    end.
    exists deleted, m3. rewrite Hclean. split; [reflexivity|]. split; [reflexivity|].
    apply join_not_empty. destruct (fs.filename (originalFilePath (self m))); discriminate. }
  destruct (files (world m) !! originalFilePath (self m)) as [f|] eqn:Efile.
  - apply (Hrun true); [|reflexivity].
    rewrite bool_decide_eq_true_2 by eauto. reflexivity.
  - destruct (dirs (world m) !! originalFilePath (self m)) as [mode|] eqn:Edir.
    + apply (Hrun true); [|reflexivity].
      rewrite (bool_decide_eq_true_2 (is_Some (Some mode))) by eauto.
      symmetry. apply orb_true_r.
    + unfold createBackup. mrun. rewrite Efile, Edir.
      cbn [orb].
      destruct (bool_decide (originalFilePath (self m) ∈ status_unreadable (world m)));
        mrun; reflexivity.
Qed.

End Lifecycle.

Section SampleFacts.
Import Str Sys BackupManager Effects Sample.

Lemma insert_newest_perm (e : list ascii * Z) (l : list (list ascii * Z)) :
  Permutation (insert_newest e l) (e :: l).
Proof.
  induction l as [|x l IH]; simpl; [reflexivity|].
  destruct (snd x <? snd e); [reflexivity|].
  rewrite IH. apply perm_swap.
Qed.

Lemma sort_newest_perm (l : list (list ascii * Z)) : Permutation (sort_newest l) l.
Proof.
  induction l as [|e l IH]; simpl; [reflexivity|].
  rewrite insert_newest_perm. now apply perm_skip.
Qed.

Lemma insert_newest_sorted (e : list ascii * Z) (l : list (list ascii * Z)) :
  StronglySorted (fun a b => snd b <= snd a) l ->
  StronglySorted (fun a b => snd b <= snd a) (insert_newest e l).
Proof.
  induction 1 as [|x l Hl IH Hx]; simpl.
  - constructor; constructor.
  - destruct (snd x <? snd e) eqn:E.
    + apply Z.ltb_lt in E. constructor; [constructor; assumption|].
      constructor; [lia|]. eapply List.Forall_impl; [|exact Hx]. simpl. intros a Ha. lia.
    + apply Z.ltb_ge in E. constructor; [assumption|].
      eapply Permutation_Forall; [symmetry; apply insert_newest_perm|].
      constructor; assumption.
Qed.

Lemma sort_newest_sorted (l : list (list ascii * Z)) :
  StronglySorted (fun a b => snd b <= snd a) (sort_newest l).
Proof.
  induction l as [|e l IH]; simpl; [constructor|]. now apply insert_newest_sorted.
Qed.

End SampleFacts.

Section SampleRuns.
Import Str Sys BackupManager Effects Sample BackupSpec.

Lemma short_paths_by_computation (F : gmap (list ascii) file) :
  forallb (fun pf => size (fst pf) <? npos) (map_to_list F) = true ->
  map_Forall (fun p _ => size p < npos) F.
Proof.
  intros H. apply map_Forall_to_list. apply List.Forall_forall. intros [p f] Hin.
  rewrite forallb_forall in H. specialize (H _ Hin). now apply Z.ltb_lt in H.
Qed.

Lemma machine25_paths :
  map_Forall (fun p _ => size p < npos) (files (world machine25)).
Proof. apply short_paths_by_computation. vm_compute. reflexivity. Qed.

Lemma rotation_of_25_backups_witness :
  exists deleted m',
    cleanupAndCompressOldBackups sort_newest 20 machine25 = (Returns deleted, m') /\
    (forall (i : nat) (p : list ascii) (t : Z),
       backups_newest_first sort_newest machine25 !! i = Some (p, t) ->
       exists f, files (world machine25) !! p = Some f /\
         if (i <? 10)%nat then files (world m') !! p = Some f
         else if (i <? 20)%nat then
           if xz.has_xz_suffix p then files (world m') !! p = Some f
           else if compressible (xz_failing (world machine25)) (files (world machine25)) p then
             files (world m') !! p = None /\
             files (world m') !! (p ++ lit ".xz") = Some (mkFile (mtime f) (Xz (content f)))
           else files (world m') !! p = Some f
         else
           if bool_decide (p ∈ undeletable (world machine25))
           then files (world m') !! p = Some f
           else files (world m') !! p = None) /\
    deleted
    = 5 - Z.of_nat (length (List.filter
                              (fun e => bool_decide (fst e ∈ undeletable (world machine25)))
                              (skipn 20 (backups_newest_first sort_newest machine25)))).
Proof.
  apply (rotation_of_25_backups sort_newest sort_newest_perm machine25).
  - apply machine25_paths.
  - vm_compute. reflexivity.
Defined.

(** C2, as stated, fails when the compression tool fails: of 25 raw
    backups with [xz] failing on the one at position 12, that one is neither
    compressed nor was it compressed before. *)
Lemma rotation_rule_fails_when_xz_fails :
  ~ rotation_rule sort_newest machine25_xz_fails.
Proof.
  intros H. destruct H as (deleted & m' & Hrun & Hentries & _); [vm_compute; reflexivity|].
  assert (Hm' : m' = snd (cleanupAndCompressOldBackups sort_newest 20 machine25_xz_fails))
    by (now rewrite Hrun).
  specialize (Hentries 12%nat (bak 13) 1013 ltac:(vm_compute; reflexivity)).
  cbn [Nat.ltb Nat.leb] in Hentries.
  assert (Hraw : xz.has_xz_suffix (bak 13) = false) by (vm_compute; reflexivity).
  assert (Hthere :
            files (world (snd (cleanupAndCompressOldBackups sort_newest 20 machine25_xz_fails)))
              !! bak 13
            = Some (mkFile 1013 (Plain (lit "alias ll='ls'"))))
    by (vm_compute; reflexivity).
  rewrite <- Hm' in Hthere.
  destruct Hentries as [H|[H _]]; congruence.
Qed.

Lemma restoreFromLastBackup_outcome_witness :
  let readable p :=
    In p (backup_entries machine25) /\ p ∉ time_unreadable (world machine25) in
  (forall p, In p (backup_entries machine25) -> is_Some (files (world machine25) !! p)) /\
  ((exists m', restoreFromLastBackup sort_newest machine25 = (Returns false, m') /\
               lastError (self m') = lit "No backup found")
   <-> forall p, ~ readable p) /\
  ((forall p, ~ readable p) ->
   restoreFromLastBackup sort_newest machine25
   = (Returns false, with_lastError (after_listing machine25) (lit "No backup found"))) /\
  ((exists p, readable p) ->
   exists p f,
     readable p /\ files (world machine25) !! p = Some f /\
     (forall q g, readable q -> files (world machine25) !! q = Some g -> mtime g <= mtime f) /\
     restoreFromLastBackup sort_newest machine25 = restoreFromBackup p (after_listing machine25) /\
     exists restored m',
       restoreFromBackup p (after_listing machine25) = (Returns restored, m') /\
       (restored = false -> lastError (self m') <> lit "No backup found")).
Proof.
  apply (restoreFromLastBackup_outcome sort_newest sort_newest_perm sort_newest_sorted
           machine25 machine25_paths).
Defined.

(** C8, as stated, fails when the modification time of the only backup
    cannot be read: a backup entry exists, and the call returns [false] with
    "No backup found". *)
Lemma no_backup_rule_fails_when_time_unreadable :
  ~ no_backup_rule sort_newest machine1_unreadable.
Proof.
  intros [Hfwd _].
  assert (Hentries : backup_entries machine1_unreadable = [bak 1])
    by (vm_compute; reflexivity).
  assert (Hnone : backup_entries machine1_unreadable = []).
  { apply Hfwd.
    assert (Hfst : fst (restoreFromLastBackup sort_newest machine1_unreadable) = Returns false)
      by (vm_compute; reflexivity).
    assert (Herr : lastError (self (snd (restoreFromLastBackup sort_newest machine1_unreadable)))
                   = lit "No backup found")
      by (vm_compute; reflexivity).
    destruct (restoreFromLastBackup sort_newest machine1_unreadable) as [o m'].
    cbn [fst snd] in Hfst, Herr. subst o. exists m'. split; [reflexivity | assumption]. }
  congruence.
Qed.

Lemma createBackup_outcome_witness :
  timestamp_shape (put_time (localtime (world machine25))) /\
  match files (world machine25) !! originalFilePath (self machine25),
        dirs (world machine25) !! originalFilePath (self machine25) with
  | None, None =>
      if bool_decide (originalFilePath (self machine25) ∈ status_unreadable (world machine25))
      then
        createBackup sort_newest machine25
        = (Throws (lit "filesystem error: cannot get file status"), machine25)
      else
        createBackup sort_newest machine25
        = (Returns [],
           with_lastError machine25
             (lit "Original file does not exist: " ++ originalFilePath (self machine25)))
  | tracked, _ =>
      exists backupDir m1,
        getBackupDirectory machine25 = (Returns backupDir, m1) /\
        match copy_failure (world machine25), tracked with
        | Some what, _ =>
            createBackup sort_newest machine25
            = (Returns [], with_lastError m1 (lit "Failed to create backup: " ++ what))
        | None, None =>
            createBackup sort_newest machine25
            = (Returns [],
               with_lastError m1
                 (lit "Failed to create backup: " ++ lit "filesystem error: cannot copy file"))
        | None, Some f =>
            exists deleted m2,
              cleanupAndCompressOldBackups sort_newest 20
                {| world := set_files (world m1)
                              (<[fs.join backupDir
                                   (fs.filename (originalFilePath (self machine25))
                                    ++ lit ".bak" ++ put_time (localtime (world machine25))) :=
                                   mkFile (now (world machine25)) (content f)]>
                                 (files (world machine25)));
                   self := self m1 |} = (Returns deleted, m2) /\
              createBackup sort_newest machine25
              = (Returns (fs.join backupDir
                            (fs.filename (originalFilePath (self machine25))
                             ++ lit ".bak" ++ put_time (localtime (world machine25)))), m2) /\
              fs.join backupDir
                (fs.filename (originalFilePath (self machine25))
                 ++ lit ".bak" ++ put_time (localtime (world machine25))) <> []
        end
  end.
Proof.
  apply (createBackup_outcome sort_newest sort_newest_perm machine25).
  change (1000 <= 1900 + 124 <= 9999). lia.
Defined.

(** C7 fails on the code: the tracked file [long_name] does not exist, and
    [createBackup] neither returns the empty string nor records a reason;
    the exception of [fs::exists], which is called before the try block,
    leaves the function. *)
Theorem createBackup_throws_on_long_name :
  files (world machine_long_name) !! originalFilePath (self machine_long_name) = None /\
  dirs (world machine_long_name) !! originalFilePath (self machine_long_name) = None /\
  createBackup sort_newest machine_long_name
  = (Throws (lit "filesystem error: cannot get file status"), machine_long_name).
Proof. repeat split; vm_compute; reflexivity. Qed.

(** The sample run of [createBackup]: the path it returns. *)
Example createBackup_sample :
  fst (createBackup sort_newest machine25)
  = Returns (lit "/home/u/.shellbackup/.bashrc.bak20240215_143025").
Proof. vm_compute. reflexivity. Qed.

End SampleRuns.

(** * Further properties of the code *)

(** ** The parser on every line *)

Section ParserTotal.
Import Str AliasManager Spec CodecAux.

Lemma substr_returns (s : list ascii) (pos n : Z) :
  pos <= size s -> exists r, substr s pos n = Returns r.
Proof.
  intros H. unfold substr.
  destruct (size s <? pos) eqn:E; [apply Z.ltb_lt in E; lia|]. eauto.
Qed.

Lemma find_first_not_of_range (s : list ascii) :
  find_first_not_of s (lit " " ++ [tab]) = npos \/
  0 <= find_first_not_of s (lit " " ++ [tab]) < size s.
Proof.
  unfold find_first_not_of.
  destruct (find_if _ s) as [i|] eqn:E; [right | now left].
  apply find_if_Some in E. destruct E as (l1 & c & l2 & -> & <- & _).
  unfold size. rewrite length_app. simpl length. lia.
Qed.

(** Reading the command never throws and leaves the name as it is. *)
Lemma parse_command_returns (result : Alias) (rest : list ascii) :
  size rest < npos ->
  exists r, parse_command result rest = Returns r /\ name r = name result.
Proof.
  intros Hsz. unfold parse_command. cbv zeta.
  destruct (find_first_not_of_range rest) as [H|H].
  - rewrite H, Z.eqb_refl. eauto.
  - set (cs := find_first_not_of rest (lit " " ++ [tab])) in *.
    destruct (cs =? npos); [eauto|].
    rewrite npos_value in Hsz.
    rewrite (wadd_small cs 1) by (rewrite two64_value; lia).
    destruct (Ascii.eqb (at_ rest cs) squote || Ascii.eqb (at_ rest cs) dquote).
    + destruct (negb (find rest (at_ rest cs) (cs + 1) =? npos)).
      * destruct (substr_returns rest (cs + 1)
                    (wsub (wsub (find rest (at_ rest cs) (cs + 1)) cs) 1) ltac:(lia)) as [x ->].
        cbn [obind]. eauto.
      * destruct (substr_returns rest (cs + 1) npos ltac:(lia)) as [x ->].
        cbn [obind]. eauto.
    + destruct (substr_returns rest cs (wsub (find rest "#" cs) cs) ltac:(lia)) as [x ->].
      cbn [obind]. eauto.
Qed.

(** A line whose first five characters past the blanks are not the keyword
    gives the empty record. *)
Lemma parseAliasLine_not_alias (line : list ascii) :
  size line < npos -> firstn 5 (skip_hws line) <> lit "alias" ->
  parseAliasLine line = Returns Alias_default.
Proof.
  intros Hsz Hkw. unfold parseAliasLine. cbv zeta.
  destruct (skip_hws_split line) as (a & Ha & Hs & Hhead).
  destruct (skip_hws line) as [|c d] eqn:Et.
  - rewrite app_nil_r in Hs. subst a.
    rewrite find_first_not_of_blank by assumption. now rewrite Z.eqb_refl.
  - assert (Hff : find_first_not_of line (lit " " ++ [tab]) = size a).
    { rewrite Hs. now apply find_first_not_of_at. }
    rewrite Hff.
    assert (Hlt : size a < size line).
    { rewrite Hs, size_app, size_cons. pose proof (size_nonneg d). lia. }
    pose proof (size_nonneg a) as Ha0.
    destruct (size a =? npos) eqn:E; [apply Z.eqb_eq in E; lia|].
    rewrite substr_in_range; [|lia|lia].
    unfold size at 1. rewrite Nat2Z.id. rewrite Hs at 1. rewrite drop_app_length.
    cbn [obind]. unfold Str.eqb at 1. now rewrite bool_decide_eq_false_2.
Qed.

(** The three shapes a line can have for the parser. *)
Lemma parseAliasLine_cases (line : list ascii) :
  size line < npos ->
  (firstn 5 (skip_hws line) <> lit "alias" /\ parseAliasLine line = Returns Alias_default) \/
  (exists lead rest,
     line = lead ++ lit "alias" ++ rest /\ blank lead /\ ~ In "="%char rest /\
     firstn 5 (skip_hws line) = lit "alias" /\
     parseAliasLine line = Returns Alias_default) \/
  (exists lead n rest,
     line = lead ++ lit "alias" ++ n ++ "="%char :: rest /\ blank lead /\ ~ In "="%char n /\
     firstn 5 (skip_hws line) = lit "alias" /\
     parseAliasLine line
     = match trim_hws n with
       | [] => Returns Alias_default
       | nm => parse_command (set_name Alias_default nm) rest
       end).
Proof.
  intros Hsz.
  destruct (decide (firstn 5 (skip_hws line) = lit "alias")) as [Hkw|Hkw].
  2: { left. split; [assumption | now apply parseAliasLine_not_alias]. }
  right.
  destruct (skip_hws_split line) as (lead & Hlead & Hs & _).
  assert (Hrest : skip_hws line = lit "alias" ++ skipn 5 (skip_hws line)).
  { rewrite <- Hkw. symmetry. apply firstn_skipn. }
  set (rest := skipn 5 (skip_hws line)) in *.
  rewrite Hrest in Hs.
  destruct (in_dec ascii_dec "="%char rest) as [Hin|Hnot].
  - right. destruct (first_occurrence _ _ Hin) as (n & rest' & Hr & Hn).
    exists lead, n, rest'. rewrite Hr in Hs.
    repeat split; try assumption.
    rewrite Hs at 1. apply parseAliasLine_shape; try assumption. now rewrite <- Hs.
  - left. exists lead, rest. repeat split; try assumption.
    rewrite Hs at 1. apply parseAliasLine_no_equals; try assumption. now rewrite <- Hs.
Qed.

Lemma size_after_equals (lead n rest : list ascii) :
  size (lead ++ lit "alias" ++ n ++ "="%char :: rest) < npos -> size rest < npos.
Proof.
  rewrite !size_app, size_cons.
  pose proof (size_nonneg lead). pose proof (size_nonneg n).
  pose proof (size_nonneg (lit "alias")). lia.
Qed.

(** X1: [parseAliasLine] returns a record on every line; no call of
    [substr] in it is ever out of range. *)
Theorem parseAliasLine_never_throws (line : list ascii) (Hsz : size line < npos) :
  exists r, parseAliasLine line = Returns r.
Proof.
  destruct (parseAliasLine_cases line Hsz)
    as [[_ H]|[(lead & rest & _ & _ & _ & _ & H)|(lead & n & rest & Hl & _ & _ & _ & H)]];
    rewrite H; eauto.
  destruct (trim_hws n) as [|c nm]; [eauto|].
  rewrite Hl in Hsz. apply size_after_equals in Hsz.
  destruct (parse_command_returns (set_name Alias_default (c :: nm)) rest Hsz) as (r & Hr & _).
  eauto.
Qed.

Lemma parseAliasLine_never_throws_witness :
  exists r, parseAliasLine (lit "alias x='unclosed") = Returns r.
Proof.
  apply (parseAliasLine_never_throws (lit "alias x='unclosed")). vm_compute. reflexivity.
Defined.

(** X2: a line that [isAliasLine] refuses parses to the empty record, and a
    line that parses to a record with a name is one [isAliasLine] accepts. *)
Theorem parseAliasLine_agrees_with_isAliasLine (line : list ascii)
  (Hsz : size line < npos) :
  (isAliasLine line = Returns false -> parseAliasLine line = Returns Alias_default) /\
  (forall r, parseAliasLine line = Returns r -> name r <> [] ->
             isAliasLine line = Returns true).
Proof.
  rewrite (isAliasLine_decides line Hsz). split.
  - intros [= H]. apply bool_decide_eq_false in H. now apply parseAliasLine_not_alias.
  - intros r Hr Hname. f_equal. apply bool_decide_eq_true.
    destruct (decide (firstn 5 (skip_hws line) = lit "alias")) as [Hkw|Hkw];
      [assumption|].
    rewrite (parseAliasLine_not_alias line Hsz Hkw) in Hr. injection Hr as <-.
    now contradiction Hname.
Qed.

Lemma parseAliasLine_agrees_with_isAliasLine_witness :
  (isAliasLine (lit "export A=1") = Returns false ->
   parseAliasLine (lit "export A=1") = Returns Alias_default) /\
  (forall r, parseAliasLine (lit "export A=1") = Returns r -> name r <> [] ->
             isAliasLine (lit "export A=1") = Returns true).
Proof.
  apply (parseAliasLine_agrees_with_isAliasLine (lit "export A=1")). vm_compute. reflexivity.
Defined.

Lemma trim_hws_sub (c : ascii) (s : list ascii) : In c (trim_hws s) -> In c s.
Proof.
  intros Hin.
  destruct (trim_hws_split s) as [[_ Ht]|(a & z & _ & _ & _ & _ & Hs & _)].
  - rewrite Ht in Hin. destruct Hin.
  - rewrite Hs. apply in_or_app. right. apply in_or_app. now left.
Qed.

Lemma trim_hws_ends (s : list ascii) :
  match trim_hws s with
  | [] => True
  | c :: m => hws c = false /\ hws (List.last (c :: m) c) = false
  end.
Proof.
  destruct (trim_hws_split s) as [[_ Ht]|(a & z & c & e & _ & _ & _ & Hc & He & [m1 Hm1] & [m2 Hm2])].
  - now rewrite Ht.
  - rewrite Hm1. split; [assumption|]. rewrite <- Hm1, Hm2. now rewrite last_last.
Qed.

(** X3: the name of a parsed record holds no equals sign and neither begins
    nor ends with a space or a tab. *)
Theorem parsed_name_is_trimmed (line : list ascii) (r : Alias)
  (Hsz : size line < npos) (Hparse : parseAliasLine line = Returns r) :
  ~ In "="%char (name r) /\
  match name r with
  | [] => True
  | c :: m => hws c = false /\ hws (List.last (c :: m) c) = false
  end.
Proof.
  destruct (parseAliasLine_cases line Hsz)
    as [[_ H]|[(lead & rest & _ & _ & _ & _ & H)|(lead & n & rest & Hl & _ & Hn & _ & H)]];
    rewrite H in Hparse.
  1, 2: injection Hparse as <-; split; [intros [] | exact I].
  pose proof (trim_hws_ends n) as Hends.
  assert (Hsub : ~ In "="%char (trim_hws n)) by (intros Hin; now apply trim_hws_sub in Hin).
  destruct (trim_hws n) as [|c nm] eqn:Et.
  - injection Hparse as <-. split; [intros [] | exact I].
  - apply parse_command_name in Hparse. cbn [name set_name] in Hparse. rewrite Hparse.
    split; assumption.
Qed.

Lemma parsed_name_is_trimmed_witness :
  ~ In "="%char (name (set_command (set_name Alias_default (lit "ll")) (lit "ls -la"))) /\
  match name (set_command (set_name Alias_default (lit "ll")) (lit "ls -la")) with
  | [] => True
  | c :: m => hws c = false /\ hws (List.last (c :: m) c) = false
  end.
Proof.
  apply (parsed_name_is_trimmed (lit "  alias   ll  = 'ls -la'")); vm_compute; reflexivity.
Defined.

End ParserTotal.

(** ** Quoted commands, and when a formatted line parses back *)

Section QuotedCommands.
Import Str AliasManager Spec CodecAux.

Lemma at_app_here (a : list ascii) (c : ascii) (d : list ascii) :
  at_ (a ++ c :: d) (size a) = c.
Proof. unfold at_, size. rewrite Nat2Z.id. apply nth_middle. Qed.

Lemma quote_not_blank (q : ascii) : q = squote \/ q = dquote -> hws q = false.
Proof. intros [-> | ->]; reflexivity. Qed.

Lemma quote_test (q : ascii) :
  q = squote \/ q = dquote -> Ascii.eqb q squote || Ascii.eqb q dquote = true.
Proof. intros [-> | ->]; reflexivity. Qed.

(** A quoted command, behind blanks and before anything: the parser reads
    up to the first closing quote, whatever precedes that quote. *)
Lemma parse_command_quoted_tail (result : Alias) (ws : list ascii) (q : ascii)
  (body tail : list ascii) :
  blank ws -> q = squote \/ q = dquote -> ~ In q body ->
  size (ws ++ q :: body ++ q :: tail) < npos ->
  parse_command result (ws ++ q :: body ++ q :: tail)
  = Returns (set_command result (unescapeString body)).
Proof.
  intros Hws Hq Hbody Hsz. unfold parse_command. cbv zeta.
  pose proof (size_nonneg body) as Hb0. pose proof (size_nonneg ws) as Hw0.
  pose proof (size_nonneg tail) as Ht0.
  rewrite !size_app, !size_cons, size_app, size_cons, npos_value in Hsz.
  rewrite find_first_not_of_at by (try apply quote_not_blank; assumption).
  destruct (size ws =? npos) eqn:E; [apply Z.eqb_eq in E; rewrite npos_value in E; lia|clear E].
  rewrite at_app_here, (quote_test q Hq).
  rewrite (wadd_small _ 1) by (rewrite two64_value; lia).
  assert (Hend : find (ws ++ q :: body ++ q :: tail) q (size ws + 1) = size ws + 1 + size body).
  { change (ws ++ q :: body ++ q :: tail) with (ws ++ [q] ++ body ++ q :: tail).
    rewrite app_assoc.
    replace (size ws + 1) with (size (ws ++ [q])) by (now rewrite size_app).
    now apply find_hit. }
  rewrite Hend.
  destruct (size ws + 1 + size body =? npos) eqn:E;
    [apply Z.eqb_eq in E; rewrite npos_value in E; lia|clear E].
  simpl negb. cbv iota.
  rewrite (wsub_small _ (size ws)) by (rewrite two64_value; lia).
  rewrite (wsub_small _ 1) by (rewrite two64_value; lia).
  replace (size ws + 1 + size body - size ws - 1) with (size body) by lia.
  assert (Hsub : substr (ws ++ q :: body ++ q :: tail) (size ws + 1) (size body) = Returns body).
  { change (ws ++ q :: body ++ q :: tail) with (ws ++ [q] ++ body ++ q :: tail).
    rewrite app_assoc.
    replace (size ws + 1) with (size (ws ++ [q])) by (now rewrite size_app).
    apply substr_app. repeat (rewrite size_app || rewrite size_cons).
    rewrite npos_value. change (size []) with 0. lia. }
  rewrite Hsub. reflexivity.
Qed.

(** A quote that is never closed: the parser takes all that follows it. *)
Lemma parse_command_unclosed (result : Alias) (ws : list ascii) (q : ascii)
  (body : list ascii) :
  blank ws -> q = squote \/ q = dquote -> ~ In q body ->
  size (ws ++ q :: body) < npos ->
  parse_command result (ws ++ q :: body)
  = Returns (set_command result (unescapeString body)).
Proof.
  intros Hws Hq Hbody Hsz. unfold parse_command. cbv zeta.
  pose proof (size_nonneg body) as Hb0. pose proof (size_nonneg ws) as Hw0.
  rewrite !size_app, !size_cons, npos_value in Hsz.
  rewrite find_first_not_of_at by (try apply quote_not_blank; assumption).
  destruct (size ws =? npos) eqn:E; [apply Z.eqb_eq in E; rewrite npos_value in E; lia|clear E].
  rewrite at_app_here, (quote_test q Hq).
  rewrite (wadd_small _ 1) by (rewrite two64_value; lia).
  assert (Hend : find (ws ++ q :: body) q (size ws + 1) = npos).
  { change (ws ++ q :: body) with (ws ++ [q] ++ body). rewrite app_assoc.
    replace (size ws + 1) with (size (ws ++ [q])) by (now rewrite size_app).
    now apply find_miss. }
  rewrite Hend, Z.eqb_refl. simpl negb. cbv iota.
  assert (Hsub : substr (ws ++ q :: body) (size ws + 1) npos = Returns body).
  { change (ws ++ q :: body) with (ws ++ [q] ++ body). rewrite app_assoc.
    replace (size ws + 1) with (size (ws ++ [q])) by (now rewrite size_app).
    apply substr_to_end. rewrite npos_value. lia. }
  rewrite Hsub. reflexivity.
Qed.

Lemma escapeCommand_app (a b : list ascii) :
  escapeCommand (a ++ b) = escapeCommand a ++ escapeCommand b.
Proof. rewrite !escapeCommand_flat_map. apply flat_map_app. Qed.

Lemma escapeCommand_quote (q : ascii) (c : list ascii) :
  q = squote \/ q = dquote ->
  escapeCommand (q :: c) = backslash :: q :: escapeCommand c.
Proof.
  intros Hq. rewrite !escapeCommand_flat_map. cbn [flat_map]. unfold escape_char at 1.
  now destruct Hq as [-> | ->].
Qed.

(** A backslash with nothing behind it is kept. *)
Lemma unescape_escaped_then_backslash (c : list ascii) :
  unescapeString (escapeCommand c ++ [backslash]) = c ++ [backslash].
Proof.
  unfold unescapeString.
  rewrite escapeCommand_flat_map, fold_left_app, unescape_loop_escaped. reflexivity.
Qed.

(** The line of a POSIX formatter for a command that holds the outer quote:
    the parser stops at the first one, which the escaping has put behind a
    backslash. *)
Lemma parse_posix_line_cut (n c1 c2 : list ascii) (q : ascii) :
  conforming_name n -> validateCommand (c1 ++ q :: c2) = true ->
  q = squote \/ q = dquote -> ~ In q c1 ->
  parseAliasLine (lit "alias " ++ n ++ lit "=" ++ [q] ++ escapeCommand (c1 ++ q :: c2) ++ [q])
  = Returns (alias_of n (c1 ++ [backslash])).
Proof.
  intros Hn Hc Hq Hfree.
  destruct (trim_space_name n Hn) as [Htrim Hnoeq].
  pose proof (validateCommand_size _ Hc) as Hcs.
  pose proof (escape_length (c1 ++ q :: c2)) as Hel.
  destruct Hn as [Hns _].
  assert (Hesc : size (escapeCommand (c1 ++ q :: c2)) <= 4096) by (unfold size in *; lia).
  assert (Hline : lit "alias " ++ n ++ lit "=" ++ [q] ++ escapeCommand (c1 ++ q :: c2) ++ [q]
                  = [] ++ lit "alias" ++ (" "%char :: n) ++
                    "="%char :: ([] ++ q :: (escapeCommand c1 ++ [backslash]) ++
                                   q :: (escapeCommand c2 ++ [q]))).
  { rewrite escapeCommand_app, (escapeCommand_quote q c2 Hq).
    cbn [app lit list_ascii_of_string]. rewrite <- !app_assoc. reflexivity. }
  assert (Hsize : size (lit "alias " ++ n ++ lit "=" ++ [q] ++
                        escapeCommand (c1 ++ q :: c2) ++ [q]) < npos).
  { repeat (rewrite size_app || rewrite size_cons). rewrite npos_value.
    change (size (lit "alias ")) with 6. change (size (lit "=")) with 1.
    change (size []) with 0. pose proof (size_nonneg (escapeCommand (c1 ++ q :: c2))). lia. }
  rewrite Hline in *.
  rewrite parseAliasLine_shape; [|constructor|assumption|assumption].
  rewrite Htrim. destruct n as [|x m] eqn:En; [change (size []) with 0 in Hns; lia|].
  rewrite <- En. rewrite parse_command_quoted_tail.
  - now rewrite unescape_escaped_then_backslash.
  - constructor.
  - assumption.
  - intros Hin. apply in_app_or in Hin. destruct Hin as [Hin|[Hin|[]]].
    + revert Hin. apply escape_keeps_free; [destruct Hq; subst q; discriminate | assumption].
    + destruct Hq; subst q; discriminate.
  - revert Hsize. repeat (rewrite size_app || rewrite size_cons).
    change (size (lit "alias")) with 5. change (size []) with 0.
    pose proof (size_nonneg m). pose proof (size_nonneg (escapeCommand c1)).
    pose proof (size_nonneg (escapeCommand c2)). lia.
Qed.

(** X4: for a valid record, the line the BASH or ZSH formatter writes
    parses back to the record exactly when the command does not hold both a
    single and a double quote; the line written for the UNKNOWN dialect
    parses back exactly when the command holds no single quote. *)
Theorem roundtrip_exactly (self : AliasManager.t) (r : Alias)
  (Hname : validateAliasName (name r) = true)
  (Hcommand : validateCommand (command r) = true) :
  (currentShell self = ShellDetector.BASH \/ currentShell self = ShellDetector.ZSH ->
   (roundtrips self r <-> ~ (has_squote (command r) /\ In dquote (command r)))) /\
  (currentShell self = ShellDetector.UNKNOWN ->
   (roundtrips self r <-> ~ has_squote (command r))).
Proof.
  pose proof (formatAlias_valid self r Hname Hcommand) as Hfmt.
  pose proof (find_squote_iff (command r) Hcommand) as Hsq.
  apply validateAliasName_spec in Hname.
  assert (Hback : forall q, q = squote \/ q = dquote -> ~ In q (command r) ->
            formatAlias self r
            = lit "alias " ++ name r ++ lit "=" ++ [q] ++ escapeCommand (command r) ++ [q] ->
            roundtrips self r).
  { intros q Hq Hfree Hline. exists (alias_of (name r) (command r)).
    split; [|split; reflexivity]. rewrite Hline. now apply parse_posix_line. }
  assert (Hcut : forall q, q = squote \/ q = dquote -> In q (command r) ->
            formatAlias self r
            = lit "alias " ++ name r ++ lit "=" ++ [q] ++ escapeCommand (command r) ++ [q] ->
            ~ roundtrips self r).
  { intros q Hq Hin Hline (r' & Hparse & _ & Hcmd).
    destruct (first_occurrence _ _ Hin) as (c1 & c2 & Hc & Hc1).
    rewrite Hline, Hc in Hparse.
    rewrite parse_posix_line_cut in Hparse; try assumption; [|now rewrite <- Hc].
    injection Hparse as <-. cbn [command alias_of set_command] in Hcmd.
    rewrite Hc in Hcmd. apply app_inv_head in Hcmd. injection Hcmd as Hq' _.
    destruct Hq; subst q; discriminate. }
  split.
  - intros Hshell.
    assert (Hline : formatAlias self r
                    = if negb (find (command r) squote 0 =? npos)
                      then lit "alias " ++ name r ++ lit "=" ++ [dquote] ++
                           escapeCommand (command r) ++ [dquote]
                      else lit "alias " ++ name r ++ lit "='" ++
                           escapeCommand (command r) ++ lit "'").
    { rewrite Hfmt. now destruct Hshell as [-> | ->]. }
    destruct (negb (find (command r) squote 0 =? npos)) eqn:E.
    + assert (Hs : has_squote (command r)) by now apply Hsq.
      split.
      * intros Hrt [_ Hd]. revert Hrt. apply (Hcut dquote); auto.
      * intros Hnot. apply (Hback dquote); auto.
    + assert (Hs : ~ has_squote (command r)).
      { intros H. apply Hsq in H. congruence. }
      split; [tauto|]. intros _. apply (Hback squote); auto.
  - intros Hshell.
    assert (Hline : formatAlias self r
                    = lit "alias " ++ name r ++ lit "=" ++ [squote] ++
                      escapeCommand (command r) ++ [squote]).
    { rewrite Hfmt, Hshell. reflexivity. }
    split.
    + intros Hrt Hs. revert Hrt. apply (Hcut squote); auto.
    + intros Hs. apply (Hback squote); auto.
Qed.

Lemma roundtrip_exactly_witness :
  let self := AliasManager.mk ShellDetector.BASH in
  let r := alias_of (lit "say") (lit "echo 'a" ++ [dquote] ++ lit "b'") in
  (currentShell self = ShellDetector.BASH \/ currentShell self = ShellDetector.ZSH ->
   (roundtrips self r <-> ~ (has_squote (command r) /\ In dquote (command r)))) /\
  (currentShell self = ShellDetector.UNKNOWN ->
   (roundtrips self r <-> ~ has_squote (command r))).
Proof.
  intros self r. apply (roundtrip_exactly self r); vm_compute; reflexivity.
Defined.

End QuotedCommands.

(** ** Escaping, unescaping and the quote extractor *)

Section EscapingMore.
Import Str AliasManager Spec CodecAux.

(** X5: [escapeCommand] is injective: two commands are escaped to the same
    text only when they are the same command. *)
Theorem escapeCommand_injective (a b : list ascii) :
  escapeCommand a = escapeCommand b <-> a = b.
Proof.
  split; [|now intros ->].
  intros H. apply (f_equal unescapeString) in H. unfold unescapeString in H.
  now rewrite !escapeCommand_flat_map, !unescape_loop_escaped in H.
Qed.

Lemma escape_char_length (c : ascii) :
  (1 <= length (escape_char c) <= 2)%nat.
Proof. unfold escape_char. destruct (needs_escape c); simpl; lia. Qed.

(** X6: [escapeCommand] works character by character: the escaping of a
    concatenation is the concatenation of the escapings, and the result has
    at least as many characters as the command and at most twice as many
    (what [reserve] asks for). *)
Theorem escapeCommand_characterwise (a b : list ascii) :
  escapeCommand (a ++ b) = escapeCommand a ++ escapeCommand b /\
  size a <= size (escapeCommand a) <= 2 * size a.
Proof.
  split; [apply escapeCommand_app|].
  unfold size. rewrite escapeCommand_flat_map.
  induction a as [|c a IH]; [simpl; lia|].
  cbn [flat_map]. rewrite length_app. pose proof (escape_char_length c). simpl length. lia.
Qed.

Lemma unescape_loop_length (s : list ascii) :
  forall (acc : list ascii) (pending : bool),
    let '(unescaped, prevBackslash) := fold_left unescape_step s (acc, pending) in
    (length unescaped + (if prevBackslash then 1 else 0)
     <= length acc + (if pending then 1 else 0) + length s)%nat.
Proof.
  induction s as [|c s IH]; intros acc pending; [simpl; lia|].
  cbn [fold_left]. unfold unescape_step at 2.
  destruct pending.
  - specialize (IH (acc ++ [c]) false).
    destruct (fold_left unescape_step s (acc ++ [c], false)) as [u p].
    rewrite length_app in IH. simpl length in *. lia.
  - destruct (Ascii.eqb c backslash).
    + specialize (IH acc true).
      destruct (fold_left unescape_step s (acc, true)) as [u p]. simpl length. lia.
    + specialize (IH (acc ++ [c]) false).
      destruct (fold_left unescape_step s (acc ++ [c], false)) as [u p].
      rewrite length_app in IH. simpl length in *. lia.
Qed.

Lemma unescape_loop_plain (s : list ascii) :
  ~ In backslash s ->
  forall acc, fold_left unescape_step s (acc, false) = (acc ++ s, false).
Proof.
  induction s as [|c s IH]; intros Hfree acc; [now rewrite app_nil_r|].
  cbn [fold_left unescape_step].
  destruct (Ascii.eqb_spec c backslash) as [->|_]; [exfalso; apply Hfree; now left|].
  rewrite IH by (intros H; apply Hfree; now right).
  now rewrite <- app_assoc.
Qed.

(** X7: [unescapeString] never lengthens a string, and leaves a string
    without backslashes as it is. *)
Theorem unescapeString_no_longer (s : list ascii) :
  size (unescapeString s) <= size s /\
  (~ In backslash s -> unescapeString s = s).
Proof.
  split.
  - unfold unescapeString, size. pose proof (unescape_loop_length s [] false) as H.
    destruct (fold_left unescape_step s ([], false)) as [u p].
    destruct p; [rewrite length_app|]; simpl length in *; lia.
  - intros Hfree. unfold unescapeString. now rewrite unescape_loop_plain.
Qed.

(** X8: [extractQuotedString] never throws; past the end of the string it
    gives the empty string; at an opening quote it gives what stands between
    that quote and the next one of its kind, or all that follows when the
    quote is never closed. *)
Theorem extractQuotedString_outcome (str : list ascii) (start : Z)
  (Hstart : 0 <= start) (Hsz : size str < npos) :
  (exists r, extractQuotedString str start = Returns r) /\
  (size str <= start -> extractQuotedString str start = Returns []) /\
  (forall pre q body tail,
     q = squote \/ q = dquote -> ~ In q body -> start = size pre ->
     str = pre ++ q :: body ++ q :: tail \/ str = pre ++ q :: body ->
     extractQuotedString str start = Returns body).
Proof.
  rewrite npos_value in Hsz.
  split; [|split].
  - unfold extractQuotedString.
    destruct (size str <=? start) eqn:E; [eauto|]. apply Z.leb_gt in E.
    destruct (negb (Ascii.eqb (at_ str start) squote) && negb (Ascii.eqb (at_ str start) dquote));
      [eauto|].
    rewrite (wadd_small start 1) by (rewrite two64_value; lia).
    destruct (find str (at_ str start) (start + 1) =? npos);
      apply substr_returns; lia.
  - intros H. unfold extractQuotedString. apply Z.leb_le in H. now rewrite H.
  - intros pre q body tail Hq Hbody -> Hstr.
    pose proof (size_nonneg pre) as Hp0. pose proof (size_nonneg body) as Hb0.
    unfold extractQuotedString.
    assert (Hat : at_ str (size pre) = q) by (destruct Hstr as [-> | ->]; apply at_app_here).
    assert (Hlt : size pre < size str).
    { destruct Hstr as [-> | ->]; rewrite size_app, size_cons;
        [pose proof (size_nonneg (body ++ q :: tail)) | ]; lia. }
    apply Z.leb_gt in Hlt. rewrite Hlt, Hat. apply Z.leb_gt in Hlt.
    assert (Hquote : negb (Ascii.eqb q squote) && negb (Ascii.eqb q dquote) = false)
      by (destruct Hq as [-> | ->]; reflexivity).
    rewrite Hquote.
    rewrite (wadd_small (size pre) 1) by (rewrite two64_value; lia).
    replace (size pre + 1) with (size (pre ++ [q])) by (now rewrite size_app).
    destruct Hstr as [-> | ->].
    + change (pre ++ q :: body ++ q :: tail) with (pre ++ [q] ++ body ++ q :: tail).
      rewrite app_assoc, find_hit by assumption.
      repeat (rewrite size_app in Hsz || rewrite size_cons in Hsz).
      pose proof (size_nonneg tail) as Ht0.
      rewrite size_app. change (size [q]) with 1.
      destruct (size pre + 1 + size body =? npos) eqn:E;
        [apply Z.eqb_eq in E; rewrite npos_value in E; lia|clear E].
      rewrite (wsub_small _ (size pre)) by (rewrite two64_value; lia).
      rewrite (wsub_small _ 1) by (rewrite two64_value; lia).
      replace (size pre + 1 + size body - size pre - 1) with (size body) by lia.
      replace (size pre + 1) with (size (pre ++ [q])) by (now rewrite size_app).
      apply substr_app. repeat (rewrite size_app || rewrite size_cons).
      rewrite npos_value. change (size []) with 0. lia.
    + change (pre ++ q :: body) with (pre ++ [q] ++ body).
      rewrite app_assoc, find_miss by assumption.
      rewrite Z.eqb_refl. apply substr_to_end.
      repeat (rewrite size_app in Hsz || rewrite size_cons in Hsz). rewrite npos_value. lia.
Qed.

Lemma extractQuotedString_outcome_witness :
  (exists r, extractQuotedString (lit "ll='ls -la' # list") 3 = Returns r) /\
  (size (lit "ll='ls -la' # list") <= 3 ->
   extractQuotedString (lit "ll='ls -la' # list") 3 = Returns []) /\
  (forall pre q body tail,
     q = squote \/ q = dquote -> ~ In q body -> 3 = size pre ->
     lit "ll='ls -la' # list" = pre ++ q :: body ++ q :: tail \/
     lit "ll='ls -la' # list" = pre ++ q :: body ->
     extractQuotedString (lit "ll='ls -la' # list") 3 = Returns body).
Proof.
  apply (extractQuotedString_outcome (lit "ll='ls -la' # list") 3); [lia | vm_compute; reflexivity].
Defined.

Lemma formatAlias_size (self : AliasManager.t) (r : Alias) :
  validateAliasName (name r) = true -> validateCommand (command r) = true ->
  7 <= size (formatAlias self r) < npos /\
  exists rest, formatAlias self r = lit "alias " ++ rest.
Proof.
  intros Hn Hc. rewrite (formatAlias_valid self r Hn Hc).
  apply validateAliasName_spec in Hn. destruct Hn as [Hns _].
  pose proof (validateCommand_size _ Hc) as Hcs.
  pose proof (escape_length (command r)) as Hel.
  pose proof (size_nonneg (escapeCommand (command r))) as He0.
  assert (Hesc : size (escapeCommand (command r)) <= 4096) by (unfold size in *; lia).
  rewrite npos_value.
  destruct (currentShell self); [destruct (negb _)|destruct (negb _)|..];
    (split; [|eexists; reflexivity]);
    repeat (rewrite size_app || rewrite size_cons);
    change (size (lit "alias ")) with 6; change (size (lit "='")) with 2;
    change (size (lit " '")) with 2; change (size (lit "'")) with 1;
    change (size (lit "=")) with 1; change (size []) with 0; lia.
Qed.

(** X9: [formatAlias] gives the empty string exactly for a record whose
    name or command is not valid; the line it writes for a valid record is
    one [isAliasLine] accepts, whatever the dialect. *)
Theorem formatAlias_is_alias_line (self : AliasManager.t) (r : Alias) :
  (formatAlias self r = [] <->
   validateAliasName (name r) = false \/ validateCommand (command r) = false) /\
  (validateAliasName (name r) = true -> validateCommand (command r) = true ->
   isAliasLine (formatAlias self r) = Returns true).
Proof.
  split.
  - destruct (validateAliasName (name r)) eqn:Hn; cycle 1.
    { unfold formatAlias. rewrite Hn. split; [now left | reflexivity]. }
    destruct (validateCommand (command r)) eqn:Hc; cycle 1.
    { unfold formatAlias. rewrite Hn, Hc. split; [now right | reflexivity]. }
    destruct (formatAlias_size self r Hn Hc) as [_ [rest ->]].
    split; [discriminate | intros [H|H]; discriminate].
  - intros Hn Hc. destruct (formatAlias_size self r Hn Hc) as [[_ Hsz] [rest Hline]].
    rewrite isAliasLine_decides by assumption. rewrite Hline. reflexivity.
Qed.

End EscapingMore.

(** ** Commands without quotes *)

Section UnquotedCommands.
Import Str AliasManager Spec CodecAux.

Lemma not_quote_test (c : ascii) :
  c <> squote -> c <> dquote -> Ascii.eqb c squote || Ascii.eqb c dquote = false.
Proof.
  intros H1 H2. apply orb_false_iff. split; now apply Ascii.eqb_neq.
Qed.

Lemma resize_prefix (t z : list ascii) :
  resize (t ++ z) (size t) = t.
Proof.
  unfold resize, size. rewrite Nat2Z.id, take_app_length, length_app.
  replace (Z.to_nat (Z.of_nat (length t) - Z.of_nat (length t + length z))) with 0%nat by lia.
  apply app_nil_r.
Qed.

(** A command that does not start with a quote: the parser takes the text
    up to the first hash sign, drops the blanks at both ends and unescapes
    what is left. *)
Lemma parse_command_unquoted (result : Alias) (text tail : list ascii) :
  ~ In "#"%char text ->
  tail = [] \/ (exists comment, tail = "#"%char :: comment) ->
  match trim_hws text with
  | [] => True
  | c :: _ => c <> squote /\ c <> dquote
  end ->
  command result = [] ->
  size (text ++ tail) < npos ->
  parse_command result (text ++ tail)
  = Returns (set_command result (unescapeString (trim_hws text))).
Proof.
  intros Hhash Htail Hq Hcmd Hsz.
  pose proof (size_nonneg text) as Ht0. pose proof (size_nonneg tail) as Hl0.
  rewrite size_app, npos_value in Hsz.
  destruct (trim_hws_split text)
    as [[Hblank Htrim]|(a & z & c & e & Ha & Hz & Hsplit & Hc & He & [m1 Hm1] & [m2 Hm2])].
  - rewrite Htrim. change (unescapeString []) with (@nil ascii).
    destruct Htail as [-> | [comment ->]].
    + rewrite app_nil_r, parse_command_blank by assumption.
      destruct result; cbn in *; now subst.
    + unfold parse_command. cbv zeta.
      rewrite find_first_not_of_at by (assumption || reflexivity).
      destruct (size text =? npos) eqn:E;
        [apply Z.eqb_eq in E; rewrite npos_value in E; lia|clear E].
      rewrite at_app_here. change (Ascii.eqb "#" squote || Ascii.eqb "#" dquote) with false.
      cbv iota.
      assert (Hpos : find (text ++ "#"%char :: comment) "#" (size text) = size text).
      { change (text ++ "#"%char :: comment) with (text ++ [] ++ "#"%char :: comment).
        rewrite find_hit by (intros []). change (size []) with 0. lia. }
      rewrite Hpos, (wsub_small _ (size text)) by (rewrite two64_value; lia).
      rewrite Z.sub_diag, substr_in_range by (rewrite ?size_app; lia).
      reflexivity.
  - set (t := trim_hws text) in *.
    pose proof (size_nonneg a) as Ha0. pose proof (size_nonneg z) as Hz0.
    pose proof (size_nonneg m2) as Hm0.
    assert (Hst : size text = size a + size t + size z).
    { rewrite Hsplit at 1. rewrite !size_app. lia. }
    assert (Hsm : size t = size m2 + 1) by (rewrite Hm2, size_app; reflexivity).
    assert (Hfree : ~ In "#"%char (t ++ z)).
    { intros Hin. apply Hhash. rewrite Hsplit. apply in_or_app. now right. }
    rewrite Hm1 in Hq. destruct Hq as [Hq1 Hq2].
    unfold parse_command. cbv zeta.
    assert (Hstart : find_first_not_of (text ++ tail) (lit " " ++ [tab]) = size a).
    { rewrite Hsplit, Hm1. rewrite <- !app_assoc. cbn [app].
      now apply find_first_not_of_at. }
    rewrite Hstart.
    destruct (size a =? npos) eqn:E;
      [apply Z.eqb_eq in E; rewrite npos_value in E; lia|clear E].
    assert (Hat : at_ (text ++ tail) (size a) = c).
    { rewrite Hsplit, Hm1. rewrite <- !app_assoc. cbn [app]. apply at_app_here. }
    rewrite Hat, (not_quote_test c Hq1 Hq2). cbv iota.
    assert (Hc0 : substr (text ++ tail) (size a)
                    (wsub (find (text ++ tail) "#" (size a)) (size a)) = Returns (t ++ z)).
    { destruct Htail as [-> | [comment ->]].
      - rewrite app_nil_r. rewrite Hsplit at 1 2.
        rewrite find_miss by assumption.
        rewrite wsub_small by (rewrite npos_value, two64_value; lia).
        apply substr_to_end. rewrite size_app, npos_value. lia.
      - assert (Hfull : text ++ "#"%char :: comment = a ++ (t ++ z) ++ "#"%char :: comment).
        { rewrite Hsplit at 1. now rewrite <- !app_assoc. }
        rewrite Hfull, find_hit by assumption.
        rewrite wsub_small by (rewrite size_app, two64_value; lia).
        replace (size a + size (t ++ z) - size a) with (size (t ++ z)) by lia.
        apply substr_app. rewrite <- Hfull, size_app, npos_value. lia. }
    rewrite Hc0. cbn [obind].
    assert (Hend : find_last_not_of (t ++ z) (lit " " ++ [tab]) = size m2).
    { rewrite Hm2, <- app_assoc. cbn [app]. now apply find_last_not_of_at. }
    rewrite Hend.
    destruct (size m2 =? npos) eqn:E;
      [apply Z.eqb_eq in E; rewrite npos_value in E; lia|clear E].
    cbn [negb]. rewrite (wadd_small _ 1) by (rewrite two64_value; lia).
    rewrite <- Hsm, resize_prefix. reflexivity.
Qed.

(** X10: on a line "alias <name>=<text>" whose text does not start with a
    quote, the command is the text up to the first hash sign, without the
    blanks at its ends, unescaped; so a hash sign cuts the command wherever
    it stands. *)
Theorem parseAliasLine_unquoted (lead n text tail : list ascii)
  (Hlead : blank lead) (Hn : ~ In "="%char n) (Hname : trim_hws n <> [])
  (Htext : ~ In "#"%char text)
  (Htail : tail = [] \/ (exists comment, tail = "#"%char :: comment))
  (Hq : match trim_hws text with
        | [] => True
        | c :: _ => c <> squote /\ c <> dquote
        end)
  (Hsz : size (lead ++ lit "alias" ++ n ++ "="%char :: text ++ tail) < npos) :
  parseAliasLine (lead ++ lit "alias" ++ n ++ "="%char :: text ++ tail)
  = Returns (alias_of (trim_hws n) (unescapeString (trim_hws text))).
Proof.
  rewrite parseAliasLine_shape by assumption.
  destruct (trim_hws n) as [|x nm] eqn:Et; [congruence|].
  apply parse_command_unquoted; try assumption; [reflexivity|].
  now apply size_after_equals in Hsz.
Qed.

Lemma parseAliasLine_unquoted_witness :
  parseAliasLine ([] ++ lit "alias" ++ lit " e" ++ "="%char :: lit "echo a " ++ lit "#b")
  = Returns (alias_of (trim_hws (lit " e")) (unescapeString (trim_hws (lit "echo a ")))).
Proof.
  apply (parseAliasLine_unquoted [] (lit " e") (lit "echo a ") (lit "#b")).
  - constructor.
  - vm_compute. intuition discriminate.
  - vm_compute. discriminate.
  - vm_compute. intuition discriminate.
  - right. now exists (lit "b").
  - vm_compute. split; discriminate.
  - vm_compute. reflexivity.
Defined.

End UnquotedCommands.

(** ** Restoring from one backup *)

Section Restoring.
Import Str Sys BackupManager Effects MoreEffects.

(** X11: [restoreFromBackup] throws in two cases and in no other: on a
    path of fewer than three characters (the suffix test reads past the start
    of the path), and on a path without the ".xz" suffix that is no entry and
    whose status cannot be read ([fs::exists] is called outside the try
    block). In both it leaves the machine as it was; in every other case it
    returns. *)
Theorem restoreFromBackup_throws_exactly (path : list ascii) (m : Machine)
  (Hsz : size path < two64) :
  let throwing :=
    size path < 3 \/
    (xz.has_xz_suffix path = false /\ status_throws (world m) path = true) in
  (throwing -> exists what, restoreFromBackup path m = (Throws what, m)) /\
  (~ throwing -> exists restored m', restoreFromBackup path m = (Returns restored, m')).
Proof.
  cbv zeta. split.
  - intros Hthrow.
    destruct (Z.lt_ge_cases (size path) 3) as [Hshort|Hlong].
    + destruct (last3_short path Hshort) as [what Hw]. exists what.
      unfold restoreFromBackup. mrun. rewrite Hw. reflexivity.
    + destruct Hthrow as [Hshort|[Hraw Hst]]; [lia|].
      rewrite restoreFromBackup_raw_run by (try assumption; lia).
      unfold status_throws, present in Hst.
      destruct (files (world m) !! path), (dirs (world m) !! path);
        try discriminate Hst. cbn [negb andb] in Hst. rewrite Hst. eauto.
  - intros Hnot.
    destruct (Z.lt_ge_cases (size path) 3) as [Hshort|Hlong]; [exfalso; apply Hnot; now left|].
    destruct (restoreFromBackup_returns path m ltac:(lia)) as (r & m' & Hrun & _); [|eauto].
    destruct (xz.has_xz_suffix path); [now left|]. right.
    destruct (status_throws (world m) path); [|reflexivity].
    exfalso. apply Hnot. right. now split.
Qed.

Lemma restoreFromBackup_throws_exactly_witness :
  let throwing :=
    size (lit "ab") < 3 \/
    (xz.has_xz_suffix (lit "ab") = false /\
     status_throws (world Sample.machine25) (lit "ab") = true) in
  (throwing ->
   exists what, restoreFromBackup (lit "ab") Sample.machine25 = (Throws what, Sample.machine25)) /\
  (~ throwing ->
   exists restored m', restoreFromBackup (lit "ab") Sample.machine25 = (Returns restored, m')).
Proof.
  apply (restoreFromBackup_throws_exactly (lit "ab") Sample.machine25).
  vm_compute. reflexivity.
Defined.

(** X12: restoring from a backup without the ".xz" suffix. On a path that
    is no entry and whose status cannot be read it throws and changes
    nothing. Otherwise it succeeds exactly when the backup is a regular file
    and the copy is not refused; the tracked file then holds the contents of
    the backup, written now, and no other file changes. In every other case
    the answer is [false], the files stay as they are and the manager records
    why. *)
Theorem restoreFromBackup_raw (path : list ascii) (m : Machine)
  (Hsz : 3 <= size path < two64) (Hraw : xz.has_xz_suffix path = false) :
  if status_throws (world m) path then
    restoreFromBackup path m
    = (Throws (lit "filesystem error: cannot get file status"), m)
  else
    match files (world m) !! path, copy_failure (world m) with
    | Some f, None =>
        restoreFromBackup path m
        = (Returns true, restored_with m (files (world m)) (content f))
    | _, _ =>
        exists why,
          restoreFromBackup path m = (Returns false, with_lastError m why) /\
          (why = lit "Backup file does not exist: " ++ path \/
           exists what, why = lit "Failed to restore from backup: " ++ what)
    end.
Proof.
  rewrite restoreFromBackup_raw_run by assumption. unfold status_throws, present.
  destruct (files (world m) !! path) as [f|]; destruct (dirs (world m) !! path) as [d|];
    cbn [negb andb];
    try destruct (bool_decide (path ∈ status_unreadable (world m)));
    destruct (copy_failure (world m)) as [what|]; try reflexivity;
    eexists; (split; [reflexivity|]); eauto.
Qed.

(** X13: restoring from a backup "<q>.xz" succeeds exactly when [xz] does
    not fail on it, it holds compressed contents and the copy is not refused;
    the tracked file then holds the decompressed contents; the compressed
    backup stays, and the decompressed copy [q] is left beside it. *)
Theorem restoreFromBackup_compressed (q : list ascii) (m : Machine)
  (Hsz : size (q ++ lit ".xz") < two64) :
  match files (world m) !! (q ++ lit ".xz"), copy_failure (world m) with
  | Some (mkFile t (Xz inner)), None =>
      if bool_decide (q ++ lit ".xz" ∈ xz_failing (world m)) then
        restoreFromBackup (q ++ lit ".xz") m
        = (Returns false,
           with_lastError m (lit "Failed to decompress backup: " ++ q ++ lit ".xz"))
      else
        restoreFromBackup (q ++ lit ".xz") m
        = (Returns true, restored_with m (<[q := mkFile t inner]> (files (world m))) inner)
  | _, _ => exists m', restoreFromBackup (q ++ lit ".xz") m = (Returns false, m')
  end.
Proof.
  rewrite restoreFromBackup_xz_run by assumption.
  destruct (files (world m) !! (q ++ lit ".xz")) as [[t [bytes|inner]]|];
    destruct (copy_failure (world m)) as [what|];
    destruct (bool_decide (q ++ lit ".xz" ∈ xz_failing (world m))); eauto.
Qed.

(** X14: a backup that the rotation's [xz -9e] has compressed restores to
    what it held: once the command has succeeded on [p], and provided [xz]
    does not fail on "<p>.xz" and the copy to the tracked file is not
    refused, restoring from "<p>.xz" answers [true] and puts the former
    contents of [p] into the tracked file. *)
Theorem compress_then_restore (p : list ascii) (m m1 : Machine)
  (Hsz : size (p ++ lit ".xz") < two64)
  (Hrun : xz.system (lit "xz -9e " ++ p) m = (Returns 0, m1))
  (Hcopy : copy_failure (world m) = None)
  (Hxz : p ++ lit ".xz" ∉ xz_failing (world m)) :
  exists f m2,
    files (world m) !! p = Some f /\
    restoreFromBackup (p ++ lit ".xz") m1 = (Returns true, m2) /\
    files (world m2) !! originalFilePath (self m)
    = Some (mkFile (now (world m)) (content f)).
Proof.
  rewrite system_compress in Hrun. unfold xz.compress in Hrun. revert Hrun. mrun.
  destruct (bool_decide (p ∈ xz_failing (world m))); mrun; [discriminate|].
  destruct (xz.has_xz_suffix p); mrun; [discriminate|].
  destruct (files (world m) !! p) as [f|] eqn:Ef; [|discriminate].
  destruct (files (world m) !! (p ++ lit ".xz")) eqn:Eg; [discriminate|]. mrun.
  intros [= <-]. exists f.
  rewrite restoreFromBackup_xz_run by assumption. mrun.
  rewrite bool_decide_eq_false_2 by assumption.
  rewrite lookup_insert_eq, Hcopy. eexists. split; [reflexivity|]. split; [reflexivity|].
  unfold restored_with. mrun. now rewrite lookup_insert_eq.
Qed.

(** What [isNewer] answers. *)
Lemma isNewer_run (file1 file2 : list ascii) (m : Machine) :
  isNewer file1 file2 m
  = (Returns match file_time (world m) file1, file_time (world m) file2 with
             | Some time1, Some time2 => time2 <? time1
             | _, _ => false
             end, m).
Proof.
  unfold isNewer, file_time. mrun.
  destruct (bool_decide (file1 ∈ time_unreadable (world m))); mrun; [reflexivity|].
  destruct (files (world m) !! file1) as [f1|]; mrun; [|reflexivity].
  destruct (bool_decide (file2 ∈ time_unreadable (world m))); mrun; [reflexivity|].
  destruct (files (world m) !! file2) as [f2|]; mrun; reflexivity.
Qed.

Lemma isNewer_true_iff (a b : list ascii) (m : Machine) :
  isNewer a b m = (Returns true, m) <->
  exists ta tb, file_time (world m) a = Some ta /\ file_time (world m) b = Some tb /\ tb < ta.
Proof.
  rewrite isNewer_run.
  destruct (file_time (world m) a) as [ta|], (file_time (world m) b) as [tb|].
  - split.
    + intros [= H]. apply Z.ltb_lt in H. eauto.
    + intros (ta' & tb' & [= <-] & [= <-] & H). apply Z.ltb_lt in H. now rewrite H.
  - split; [discriminate | intros (? & ? & _ & ? & _); discriminate].
  - split; [discriminate | intros (? & ? & ? & _); discriminate].
  - split; [discriminate | intros (? & ? & ? & _); discriminate].
Qed.

Lemma isNewer_decides (a b : list ascii) (m : Machine) :
  isNewer a b m = (Returns true, m) \/ isNewer a b m = (Returns false, m).
Proof.
  rewrite isNewer_run.
  destruct (match file_time (world m) a with Some _ => _ | None => _ end); auto.
Qed.

(** X15: [isNewer] never throws and changes nothing; it answers [true]
    exactly when both modification times can be read and the first is the
    later one, so it is irreflexive, asymmetric and transitive. *)
Theorem isNewer_strict_order (a b c : list ascii) (m : Machine) :
  (isNewer a b m = (Returns true, m) <->
   exists ta tb, file_time (world m) a = Some ta /\ file_time (world m) b = Some tb /\ tb < ta) /\
  (isNewer a b m = (Returns true, m) \/ isNewer a b m = (Returns false, m)) /\
  isNewer a a m = (Returns false, m) /\
  (isNewer a b m = (Returns true, m) -> isNewer b a m = (Returns false, m)) /\
  (isNewer a b m = (Returns true, m) -> isNewer b c m = (Returns true, m) ->
   isNewer a c m = (Returns true, m)).
Proof.
  split; [apply isNewer_true_iff|]. split; [apply isNewer_decides|].
  assert (Hnot : forall x y, ~ isNewer x y m = (Returns true, m) ->
                             isNewer x y m = (Returns false, m)).
  { intros x y H. destruct (isNewer_decides x y m); tauto. }
  split; [|split].
  - apply Hnot. rewrite isNewer_true_iff. intros (ta & tb & Ha & Hb & Hlt).
    rewrite Ha in Hb. injection Hb as <-. lia.
  - intros Hab. apply Hnot. rewrite isNewer_true_iff in *.
    destruct Hab as (ta & tb & Ha & Hb & Hlt). intros (tb' & ta' & Hb' & Ha' & Hlt').
    rewrite Ha in Ha'. rewrite Hb in Hb'. injection Ha' as <-. injection Hb' as <-. lia.
  - rewrite !isNewer_true_iff.
    intros (ta & tb & Ha & Hb & Hlt) (tb' & tc & Hb' & Hc & Hlt').
    rewrite Hb in Hb'. injection Hb' as <-. exists ta, tc. repeat split; try assumption. lia.
Qed.

Lemma restoreFromBackup_raw_witness :
  if status_throws (world Sample.machine25) (Sample.bak 3) then
    restoreFromBackup (Sample.bak 3) Sample.machine25
    = (Throws (lit "filesystem error: cannot get file status"), Sample.machine25)
  else
    match files (world Sample.machine25) !! Sample.bak 3,
          copy_failure (world Sample.machine25) with
    | Some f, None =>
        restoreFromBackup (Sample.bak 3) Sample.machine25
        = (Returns true,
           restored_with Sample.machine25 (files (world Sample.machine25)) (content f))
    | _, _ =>
        exists why,
          restoreFromBackup (Sample.bak 3) Sample.machine25
          = (Returns false, with_lastError Sample.machine25 why) /\
          (why = lit "Backup file does not exist: " ++ Sample.bak 3 \/
           exists what, why = lit "Failed to restore from backup: " ++ what)
    end.
Proof.
  apply (restoreFromBackup_raw (Sample.bak 3) Sample.machine25).
  - split; [vm_compute; discriminate | vm_compute; reflexivity].
  - vm_compute. reflexivity.
Defined.

End Restoring.

(** ** The rotation for any number of backups and any cap *)

Section RotationAnyCap.
Import Str Sys BackupManager Effects.

Variable std_sort : list (list ascii * Z) -> list (list ascii * Z).
Hypothesis std_sort_perm : forall l, Permutation (std_sort l) l.

(** Below the cap and below the eleventh entry nothing happens. *)
Lemma rotate_files_keep_any (U X : gset (list ascii)) (cap : Z)
  (l : list (list ascii * Z)) :
  forall (i : Z) (F : gmap (list ascii) file),
    0 <= i -> i + Z.of_nat (length l) <= 10 -> i + Z.of_nat (length l) <= cap -> cap < two64 ->
    rotate_files U X cap i l F = F /\ rotate_count U cap i l = 0.
Proof.
  induction l as [|[p t] l IH]; intros i F Hi Hlen Hcap Hmax; [split; reflexivity|].
  cbn [rotate_files rotate_count length] in *.
  rewrite wadd_small by (rewrite two64_value; lia).
  unfold step_files, step_count. rewrite to_size_t_small by lia.
  destruct (cap <=? i) eqn:E1; [apply Z.leb_le in E1; lia|].
  destruct (10 <=? i) eqn:E2; [apply Z.leb_le in E2; lia|].
  cbn [andb]. destruct (IH (i + 1) F ltac:(lia) ltac:(lia) ltac:(lia) Hmax) as [HF Hc].
  rewrite HF, Hc. split; reflexivity.
Qed.

(** The three phases for any cap: the entries below the cap and below the
    eleventh are kept, those from the eleventh to the cap are compressed,
    those past the cap are removed. *)
Lemma rotate_phases (U X : gset (list ascii)) (cap : nat) (bs : list (list ascii * Z))
  (F : gmap (list ascii) file) :
  (0 < cap)%nat -> Z.of_nat cap < two64 -> Z.of_nat (length bs) < two64 ->
  Forall (fun e => 3 <= size (fst e) < two64) bs ->
  let kn := Nat.min 10 cap in
  let c := firstn (cap - kn) (skipn kn bs) in
  let d := skipn cap bs in
  bs = firstn kn bs ++ c ++ d /\
  rotate_files U X (Z.of_nat cap) 0 bs F = remove_all U (map fst d) (compress_all X (map fst c) F) /\
  rotate_count U (Z.of_nat cap) 0 bs = Z.of_nat (length (removable U (map fst d))).
Proof.
  intros Hcap Hcap64 Hn Hsizes kn c d.
  assert (Hkn : kn = Nat.min 10 cap) by reflexivity.
  assert (Hcdef : c = firstn (cap - kn) (skipn kn bs)) by reflexivity.
  assert (Hddef : d = skipn cap bs) by reflexivity.
  clearbody kn c d.
  set (k := firstn kn bs).
  assert (Hd : d = skipn (cap - kn) (skipn kn bs)).
  { rewrite Hddef, skipn_skipn. f_equal. lia. }
  assert (Hbs : bs = k ++ c ++ d).
  { unfold k. rewrite Hcdef, Hd. now rewrite !firstn_skipn. }
  split; [assumption|].
  assert (Hk : length k = Nat.min kn (length bs)) by (unfold k; apply length_firstn).
  assert (Hc : length c = Nat.min (cap - kn) (length bs - kn)).
  { rewrite Hcdef, length_firstn, length_skipn. reflexivity. }
  assert (Hdl : length d = (length bs - cap)%nat) by (rewrite Hddef; apply length_skipn).
  assert (Hc_sizes : Forall (fun e => 3 <= size (fst e) < two64) c).
  { rewrite Hcdef. apply Forall_take, Forall_drop. assumption. }
  rewrite Hbs at 1 2.
  destruct (rotate_files_app U X (Z.of_nat cap) k (c ++ d) 0 F ltac:(lia) ltac:(lia)) as [HF1 Hc1].
  destruct (rotate_files_keep_any U X (Z.of_nat cap) k 0 F ltac:(lia) ltac:(lia)
              ltac:(lia) Hcap64) as [HF2 Hc2].
  rewrite HF1, Hc1, HF2, Hc2, !Z.add_0_l.
  destruct (rotate_files_app U X (Z.of_nat cap) c d (Z.of_nat (length k)) F
              ltac:(lia) ltac:(lia)) as [HF3 Hc3].
  rewrite HF3, Hc3.
  assert (Hphase2 : rotate_files U X (Z.of_nat cap) (Z.of_nat (length k)) c F
                    = compress_all X (map fst c) F /\
                    rotate_count U (Z.of_nat cap) (Z.of_nat (length k)) c = 0).
  { destruct (Nat.eq_dec (length c) 0%nat) as [E|E].
    - destruct c; [split; reflexivity | discriminate].
    - apply rotate_files_compress; try assumption; lia. }
  destruct Hphase2 as [HF4 Hc4]. rewrite HF4, Hc4.
  assert (Hphase3 :
            rotate_files U X (Z.of_nat cap) (Z.of_nat (length k) + Z.of_nat (length c)) d
              (compress_all X (map fst c) F)
            = remove_all U (map fst d) (compress_all X (map fst c) F) /\
            rotate_count U (Z.of_nat cap) (Z.of_nat (length k) + Z.of_nat (length c)) d
            = Z.of_nat (length (removable U (map fst d)))).
  { destruct (Nat.eq_dec (length d) 0%nat) as [E|E].
    - destruct d; [split; reflexivity | discriminate].
    - apply rotate_files_remove; lia. }
  destruct Hphase3 as [HF5 Hc5]. rewrite HF5, Hc5. split; [reflexivity | lia].
Qed.

(** X16: the rotation for any number of backups and any cap (a cap of zero
    or less counts as 20): it returns; an entry below the cap and among the
    ten newest is left as it was; an entry from the eleventh on and below
    the cap is compressed when it lacks the suffix and [xz] succeeds on it,
    and is left as it was otherwise; an entry past the cap is removed unless
    its removal fails; the count returned is the number of entries past the
    cap less those whose removal failed. So with a cap of ten or less nothing
    is ever compressed, and with no more backups than the cap nothing is
    removed. *)
Theorem rotation_for_any_cap (maxBackups : Z) (m : Machine)
  (Hint : maxBackups <= 2147483647)
  (Hpaths : map_Forall (fun p _ => size p < npos) (files (world m)))
  (Hn : Z.of_nat (length (backups_newest_first std_sort m)) < two64) :
  let cap := Z.to_nat (if maxBackups <=? 0 then 20 else maxBackups) in
  exists deleted m',
    cleanupAndCompressOldBackups std_sort maxBackups m = (Returns deleted, m') /\
    (forall (i : nat) (p : list ascii) (t : Z),
       backups_newest_first std_sort m !! i = Some (p, t) ->
       exists f, files (world m) !! p = Some f /\
         if (i <? Nat.min 10 cap)%nat then files (world m') !! p = Some f
         else if (i <? cap)%nat then
           if xz.has_xz_suffix p then files (world m') !! p = Some f
           else if compressible (xz_failing (world m)) (files (world m)) p then
             files (world m') !! p = None /\
             files (world m') !! (p ++ lit ".xz") = Some (mkFile (mtime f) (Xz (content f)))
           else files (world m') !! p = Some f
         else
           if bool_decide (p ∈ undeletable (world m)) then files (world m') !! p = Some f
           else files (world m') !! p = None) /\
    deleted
    = Z.of_nat (length (skipn cap (backups_newest_first std_sort m)))
      - Z.of_nat (length (List.filter
                            (fun e => bool_decide (fst e ∈ undeletable (world m)))
                            (skipn cap (backups_newest_first std_sort m)))).
Proof using std_sort_perm.
  intros cap.
  destruct (cleanup_returns std_sort std_sort_perm maxBackups m)
    as (deleted & m' & Hrun & HF & Hcount & _).
  assert (Hcap : (0 < cap)%nat /\
                 Z.of_nat cap = (if maxBackups <=? 0 then 20 else maxBackups)).
  { unfold cap. destruct (maxBackups <=? 0) eqn:E; [split; [lia | reflexivity]|].
    apply Z.leb_gt in E. lia. }
  destruct Hcap as [Hcap0 Hcapz]. rewrite <- Hcapz in HF, Hcount.
  assert (Hcap64 : Z.of_nat cap < two64).
  { rewrite Hcapz, two64_value. destruct (maxBackups <=? 0); lia. }
  clearbody cap.
  destruct (backups_newest_first_entries std_sort std_sort_perm m) as [Hnd Hentries].
  set (bs := backups_newest_first std_sort m) in *.
  set (U := undeletable (world m)) in *. set (X := xz_failing (world m)) in *.
  set (F := files (world m)) in *.
  assert (Hsizes : forall p t, In (p, t) bs -> 3 <= size p < two64).
  { intros p t Hin. destruct (Hentries p t Hin) as (_ & _ & H4 & f & Hf & _).
    apply Hpaths in Hf. rewrite npos_value in Hf. rewrite two64_value. lia. }
  destruct (rotate_phases U X cap bs F Hcap0 Hcap64 Hn) as (Hbs & Hfiles & Hcnt).
  { apply List.Forall_forall. intros [p t] Hin. now apply (Hsizes p t). }
  set (kn := Nat.min 10 cap) in *.
  set (k := firstn kn bs) in *. set (c := firstn (cap - kn) (skipn kn bs)) in *.
  set (d := skipn cap bs) in *.
  rewrite Hfiles in HF. rewrite Hcnt in Hcount.
  (* the paths of the three parts are apart *)
  rewrite Hbs, !map_app in Hnd.
  pose proof (NoDup_app_remove_l _ _ Hnd) as Hnd_cd.
  assert (Hk_c : forall p, In p (map fst k) -> ~ In p (map fst c)).
  { intros p H1 H2. apply NoDup_ListNoDup, NoDup_app in Hnd. destruct Hnd as (_ & Hdis & _).
    apply (Hdis p); [now apply list_elem_of_In|].
    apply list_elem_of_In, in_or_app. now left. }
  assert (Hk_d : forall p, In p (map fst k) -> ~ In p (map fst d)).
  { intros p H1 H2. apply NoDup_ListNoDup, NoDup_app in Hnd. destruct Hnd as (_ & Hdis & _).
    apply (Hdis p); [now apply list_elem_of_In|].
    apply list_elem_of_In, in_or_app. now right. }
  assert (Hc_d : forall p, In p (map fst c) -> ~ In p (map fst d)).
  { intros p H1 H2. apply NoDup_ListNoDup, NoDup_app in Hnd_cd.
    destruct Hnd_cd as (_ & Hdis & _).
    apply (Hdis p); now apply list_elem_of_In. }
  assert (Hnd_c : List.NoDup (map fst c)) by (now apply NoDup_app_remove_r in Hnd_cd).
  exists deleted, m'. split; [assumption|]. split.
  - intros i p t Hi.
    assert (Hin : In (p, t) bs) by (apply list_elem_of_In; eapply list_elem_of_lookup_2; eassumption).
    destruct (Hentries p t Hin) as (_ & _ & _ & f & Hf & _).
    exists f. split; [assumption|]. rewrite HF.
    destruct (i <? kn)%nat eqn:E10.
    + (* kept *)
      apply Nat.ltb_lt in E10.
      assert (Hpk : In p (map fst k)).
      { apply in_map_iff. exists (p, t). split; [reflexivity|].
        apply list_elem_of_In. eapply list_elem_of_lookup_2.
        unfold k. rewrite lookup_take_lt; eassumption. }
      rewrite remove_all_kept by (left; now apply Hk_d).
      apply compress_all_keeps; [assumption|]. intros H. now apply Hk_c in H.
    + apply Nat.ltb_ge in E10. destruct (i <? cap)%nat eqn:E20.
      * (* to compress *)
        apply Nat.ltb_lt in E20.
        assert (Hpc : In p (map fst c)).
        { apply in_map_iff. exists (p, t). split; [reflexivity|].
          apply list_elem_of_In. apply (list_elem_of_lookup_2 _ (i - kn)).
          unfold c. rewrite lookup_take_lt by lia. rewrite lookup_drop.
          now replace (kn + (i - kn))%nat with i by lia. }
        pose proof (compress_all_entry X (map fst c) p f F Hnd_c Hpc Hf) as Hentry.
        assert (Hpd : ~ In p (map fst d)) by (now apply Hc_d).
        destruct (xz.has_xz_suffix p) eqn:Es.
        -- assert (Hcomp : compressible X F p = false).
           { unfold compressible. rewrite Es. cbn [negb]. now rewrite andb_false_r. }
           rewrite Hcomp in Hentry. rewrite remove_all_kept by (now left). assumption.
        -- destruct (compressible X F p) eqn:Ecomp.
           ++ destruct Hentry as [Hgone Hmade]. split.
              ** now apply remove_all_absent.
              ** rewrite remove_all_kept; [assumption|]. left. intros Hin'.
                 apply in_map_iff in Hin'. destruct Hin' as ([q t'] & Hq & Hin').
                 simpl in Hq. subst q.
                 assert (Hbs' : In (p ++ lit ".xz", t') bs).
                 { rewrite Hbs. apply in_or_app. right. apply in_or_app. now right. }
                 destruct (Hentries _ _ Hbs') as (_ & _ & _ & g & Hg & _).
                 unfold compressible in Ecomp. apply andb_true_iff in Ecomp.
                 destruct Ecomp as [_ Ecomp]. apply bool_decide_eq_true in Ecomp.
                 fold F in Hg. congruence.
           ++ rewrite remove_all_kept by (now left). assumption.
      * (* past the cap *)
        apply Nat.ltb_ge in E20.
        assert (Hpd : In p (map fst d)).
        { apply in_map_iff. exists (p, t). split; [reflexivity|].
          apply list_elem_of_In. apply (list_elem_of_lookup_2 _ (i - cap)).
          unfold d. rewrite lookup_drop. now replace (cap + (i - cap))%nat with i by lia. }
        assert (Hpc : ~ In p (map fst c)) by (intros H; now apply (Hc_d p)).
        destruct (bool_decide (p ∈ U)) eqn:EU.
        -- apply bool_decide_eq_true in EU. rewrite remove_all_kept by (now right).
           apply compress_all_keeps; [assumption | tauto].
        -- apply bool_decide_eq_false in EU. now apply remove_all_gone.
  - rewrite Hcount. apply removable_count.
Qed.

End RotationAnyCap.

(** ** The backup directory and the listing *)

Section ListingMore.
Import Str Sys BackupManager Effects MoreEffects.

Lemma exists_run (p : list ascii) (m : Machine) :
  fs.exists_ p m
  = (if status_throws (world m) p
     then Throws (lit "filesystem error: cannot get file status")
     else Returns (present (world m) p), m).
Proof.
  unfold fs.exists_, status_throws, present. mrun. rewrite !is_Some_decide.
  destruct (files (world m) !! p), (dirs (world m) !! p); cbn [orb negb andb]; mrun;
    try reflexivity.
  destruct (bool_decide (p ∈ status_unreadable (world m))); mrun; reflexivity.
Qed.

(** What [getBackupDirectory] does, case by case. *)
Lemma getBackupDirectory_run (m : Machine) :
  getBackupDirectory m
  = match env_HOME (world m) with
    | None => (Returns (fs.parent_path (originalFilePath (self m))), m)
    | Some home =>
        let dir := fs.join home (lit ".shellbackup") in
        if present (world m) dir then (Returns dir, m)
        else if bool_decide (dir ∈ status_unreadable (world m)) then
          (Returns (fs.parent_path (originalFilePath (self m))),
           with_lastError m (lit "Failed to create backup directory: " ++
                             lit "filesystem error: cannot get file status"))
        else match mkdir_failure (world m), chmod_failure (world m) with
             | Some what, _ =>
                 (Returns (fs.parent_path (originalFilePath (self m))),
                  with_lastError m (lit "Failed to create backup directory: " ++ what))
             | None, Some what =>
                 (Returns (fs.parent_path (originalFilePath (self m))),
                  with_lastError (with_dir m dir 493)
                    (lit "Failed to create backup directory: " ++ what))
             | None, None => (Returns dir, with_dir (with_dir m dir 493) dir fs.owner_all)
             end
    end.
Proof.
  unfold getBackupDirectory, present. mrun.
  destruct (env_HOME (world m)) as [home|]; [|reflexivity]. mrun.
  rewrite !is_Some_decide.
  destruct (files (world m) !! fs.join home (lit ".shellbackup")); cbn [orb negb]; mrun;
    [reflexivity|].
  destruct (dirs (world m) !! fs.join home (lit ".shellbackup")) eqn:Ed; cbn [orb negb]; mrun;
    [reflexivity|].
  destruct (bool_decide (fs.join home (lit ".shellbackup") ∈ status_unreadable (world m)));
    mrun; cbn [negb]; mrun; [reflexivity|].
  destruct (mkdir_failure (world m)) as [what|]; mrun; [reflexivity|].
  rewrite Ed. mrun.
  destruct (chmod_failure (world m)) as [what|]; mrun; reflexivity.
Qed.

(** X17: [getBackupDirectory] never throws (a throwing [fs::exists] is
    caught), and a second call answers the same directory and changes
    nothing, with one exception: when the first call creates ~/.shellbackup
    and then fails to set its mode, it answers the directory of the tracked
    file, while the second call finds the directory made and answers
    ~/.shellbackup. *)
Theorem getBackupDirectory_twice (m : Machine) :
  exists dir m1,
    getBackupDirectory m = (Returns dir, m1) /\
    match env_HOME (world m), mkdir_failure (world m), chmod_failure (world m) with
    | Some home, None, Some _ =>
        if present (world m) (fs.join home (lit ".shellbackup")) ||
           status_throws (world m) (fs.join home (lit ".shellbackup"))
        then getBackupDirectory m1 = (Returns dir, m1)
        else dir = fs.parent_path (originalFilePath (self m)) /\
             getBackupDirectory m1 = (Returns (fs.join home (lit ".shellbackup")), m1)
    | _, _, _ => getBackupDirectory m1 = (Returns dir, m1)
    end.
Proof.
  rewrite (getBackupDirectory_run m).
  destruct (env_HOME (world m)) as [home|] eqn:Eh.
  2: { eexists _, _. split; [reflexivity|]. rewrite getBackupDirectory_run, Eh. reflexivity. }
  cbv zeta.
  unfold status_throws.
  destruct (present (world m) (fs.join home (lit ".shellbackup"))) eqn:Ep.
  { eexists _, _. split; [reflexivity|].
    assert (H : getBackupDirectory m = (Returns (fs.join home (lit ".shellbackup")), m))
      by (rewrite getBackupDirectory_run, Eh; cbv zeta; now rewrite Ep).
    now destruct (mkdir_failure (world m)), (chmod_failure (world m)). }
  cbn [negb andb orb].
  destruct (bool_decide (fs.join home (lit ".shellbackup") ∈ status_unreadable (world m)))
    eqn:Es.
  { eexists _, _. split; [reflexivity|].
    assert (H : forall e, getBackupDirectory (with_lastError m e)
                          = (Returns (fs.parent_path (originalFilePath (self m))),
                             with_lastError m
                               (lit "Failed to create backup directory: " ++
                                lit "filesystem error: cannot get file status"))).
    { intros e. rewrite getBackupDirectory_run. unfold with_lastError. mrun.
      rewrite Eh. cbv zeta. rewrite Ep, Es. reflexivity. }
    now destruct (mkdir_failure (world m)), (chmod_failure (world m)). }
  destruct (mkdir_failure (world m)) as [what|] eqn:Em.
  { eexists _, _. split; [reflexivity|].
    rewrite getBackupDirectory_run. unfold with_lastError. mrun.
    rewrite Eh. cbv zeta. rewrite Ep, Es, Em. reflexivity. }
  assert (Hmade : forall mode e,
            present (world (with_lastError (with_dir m (fs.join home (lit ".shellbackup")) mode) e))
              (fs.join home (lit ".shellbackup")) = true).
  { intros mode e. unfold present, with_lastError, with_dir. mrun.
    rewrite lookup_insert_eq. now destruct (files (world m) !! _). }
  destruct (chmod_failure (world m)) as [what|] eqn:Ec.
  - eexists _, _. split; [reflexivity|]. split; [reflexivity|].
    match goal with
    | |- getBackupDirectory ?m1 = _ =>
        assert (Hh : env_HOME (world m1) = Some home) by exact Eh;
        rewrite (getBackupDirectory_run m1), Hh
    end.
    cbv zeta. now rewrite Hmade.
  - eexists _, _. split; [reflexivity|].
    match goal with
    | |- getBackupDirectory ?m1 = _ =>
        assert (Hh : env_HOME (world m1) = Some home) by exact Eh;
        assert (Hp : present (world m1) (fs.join home (lit ".shellbackup")) = true);
        [|rewrite (getBackupDirectory_run m1), Hh; cbv zeta; now rewrite Hp]
    end.
    unfold present, with_dir. mrun. rewrite lookup_insert_eq.
    now destruct (files (world m) !! _).
Qed.




Lemma split_no_slash (x : list ascii) :
  ~ In "/"%char x -> fs.split_last_slash x = (None, x).
Proof.
  induction x as [|c x IH]; intros H; [reflexivity|]. cbn [fs.split_last_slash].
  rewrite IH by (intros Hin; apply H; now right).
  destruct (Ascii.eqb_spec c "/") as [->|_]; [exfalso; apply H; now left | reflexivity].
Qed.

Lemma split_after_slash (a x : list ascii) :
  ~ In "/"%char x -> fs.split_last_slash (a ++ "/"%char :: x) = (Some a, x).
Proof.
  intros H. induction a as [|c a IH]; cbn [app fs.split_last_slash].
  - now rewrite split_no_slash.
  - now rewrite IH.
Qed.






End ListingMore.

(** ** A backup, then anything on the tracked file, then the restoration *)

Section BackupThenRestore.
Import Str Sys BackupManager Effects MoreEffects.

Variable std_sort : list (list ascii * Z) -> list (list ascii * Z).
Hypothesis std_sort_perm : forall l, Permutation (std_sort l) l.
Hypothesis std_sort_sorted :
  forall l, StronglySorted (fun a b => snd b <= snd a) (std_sort l).











(** *** What the rotation does to the files beside its entries *)



(** *** The newest entry comes first *)


(** *** The name of the backup *)










(** *** With the backup directory in place *)







End BackupThenRestore.

(** ** Detecting the shell *)

Section Detection.
Import Str Cxx Posix ShellDetector ShellDetectorImpl DetectorWords.

Lemma find_last_of_split (s : list ascii) (c : ascii) :
  (~ In c s /\ find_last_of s c = npos) \/
  (exists a x, s = a ++ c :: x /\ ~ In c x /\ find_last_of s c = size a).
Proof.
  unfold find_last_of.
  destruct (find_if (Ascii.eqb c) (rev s)) as [i|] eqn:E.
  - right. apply find_if_Some in E. destruct E as (l1 & y & l2 & Hs & <- & Hy & Hall).
    apply Ascii.eqb_eq in Hy. subst y.
    exists (rev l2), (rev l1).
    assert (Hrev : s = rev l2 ++ c :: rev l1).
    { rewrite <- (rev_involutive s), Hs, rev_app_distr. cbn [rev]. now rewrite <- app_assoc. }
    split; [assumption|]. split.
    + rewrite <- in_rev. rewrite List.Forall_forall in Hall. intros Hin.
      specialize (Hall _ Hin). now rewrite Ascii.eqb_refl in Hall.
    + rewrite Hrev at 1. unfold size. rewrite length_app. cbn [length]. rewrite !length_rev. lia.
  - left. split; [|reflexivity].
    apply find_if_None in E. rewrite List.Forall_forall in E. intros Hin.
    apply in_rev in Hin. specialize (E _ Hin). now rewrite Ascii.eqb_refl in E.
Qed.

(** What stands behind the last slash is the file name. *)
Lemma after_last_slash (shellPath : list ascii) :
  size shellPath < npos ->
  (if negb (find_last_of shellPath "/" =? npos)
   then substr shellPath (wadd (find_last_of shellPath "/") 1) npos
   else Returns shellPath)
  = Returns (fs.filename shellPath).
Proof.
  intros Hsz. unfold fs.filename.
  destruct (find_last_of_split shellPath "/") as [[Hno ->]|(a & x & Hs & Hx & ->)].
  - rewrite Z.eqb_refl. cbn [negb]. now rewrite split_no_slash.
  - pose proof (size_nonneg a) as Ha0. pose proof (size_nonneg x) as Hx0.
    rewrite Hs, size_app, size_cons, npos_value in Hsz.
    destruct (size a =? npos) eqn:E; [apply Z.eqb_eq in E; rewrite npos_value in E; lia|].
    cbn [negb]. rewrite wadd_small by (rewrite two64_value; lia).
    rewrite Hs, split_after_slash by assumption. cbn [snd].
    change (a ++ "/"%char :: x) with (a ++ ["/"%char] ++ x). rewrite app_assoc.
    replace (size a + 1) with (size (a ++ ["/"%char])) by (now rewrite size_app).
    apply substr_to_end. rewrite npos_value. lia.
Qed.

(** X21: [detectFromEnvironment] never throws. A version variable decides
    first, BASH_VERSION before ZSH_VERSION before FISH_VERSION; otherwise the
    shell is read off the last component of SHELL alone, whatever its case,
    "zsh" being looked for before "bash" and "bash" before "fish"; with none
    of the four variables set the answer is UNKNOWN. *)
Theorem detectFromEnvironment_outcome (h : Host)
  (Hsz : forall shellPath, getenv h (lit "SHELL") = Some shellPath -> size shellPath < npos) :
  detectFromEnvironment h
  = Returns
      match getenv h (lit "BASH_VERSION"), getenv h (lit "ZSH_VERSION"),
            getenv h (lit "FISH_VERSION"), getenv h (lit "SHELL") with
      | Some _, _, _, _ => BASH
      | None, Some _, _, _ => ZSH
      | None, None, Some _, _ => FISH
      | None, None, None, Some shellPath => shell_of_name (map tolower (fs.filename shellPath))
      | None, None, None, None => UNKNOWN
      end.
Proof.
  unfold detectFromEnvironment.
  destruct (getenv h (lit "BASH_VERSION")); [reflexivity|].
  destruct (getenv h (lit "ZSH_VERSION")); [reflexivity|].
  destruct (getenv h (lit "FISH_VERSION")); [reflexivity|].
  destruct (getenv h (lit "SHELL")) as [shellPath|]; [|reflexivity].
  cbv zeta. rewrite after_last_slash by now apply Hsz. cbn [obind].
  unfold shell_of_name.
  destruct (negb (find_str _ (lit "zsh") =? npos)); [reflexivity|].
  destruct (negb (find_str _ (lit "bash") =? npos)); [reflexivity|].
  destruct (negb (find_str _ (lit "fish") =? npos)); reflexivity.
Qed.

Lemma expandHome_tilde (h : Host) :
  expandHome h (lit "~")
  = Returns match home_of h with
            | Some dir => dir
            | None => lit "~"
            end.
Proof.
  unfold expandHome, home_of.
  destruct (match getenv h (lit "HOME") with Some dir => Some dir | None => pw_dir_self h end);
    reflexivity.
Qed.

(** X22: [expandHome] never throws. It leaves a path that does not start
    with a tilde as it is, and every path when no home directory can be
    found; otherwise "~" becomes the home directory ([HOME], else the entry
    of the password database), "~/<rest>" the home directory followed by
    "/<rest>", and "~<user>/<rest>" the directory of <user> followed by
    "/<rest>" when the database knows <user> and the path itself when it
    does not. *)
Theorem expandHome_outcome (h : Host) (path : list ascii) (Hsz : size path < npos) :
  (exists expanded, expandHome h path = Returns expanded) /\
  (match path with
   | [] => True
   | c :: _ => c <> "~"%char
   end -> expandHome h path = Returns path) /\
  (home_of h = None -> expandHome h path = Returns path) /\
  (forall home rest,
     home_of h = Some home ->
     (path = lit "~" -> expandHome h path = Returns home) /\
     (path = lit "~/" ++ rest -> expandHome h path = Returns (home ++ lit "/" ++ rest)) /\
     (forall user,
        path = lit "~" ++ user ++ lit "/" ++ rest -> user <> [] -> ~ In "/"%char user ->
        expandHome h path
        = Returns match pw_dir_of h !! user with
                  | Some dir => dir ++ lit "/" ++ rest
                  | None => path
                  end)).
Proof.
  pose proof (size_nonneg path) as Hp0. rewrite npos_value in Hsz.
  assert (Hplain : match path with [] => True | c :: _ => c <> "~"%char end ->
                   expandHome h path = Returns path).
  { intros H. unfold expandHome. destruct path as [|c path]; [reflexivity|].
    change (at_ (c :: path) 0) with c.
    destruct (Ascii.eqb_spec c "~") as [->|_]; [congruence|].
    unfold Str.eqb. now rewrite bool_decide_eq_false_2 by discriminate. }
  assert (Hnone : home_of h = None -> expandHome h path = Returns path).
  { intros H. unfold expandHome. fold (home_of h). rewrite H.
    now destruct (Str.eqb path [] || negb (Ascii.eqb (at_ path 0) "~")). }
  assert (Hcases : forall home rest,
     home_of h = Some home ->
     (path = lit "~" -> expandHome h path = Returns home) /\
     (path = lit "~/" ++ rest -> expandHome h path = Returns (home ++ lit "/" ++ rest)) /\
     (forall user,
        path = lit "~" ++ user ++ lit "/" ++ rest -> user <> [] -> ~ In "/"%char user ->
        expandHome h path
        = Returns match pw_dir_of h !! user with
                  | Some dir => dir ++ lit "/" ++ rest
                  | None => path
                  end)).
  { intros home rest Hhome. split; [|split].
    - intros ->. rewrite expandHome_tilde, Hhome. reflexivity.
    - intros ->. unfold expandHome. fold (home_of h). rewrite Hhome.
      cbn [lit list_ascii_of_string app]. change (at_ ("~"%char :: "/"%char :: rest) 0) with "~"%char.
      change (at_ ("~"%char :: "/"%char :: rest) 1) with "/"%char.
      unfold Str.eqb. rewrite bool_decide_eq_false_2 by discriminate.
      cbn [orb negb Ascii.eqb Bool.eqb andb].
      cbn [lit list_ascii_of_string app] in Hsz. rewrite !size_cons in Hsz.
      rewrite !size_cons.
      destruct (1 + (1 + size rest) =? 1) eqn:E;
        [apply Z.eqb_eq in E; pose proof (size_nonneg rest); lia|].
      assert (Htail : substr ("~"%char :: "/"%char :: rest) 1 npos = Returns ("/"%char :: rest)).
      { apply (substr_to_end ["~"%char] ("/"%char :: rest) npos).
        rewrite size_cons, npos_value. pose proof (size_nonneg rest). lia. }
      rewrite Htail. reflexivity.
    - intros user -> Huser Hslash. unfold expandHome. fold (home_of h). rewrite Hhome.
      destruct user as [|u user]; [congruence|].
      cbn [lit list_ascii_of_string app].
      change (at_ ("~"%char :: u :: user ++ "/"%char :: rest) 0) with "~"%char.
      change (at_ ("~"%char :: u :: user ++ "/"%char :: rest) 1) with u.
      unfold Str.eqb. rewrite bool_decide_eq_false_2 by discriminate.
      cbn [orb negb]. change (Ascii.eqb "~" "~") with true. cbn [negb].
      assert (Hu : Ascii.eqb u "/" = false).
      { apply Ascii.eqb_neq. intros ->. apply Hslash. now left. }
      rewrite Hu. cbn [negb].
      pose proof (size_nonneg user) as Hu0. pose proof (size_nonneg rest) as Hr0.
      cbn [lit list_ascii_of_string app] in Hsz.
      rewrite !size_cons, size_app, size_cons in Hsz.
      rewrite !size_cons, size_app, size_cons.
      destruct (1 + (1 + (size user + (1 + size rest))) =? 1) eqn:E;
        [apply Z.eqb_eq in E; lia|].
      assert (Hfind : find ("~"%char :: u :: user ++ "/"%char :: rest) "/" 0
                      = 2 + size user).
      { assert (Hno : ~ In "/"%char ("~"%char :: u :: user))
          by (intros [H|H]; [discriminate | now apply Hslash]).
        pose proof (find_hit [] ("~"%char :: u :: user) "/" rest Hno) as Hf.
        cbn [app] in Hf. change (size []) with 0 in Hf. rewrite Hf, !size_cons. lia. }
      rewrite Hfind.
      destruct (2 + size user =? npos) eqn:E2;
        [apply Z.eqb_eq in E2; rewrite npos_value in E2; lia|].
      cbn [negb]. rewrite wsub_small by (rewrite two64_value; lia).
      assert (Hname : substr ("~"%char :: u :: user ++ "/"%char :: rest) 1 (2 + size user - 1)
                      = Returns (u :: user)).
      { replace (2 + size user - 1) with (size (u :: user)) by (rewrite size_cons; lia).
        apply (substr_app ["~"%char] (u :: user) ("/"%char :: rest)).
        repeat (rewrite size_app || rewrite size_cons). rewrite npos_value.
        change (size []) with 0. lia. }
      rewrite Hname. cbn [obind].
      destruct (pw_dir_of h !! (u :: user)) as [dir|]; [|reflexivity].
      assert (Htail : substr ("~"%char :: u :: user ++ "/"%char :: rest) (2 + size user) npos
                      = Returns ("/"%char :: rest)).
      { replace (2 + size user) with (size ("~"%char :: u :: user)) by (rewrite !size_cons; lia).
        apply (substr_to_end ("~"%char :: u :: user) ("/"%char :: rest) npos).
        rewrite size_cons, npos_value. lia. }
      rewrite Htail. reflexivity. }
  split; [|split; [assumption | split; assumption]].
  (* it never throws *)
  unfold expandHome. fold (home_of h).
  destruct (Str.eqb path [] || negb (Ascii.eqb (at_ path 0) "~")) eqn:E0; [eauto|].
  destruct (home_of h) as [home|]; [|eauto].
  destruct (size path =? 1) eqn:E1; [eauto|].
  assert (Hlen : 1 <= size path).
  { destruct path; [discriminate E0|]. rewrite size_cons. pose proof (size_nonneg path). lia. }
  destruct (negb (Ascii.eqb (at_ path 1) "/")).
  - destruct (find path "/" 0 =? npos) eqn:Ef.
    + destruct (substr_returns path 1 npos Hlen) as [user ->]. cbn [obind].
      destruct (pw_dir_of h !! user); eauto.
    + destruct (substr_returns path 1 (wsub (find path "/" 0) 1) Hlen) as [user ->].
      cbn [obind]. destruct (pw_dir_of h !! user); [|eauto]. cbn [negb].
      apply Z.eqb_neq in Ef.
      destruct (find_below_npos path "/" 0 ltac:(lia) ltac:(rewrite npos_value; lia) Ef)
        as [Hrange _].
      destruct (substr_returns path (find path "/" 0) npos ltac:(lia)) as [tail ->].
      cbn [obind]. eauto.
  - destruct (substr_returns path 1 npos Hlen) as [tail ->]. cbn [obind]. eauto.
Qed.

Lemma detectFromEnvironment_returns (h : Host) :
  (forall shellPath, getenv h (lit "SHELL") = Some shellPath -> size shellPath < npos) ->
  exists shell, detectFromEnvironment h = Returns shell.
Proof.
  intros Hsz. unfold detectFromEnvironment.
  destruct (getenv h (lit "BASH_VERSION")); [eauto|].
  destruct (getenv h (lit "ZSH_VERSION")); [eauto|].
  destruct (getenv h (lit "FISH_VERSION")); [eauto|].
  destruct (getenv h (lit "SHELL")) as [shellPath|]; [|eauto].
  cbv zeta. rewrite after_last_slash by now apply Hsz. cbn [obind].
  repeat match goal with |- context [if ?b then _ else _] => destruct b end; eauto.
Qed.

(** What the loop of [detectFromConfigFiles] gives. *)
Lemma first_config_outcome (h : Host) (home : list ascii) (configs : list (Shell * list ascii)) :
  (scan_throws (disk h) (map (fun c => home ++ lit "/" ++ snd c) configs) = true /\
   first_config h home configs = Throws (lit "filesystem error: cannot get file status")) \/
  (scan_throws (disk h) (map (fun c => home ++ lit "/" ++ snd c) configs) = false /\
   exists shell, first_config h home configs = Returns shell).
Proof.
  induction configs as [|[shell config] rest IH]; [right; split; [reflexivity | eauto]|].
  cbn [map snd scan_throws first_config]. cbv zeta.
  unfold exists_, MoreEffects.present.
  destruct (Sys.files (disk h) !! (home ++ lit "/" ++ config)) as [f|];
    [rewrite (bool_decide_eq_true_2 (is_Some (Some f))) by eauto; cbn [orb obind];
     right; split; [reflexivity | eauto]|].
  rewrite (bool_decide_eq_false_2 (is_Some None)) by (intros [? ?]; discriminate).
  destruct (Sys.dirs (disk h) !! (home ++ lit "/" ++ config)) as [d|];
    [rewrite (bool_decide_eq_true_2 (is_Some (Some d))) by eauto; cbn [orb obind];
     right; split; [reflexivity | eauto]|].
  rewrite (bool_decide_eq_false_2 (is_Some None)) by (intros [? ?]; discriminate).
  cbn [orb].
  destruct (bool_decide (home ++ lit "/" ++ config ∈ Sys.status_unreadable (disk h)));
    cbn [obind]; [left; split; reflexivity | exact IH].
Qed.

(** X23: [detectShell] never answers UNKNOWN. It throws in one case only:
    the environment does not decide and, looking for the configuration
    files, [fs::exists] meets a path whose status cannot be read before one
    that is there (nothing catches the exception). In every other case it
    returns; when the environment decides, its answer is the one given and
    nothing is printed; a warning is printed only with the BASH fallback. *)
Theorem detectShell_never_unknown (h : Host)
  (Hsz : forall shellPath, getenv h (lit "SHELL") = Some shellPath -> size shellPath < npos) :
  let throwing :=
    detectFromEnvironment h = Returns UNKNOWN /\
    scan_throws (disk h) (config_paths h) = true in
  (throwing -> detectShell h = Throws (lit "filesystem error: cannot get file status")) /\
  (~ throwing ->
   exists shell out,
     detectShell h = Returns (shell, out) /\ shell <> UNKNOWN /\
     (forall fromEnv, detectFromEnvironment h = Returns fromEnv -> fromEnv <> UNKNOWN ->
                      shell = fromEnv /\ out = []) /\
     (out <> [] -> shell = BASH)).
Proof.
  cbv zeta.
  destruct (detectFromEnvironment_returns h Hsz) as [fromEnv Henv].
  unfold detectShell. rewrite Henv. cbn [obind].
  assert (Hdone : forall shell : Shell, shell <> UNKNOWN -> shell = fromEnv ->
            exists shell' out,
              Returns (shell, @nil ascii) = Returns (shell', out) /\ shell' <> UNKNOWN /\
              (forall fromEnv', Returns fromEnv = Returns fromEnv' -> fromEnv' <> UNKNOWN ->
                                shell' = fromEnv' /\ out = []) /\
              (out <> [] -> shell' = BASH)).
  { intros shell Hne Heq. exists shell, []. repeat split; try assumption; try congruence. }
  destruct fromEnv; cbn [is_unknown negb];
    try (split; [intros [H _]; discriminate H | intros _; apply Hdone; [discriminate | reflexivity]]).
  assert (Hother : forall (shell : Shell) (out : list ascii),
            shell <> UNKNOWN -> (out <> [] -> shell = BASH) ->
            exists shell' out',
              Returns (shell, out) = Returns (shell', out') /\ shell' <> UNKNOWN /\
              (forall fromEnv', Returns UNKNOWN = Returns fromEnv' -> fromEnv' <> UNKNOWN ->
                                shell' = fromEnv' /\ out' = []) /\
              (out' <> [] -> shell' = BASH)).
  { intros shell out Hne Hout. exists shell, out. repeat split; try assumption; congruence. }
  unfold detectFromConfigFiles. rewrite expandHome_tilde. cbn [obind]. cbv zeta.
  change (config_paths h)
    with (map (fun c : Shell * list ascii =>
                 match home_of h with Some dir => dir | None => lit "~" end ++ lit "/" ++ snd c)
              [(BASH, BASHRC); (ZSH, ZSHRC); (FISH, FISH_CONFIG)]).
  destruct (first_config_outcome h match home_of h with Some dir => dir | None => lit "~" end
              [(BASH, BASHRC); (ZSH, ZSHRC); (FISH, FISH_CONFIG)])
    as [[Hscan ->]|[Hscan (found & ->)]]; rewrite Hscan; cbn [obind].
  { split; [reflexivity | intros H; exfalso; apply H; now split]. }
  split; [intros [_ H]; discriminate H | intros _].
  destruct found; cbn [is_unknown negb];
    try (apply Hother; [discriminate | congruence]).
  destruct (negb (Str.eqb (getParentProcess h) [])).
  - destruct (negb (find_str _ (lit "zsh") =? npos));
      [apply Hother; [discriminate | congruence]|].
    destruct (negb (find_str _ (lit "bash") =? npos));
      [apply Hother; [discriminate | congruence]|].
    destruct (negb (find_str _ (lit "fish") =? npos));
      [apply Hother; [discriminate | congruence]|].
    destruct (getenv h (lit "SHELL")); apply Hother; (discriminate || reflexivity || congruence).
  - destruct (getenv h (lit "SHELL")); apply Hother; (discriminate || reflexivity || congruence).
Qed.

End Detection.

(** ** The two answers to "where is the configuration file" *)

Section ConfigPath.
Import Str Cxx Posix ShellDetector DetectorWords.

(** X24: for BASH, ZSH and FISH, [ConfigFileHandler::getConfigFilePath]
    ignores the path the handler was made with and answers what
    [ShellDetector::getConfigFilePath] answers for the shell; for UNKNOWN it
    answers the handler's own path, where the detector answers the empty
    string. Neither throws, and neither changes anything. *)
Theorem getConfigFilePath_agrees (s : ConfigFileHandler.State) :
  match ConfigFileHandler.shell (ConfigFileHandler.this s) with
  | UNKNOWN =>
      ConfigFileHandler.getConfigFilePath s
      = (Returns (ConfigFileHandler.configFilePath (ConfigFileHandler.this s)), s) /\
      ShellDetectorImpl.getConfigFilePath (ConfigFileHandler.host s) UNKNOWN = Returns []
  | shell =>
      exists path,
        ShellDetectorImpl.getConfigFilePath (ConfigFileHandler.host s) shell = Returns path /\
        ConfigFileHandler.getConfigFilePath s = (Returns path, s)
  end.
Proof.
  unfold ConfigFileHandler.getConfigFilePath, ShellDetectorImpl.getConfigFilePath.
  rewrite expandHome_tilde. cbn [obind].
  unfold IO.bind, ConfigFileHandler.get_this, ConfigFileHandler.get_host, IO.lift, IO.ret.
  unfold ShellDetectorImpl.expandHome. fold (home_of (ConfigFileHandler.host s)).
  destruct (ConfigFileHandler.shell (ConfigFileHandler.this s));
    try (split; reflexivity);
    destruct (home_of (ConfigFileHandler.host s)) as [home|];
    eexists; (split; [reflexivity|]); reflexivity.
Qed.

End ConfigPath.

(** ** Lines of a stream *)

Section Lines.
Import Str Cxx AliasManager Spec HandlerWords.

Lemma read_line_rest (s : list ascii) : (length (snd (read_line s)) <= length s)%nat.
Proof.
  induction s as [|c s IH]; [reflexivity|]. cbn [read_line].
  destruct (Ascii.eqb c newline); cbn [snd length]; [lia|].
  destruct (read_line s) as [line rest]. cbn [snd] in *. lia.
Qed.

Lemma read_line_line (s : list ascii) :
  ~ In newline (fst (read_line s)) /\ (length (fst (read_line s)) <= length s)%nat.
Proof.
  induction s as [|c s [IH1 IH2]]; [split; [intros [] | reflexivity]|]. cbn [read_line].
  destruct (Ascii.eqb_spec c newline) as [->|Hc]; cbn [fst]; [split; [intros [] | simpl; lia]|].
  destruct (read_line s) as [line rest]. cbn [fst length] in *.
  split; [intros [H|H]; [congruence | contradiction] | lia].
Qed.

Lemma getlines_from_nil (rounds : nat) : getlines_from rounds [] = [].
Proof. now destruct rounds. Qed.

(** More rounds than characters change nothing. *)
Lemma getlines_from_enough (rounds : nat) :
  forall s, (length s <= rounds)%nat -> getlines_from rounds s = getlines s.
Proof.
  unfold getlines. induction rounds as [rounds IH] using lt_wf_ind. intros s Hlen.
  destruct s as [|c s]; [apply getlines_from_nil|].
  destruct rounds as [|rounds]; [simpl in Hlen; lia|].
  cbn [length getlines_from getline].
  pose proof (read_line_rest (c :: s)) as Hrest.
  assert (Hshort : (length (snd (read_line (c :: s))) <= length s)%nat).
  { cbn [read_line]. destruct (Ascii.eqb c newline); cbn [snd]; [lia|].
    pose proof (read_line_rest s). destruct (read_line s). cbn [snd] in *. lia. }
  destruct (read_line (c :: s)) as [line rest]. cbn [snd length] in *. f_equal.
  rewrite (IH rounds) by lia. rewrite (IH (length s)) by (simpl in Hlen; lia). reflexivity.
Qed.

Lemma getlines_cons (c : ascii) (s : list ascii) :
  getlines (c :: s)
  = fst (read_line (c :: s)) :: getlines (snd (read_line (c :: s))).
Proof.
  unfold getlines at 1. cbn [length getlines_from getline].
  pose proof (read_line_rest (c :: s)) as Hrest.
  assert (Hshort : (length (snd (read_line (c :: s))) <= length s)%nat).
  { cbn [read_line]. destruct (Ascii.eqb c newline); cbn [snd]; [lia|].
    pose proof (read_line_rest s). destruct (read_line s). cbn [snd] in *. lia. }
  destruct (read_line (c :: s)) as [line rest]. cbn [fst snd] in *.
  now rewrite getlines_from_enough.
Qed.

Lemma read_line_app (line rest : list ascii) :
  ~ In newline line -> read_line (line ++ newline :: rest) = (line, rest).
Proof.
  induction line as [|c line IH]; intros H; cbn [app read_line].
  - now rewrite Ascii.eqb_refl.
  - destruct (Ascii.eqb_spec c newline) as [->|_]; [exfalso; apply H; now left|].
    rewrite IH by (intros Hin; apply H; now right). reflexivity.
Qed.

Lemma read_line_plain (line : list ascii) :
  ~ In newline line -> read_line line = (line, []).
Proof.
  induction line as [|c line IH]; intros H; cbn [read_line]; [reflexivity|].
  destruct (Ascii.eqb_spec c newline) as [->|_]; [exfalso; apply H; now left|].
  rewrite IH by (intros Hin; apply H; now right). reflexivity.
Qed.

(** A line that ends in a newline is read as it is. *)
Lemma getlines_line (line rest : list ascii) :
  ~ In newline line -> getlines (line ++ newline :: rest) = line :: getlines rest.
Proof.
  intros H. destruct (line ++ newline :: rest) as [|c s] eqn:E.
  - destruct line; discriminate.
  - now rewrite getlines_cons, <- E, read_line_app.
Qed.

(** What is left at the end of the input without a newline is a line when
    it is not empty. *)
Lemma getlines_plain (line : list ascii) :
  ~ In newline line -> getlines line = match line with [] => [] | _ => [line] end.
Proof.
  intros H. destruct line as [|c s] eqn:E; [reflexivity|].
  rewrite getlines_cons, <- E, read_line_plain by (now rewrite E). reflexivity.
Qed.

(** The lines read hold no newline and are no longer than the input. *)
Lemma getlines_lines (s : list ascii) :
  Forall (fun line => ~ In newline line /\ size line <= size s) (getlines s).
Proof.
  remember (length s) as n eqn:Hn. revert s Hn.
  induction n as [n IH] using lt_wf_ind. intros s Hn.
  destruct s as [|c s]; [constructor|]. rewrite getlines_cons.
  pose proof (read_line_line (c :: s)) as [Hline Hlen].
  pose proof (read_line_rest (c :: s)) as Hrest.
  assert (Hshort : (length (snd (read_line (c :: s))) <= length s)%nat).
  { cbn [read_line]. destruct (Ascii.eqb c newline); cbn [snd]; [lia|].
    pose proof (read_line_rest s). destruct (read_line s). cbn [snd] in *. lia. }
  constructor.
  - split; [assumption|]. unfold size. lia.
  - assert (Hrec : Forall (fun line => ~ In newline line /\
                                        size line <= size (snd (read_line (c :: s))))
                     (getlines (snd (read_line (c :: s))))).
    { apply (IH (length (snd (read_line (c :: s))))); [subst n; cbn [length]; lia | reflexivity]. }
    revert Hrec. apply List.Forall_impl.
    intros line [H1 H2]. split; [assumption|].
    unfold size in *. cbn [length]. lia.
Qed.

Lemma write_lines_join (lines : list (list ascii)) (n : Z) :
  forall (i : Z) (out : list ascii),
    0 <= i -> i + Z.of_nat (length lines) = n -> n < two64 ->
    ConfigFileHandler.write_lines lines i n out = out ++ join_lines lines.
Proof.
  induction lines as [|line rest IH]; intros i out Hi Hn Hmax;
    cbn [ConfigFileHandler.write_lines]; [now rewrite app_nil_r|].
  cbn [length] in Hn.
  rewrite wsub_small, wadd_small by lia.
  rewrite IH by lia.
  destruct rest as [|line2 rest].
  - cbn [length] in Hn. destruct (i <? n - 1) eqn:E; [apply Z.ltb_lt in E; lia|].
    cbn [join_lines]. now rewrite app_nil_r.
  - cbn [length] in Hn. destruct (i <? n - 1) eqn:E; [|apply Z.ltb_ge in E; lia].
    cbn [join_lines]. rewrite <- !app_assoc. reflexivity.
Qed.

(** Reading back what [writeAllLines] sends gives the lines, less the last
    one when it is empty. *)
Lemma getlines_join (lines : list (list ascii)) :
  Forall (fun line => ~ In newline line) lines ->
  getlines (join_lines lines) = drop_last_empty lines.
Proof.
  induction 1 as [|line rest Hline Hrest IH]; [reflexivity|].
  destruct rest as [|line2 rest].
  - cbn [join_lines drop_last_empty]. rewrite getlines_plain by assumption.
    now destruct line.
  - change (join_lines (line :: line2 :: rest))
      with (line ++ newline :: join_lines (line2 :: rest)).
    rewrite getlines_line, IH by assumption. now destruct line.
Qed.

End Lines.

(** ** The configuration file handler *)

Section Handler.
Import Str Sys Cxx Posix AliasManager Spec HandlerWords HandlerEffects.
Import ConfigFileHandler.

Lemma touches_only_refl (path : list ascii) (h : Host) : touches_only path h h.
Proof. repeat split. - now destruct h. - now destruct h as [[] ?]. Qed.

Lemma touches_only_trans (path : list ascii) (a b c : Host) :
  touches_only path a b -> touches_only path b c -> touches_only path a c.
Proof.
  intros (H1 & H2 & H3) (H4 & H5 & H6). split; [|split].
  - rewrite <- H1 at 3. rewrite <- H4. reflexivity.
  - rewrite <- H2 at 2. rewrite <- H5. reflexivity.
  - intros q Hq. destruct (H3 q Hq) as [E1 E2], (H6 q Hq) as [E3 E4]. split; congruence.
Qed.

Lemma touches_set_file (h : Host) (path : list ascii) (f : file) :
  touches_only path h (set_file h path f).
Proof.
  split; [now destruct h|]. split; [now destruct h as [[] ?]|].
  intros q Hq. split; [|reflexivity]. unfold set_file. cbn.
  now rewrite lookup_insert_ne.
Qed.

Lemma touches_create_file (h : Host) (path : list ascii) :
  touches_only path h (create_file h path).
Proof.
  split; [now destruct h|]. split; [now destruct h as [[] ?]|].
  intros q Hq. unfold create_file, set_file. cbn. split.
  - now rewrite lookup_insert_ne.
  - unfold Str.eqb. now rewrite bool_decide_eq_false_2.
Qed.

(** When a stream opens for writing. *)
Lemma ofstream_opens (h : Host) (path : list ascii) :
  ((path ∈ write_denied h) \/ is_Some (dirs (disk h) !! path) ->
   ofstream_trunc h path = None /\ ofstream_app h path = None) /\
  (path ∉ write_denied h -> dirs (disk h) !! path = None ->
   (exists h1,
      ofstream_trunc h path = Some h1 /\ touches_only path h h1 /\
      files (disk h1) !! path = Some (mkFile (now (disk h)) (Plain []))) /\
   (exists h1 f1,
      ofstream_app h path = Some h1 /\ touches_only path h h1 /\
      files (disk h1) !! path = Some f1 /\
      bytes_of h1 (content f1) = current_bytes h path)).
Proof.
  unfold ofstream_trunc, ofstream_app, current_bytes. split.
  - intros [H|H].
    + now rewrite (bool_decide_eq_true_2 _ H).
    + rewrite (bool_decide_eq_true_2 (is_Some _) H). now rewrite orb_true_r.
  - intros Hw Hd. rewrite (bool_decide_eq_false_2 _ Hw), Hd.
    rewrite bool_decide_eq_false_2 by (intros [? ?]; discriminate). cbn [orb].
    destruct (files (disk h) !! path) as [f|] eqn:Ef; split.
    + eexists. split; [reflexivity|]. split; [apply touches_set_file|].
      unfold set_file. cbn. apply lookup_insert_eq.
    + exists h, f. split; [reflexivity|]. split; [apply touches_only_refl|]. split; [assumption | reflexivity].
    + eexists. split; [reflexivity|]. split; [apply touches_create_file|].
      unfold create_file, set_file. cbn. apply lookup_insert_eq.
    + eexists _, _. split; [reflexivity|]. split; [apply touches_create_file|].
      split; [unfold create_file, set_file; cbn; apply lookup_insert_eq | reflexivity].
Qed.

(** What a write leaves in the file. *)
Lemma write_appends (h : Host) (path text : list ascii) (f : file) :
  files (disk h) !! path = Some f ->
  now (disk (write h path text)) = now (disk h) /\
  touches_only path h (write h path text) /\
  exists f2, files (disk (write h path text)) !! path = Some f2 /\
             bytes_of (write h path text) (content f2) = bytes_of h (content f) ++ text /\
             (text <> [] -> f2 = mkFile (now (disk h)) (Plain (bytes_of h (content f) ++ text))).
Proof.
  intros Hf. unfold write. rewrite Hf. destruct text as [|c text].
  - split; [reflexivity|]. split; [apply touches_only_refl|].
    exists f. rewrite app_nil_r. repeat split; [assumption | congruence].
  - split; [reflexivity|]. split; [apply touches_set_file|].
    eexists. split; [unfold set_file; cbn; apply lookup_insert_eq|]. split; reflexivity.
Qed.

(** [chmod] on a regular file changes its mode and nothing else. *)
Lemma chmod_file (h : Host) (path : list ascii) (mode : Z) (f : file) :
  files (disk h) !! path = Some f ->
  disk (fst (chmod h path mode)) = disk h /\
  xz_bytes (fst (chmod h path mode)) = xz_bytes h /\
  touches_only path h (fst (chmod h path mode)) /\
  (path ∉ chmod_denied h -> file_mode (fst (chmod h path mode)) path = mode).
Proof.
  intros Hf. unfold chmod. rewrite Hf.
  destruct (bool_decide (path ∈ chmod_denied h)) eqn:E; cbn [fst].
  - apply bool_decide_eq_true in E. split; [reflexivity|]. split; [reflexivity|].
    split; [apply touches_only_refl|]. intros Hn. now destruct Hn.
  - split; [reflexivity|]. split; [reflexivity|]. split.
    + split; [now destruct h|]. split; [now destruct h as [[] ?]|].
      intros q Hq. split; [reflexivity|]. cbn. unfold Str.eqb.
      now rewrite bool_decide_eq_false_2.
    + intros _. cbn. unfold Str.eqb. now rewrite bool_decide_eq_true_2.
Qed.

Lemma setFilePermissions_run (s : State) :
  setFilePermissions s
  = (Returns (snd (chmod (host s) (configFilePath (this s)) 420) =? 0),
     {| host := fst (chmod (host s) (configFilePath (this s)) 420); this := this s |}).
Proof.
  unfold setFilePermissions. hrun.
  change (Z.lor (Z.lor (Z.lor S_IRUSR S_IWUSR) S_IRGRP) S_IROTH) with 420.
  now destruct (chmod (host s) (configFilePath (this s)) 420).
Qed.

(** What [writeAllLines] does. *)
Lemma writeAllLines_run (lines : list (list ascii)) (s : State) :
  writeAllLines lines s
  = match ofstream_trunc (host s) (configFilePath (this s)) with
    | None =>
        (Returns false,
         {| host := host s;
            this := {| configFilePath := configFilePath (this s); shell := shell (this s);
                       lastError := lit "Cannot open file for writing";
                       aliasManager := aliasManager (this s) |} |})
    | Some h1 =>
        (Returns true,
         {| host := fst (chmod (write h1 (configFilePath (this s))
                                  (write_lines lines 0 (Z.of_nat (length lines)) []))
                           (configFilePath (this s)) 420);
            this := this s |})
    end.
Proof.
  unfold writeAllLines. hrun.
  destruct (ofstream_trunc (host s) (configFilePath (this s))) as [h1|]; hrun; [|reflexivity].
  rewrite setFilePermissions_run. reflexivity.
Qed.

Lemma touches_fields (path : list ascii) (h h2 : Host) :
  touches_only path h h2 ->
  read_denied h2 = read_denied h /\ write_denied h2 = write_denied h /\
  chmod_denied h2 = chmod_denied h /\ xz_bytes h2 = xz_bytes h /\
  now (disk h2) = now (disk h) /\ dirs (disk h2) = dirs (disk h).
Proof.
  intros (H1 & H2 & _).
  split; [exact (f_equal read_denied H1)|]. split; [exact (f_equal write_denied H1)|].
  split; [exact (f_equal chmod_denied H1)|]. split; [exact (f_equal xz_bytes H1)|].
  split; [exact (f_equal now H2) | exact (f_equal dirs H2)].
Qed.

(** Writing to an open stream, closing it and setting the mode. *)
Lemma stored (h1 : Host) (path text : list ascii) (f1 : file) :
  files (disk h1) !! path = Some f1 ->
  touches_only path h1 (fst (chmod (write h1 path text) path 420)) /\
  (exists f2,
     files (disk (fst (chmod (write h1 path text) path 420))) !! path = Some f2 /\
     bytes_of (fst (chmod (write h1 path text) path 420)) (content f2)
     = bytes_of h1 (content f1) ++ text) /\
  (path ∉ chmod_denied h1 -> file_mode (fst (chmod (write h1 path text) path 420)) path = 420).
Proof.
  intros Hf. destruct (write_appends h1 path text f1 Hf) as (_ & Ht & f2 & Hf2 & Hb & _).
  destruct (chmod_file (write h1 path text) path 420 f2 Hf2) as (Hd & Hx & Ht2 & Hm).
  split; [exact (touches_only_trans _ _ _ _ Ht Ht2)|]. split.
  - exists f2. rewrite Hd. split; [assumption|]. rewrite <- Hb.
    unfold bytes_of. now rewrite Hx.
  - intros Hc. apply Hm. destruct (touches_fields _ _ _ Ht) as (_ & _ & -> & _). assumption.
Qed.

Lemma exists_outcome (h : Host) (path : list ascii) :
  exists_ h path
  = if MoreEffects.status_throws (disk h) path
    then Throws (lit "filesystem error: cannot get file status")
    else Returns (MoreEffects.present (disk h) path).
Proof.
  unfold exists_, MoreEffects.status_throws, MoreEffects.present.
  rewrite !is_Some_decide.
  destruct (files (disk h) !! path), (dirs (disk h) !! path); reflexivity.
Qed.

Lemma exists_file (h : Host) (path : list ascii) (f : file) :
  files (disk h) !! path = Some f -> exists_ h path = Returns true.
Proof.
  intros H. unfold exists_. rewrite H. now rewrite bool_decide_eq_true_2 by eauto.
Qed.

Lemma ensureFileExists_run (s : State) :
  ensureFileExists s
  = match exists_ (host s) (configFilePath (this s)) with
    | Throws e => (Throws e, s)
    | Returns true => (Returns true, s)
    | Returns false =>
        match ofstream_trunc (host s) (configFilePath (this s)) with
        | None => (Returns false, s)
        | Some h1 =>
            (Returns true,
             {| host := fst (chmod h1 (configFilePath (this s)) 420); this := this s |})
        end
    end.
Proof.
  unfold ensureFileExists. hrun.
  destruct (exists_ (host s) (configFilePath (this s))) as [[|]|e]; [reflexivity| |reflexivity].
  destruct (ofstream_trunc (host s) (configFilePath (this s))) as [h1|]; hrun; [|reflexivity].
  rewrite setFilePermissions_run. reflexivity.
Qed.

(** What [writeAllLines] leaves. *)
Lemma writeAllLines_cases (lines : list (list ascii)) (s : State) :
  (((configFilePath (this s) ∈ write_denied (host s)) \/
    is_Some (dirs (disk (host s)) !! configFilePath (this s))) /\
   fst (writeAllLines lines s) = Returns false /\
   host (snd (writeAllLines lines s)) = host s /\
   lastError (this (snd (writeAllLines lines s))) <> []) \/
  ((configFilePath (this s) ∉ write_denied (host s)) /\
   dirs (disk (host s)) !! configFilePath (this s) = None /\
   exists h2 f2,
     writeAllLines lines s = (Returns true, {| host := h2; this := this s |}) /\
     touches_only (configFilePath (this s)) (host s) h2 /\
     files (disk h2) !! configFilePath (this s) = Some f2 /\
     bytes_of h2 (content f2) = write_lines lines 0 (Z.of_nat (length lines)) [] /\
     (configFilePath (this s) ∉ chmod_denied (host s) ->
      file_mode h2 (configFilePath (this s)) = 420)).
Proof.
  rewrite writeAllLines_run. set (p := configFilePath (this s)).
  destruct (ofstream_opens (host s) p) as [Hno Hyes].
  destruct (decide (p ∈ write_denied (host s))) as [Hw|Hw];
    [left; destruct (Hno (or_introl Hw)) as [-> _]; cbn; refused; now left|].
  destruct (dirs (disk (host s)) !! p) as [d|] eqn:Ed;
    [left; destruct (Hno (or_intror (ex_intro _ d eq_refl))) as [-> _]; cbn;
     refused; right; eauto|].
  right. split; [assumption|]. split; [reflexivity|].
  destruct (Hyes Hw eq_refl) as [(h1 & -> & Ht & Hf) _].
  destruct (stored h1 p (write_lines lines 0 (Z.of_nat (length lines)) []) _ Hf)
    as (Ht2 & (f2 & Hf2 & Hb) & Hm).
  eexists _, f2. split; [reflexivity|]. split; [exact (touches_only_trans _ _ _ _ Ht Ht2)|].
  split; [assumption|]. split; [exact Hb|].
  intros Hc. apply Hm. destruct (touches_fields _ _ _ Ht) as (_ & _ & -> & _). assumption.
Qed.

(** What [addAlias] leaves: a refusal, the exception of [fs::exists], or
    the line appended. *)
Lemma addAlias_cases (alias : Alias) (s : State) :
  ((validateAliasName (name alias) = false \/ validateCommand (command alias) = false \/
    (MoreEffects.status_throws (disk (host s)) (configFilePath (this s)) = false /\
     ((configFilePath (this s) ∈ write_denied (host s)) \/
      is_Some (dirs (disk (host s)) !! configFilePath (this s))))) /\
   fst (addAlias alias s) = Returns false /\
   host (snd (addAlias alias s)) = host s /\
   lastError (this (snd (addAlias alias s))) <> []) \/
  (validateAliasName (name alias) = true /\ validateCommand (command alias) = true /\
   MoreEffects.status_throws (disk (host s)) (configFilePath (this s)) = true /\
   addAlias alias s = (Throws (lit "filesystem error: cannot get file status"), s)) \/
  (validateAliasName (name alias) = true /\ validateCommand (command alias) = true /\
   MoreEffects.status_throws (disk (host s)) (configFilePath (this s)) = false /\
   (configFilePath (this s) ∉ write_denied (host s)) /\
   dirs (disk (host s)) !! configFilePath (this s) = None /\
   exists h2 f2,
     addAlias alias s = (Returns true, {| host := h2; this := this s |}) /\
     touches_only (configFilePath (this s)) (host s) h2 /\
     files (disk h2) !! configFilePath (this s) = Some f2 /\
     bytes_of h2 (content f2)
     = current_bytes (host s) (configFilePath (this s)) ++
       newline :: formatAlias (aliasManager (this s)) alias /\
     (configFilePath (this s) ∉ chmod_denied (host s) ->
      file_mode h2 (configFilePath (this s)) = 420)).
Proof.
  unfold addAlias. hrun. set (p := configFilePath (this s)).
  destruct (validateAliasName (name alias)) eqn:En;
    [|left; cbn; refused; now left].
  destruct (validateCommand (command alias)) eqn:Ec;
    [|left; cbn; refused; right; now left].
  cbn [negb orb]. rewrite ensureFileExists_run. fold p. rewrite exists_outcome.
  destruct (MoreEffects.status_throws (disk (host s)) p) eqn:Est.
  { right. left. hrun. repeat split. }
  destruct (ofstream_opens (host s) p) as [Hno Hyes].
  destruct (decide (p ∈ write_denied (host s))) as [Hw|Hw].
  { left. destruct (Hno (or_introl Hw)) as [E1 E2].
    split; [right; right; split; [reflexivity | now left]|].
    destruct (MoreEffects.present (disk (host s)) p);
      hrun; cbn [negb]; hrun; rewrite ?E1, ?E2; hrun; cbn;
      (split; [reflexivity|split; [reflexivity|discriminate]]). }
  destruct (dirs (disk (host s)) !! p) as [d|] eqn:Ed.
  { left. destruct (Hno (or_intror (ex_intro _ d eq_refl))) as [E1 E2].
    split; [right; right; split; [reflexivity | right; eauto]|].
    destruct (MoreEffects.present (disk (host s)) p);
      hrun; cbn [negb]; hrun; rewrite ?E1, ?E2; hrun; cbn;
      (split; [reflexivity|split; [reflexivity|discriminate]]). }
  right. right. split; [reflexivity|]. split; [reflexivity|]. split; [reflexivity|].
  split; [assumption|]. split; [reflexivity|].
  destruct (Hyes Hw eq_refl) as [(h1 & E1 & Ht1 & Hf1) (h1' & f1' & E2 & Ht1' & Hf1' & Hb1')].
  unfold MoreEffects.present. rewrite Ed.
  destruct (files (disk (host s)) !! p) as [f|] eqn:Ef.
  - hrun. cbn [negb]. hrun. fold p. rewrite E2. hrun.
    rewrite setFilePermissions_run. hrun. fold p.
    destruct (stored h1' p ([newline] ++ formatAlias (aliasManager (this s)) alias) _ Hf1')
      as (Ht2 & (f2 & Hf2 & Hb) & Hm).
    eexists _, f2. split; [reflexivity|]. split; [exact (touches_only_trans _ _ _ _ Ht1' Ht2)|].
    split; [assumption|]. split; [now rewrite Hb, Hb1'|].
    intros Hc. apply Hm. destruct (touches_fields _ _ _ Ht1') as (_ & _ & -> & _). assumption.
  - rewrite E1. hrun. cbn [negb]. hrun. fold p.
    destruct (chmod_file h1 p 420 _ Hf1) as (Hd1 & Hx1 & Htc & _).
    set (h1c := fst (chmod h1 p 420)) in *.
    assert (Hfc : files (disk h1c) !! p = Some (mkFile (now (disk (host s))) (Plain [])))
      by now rewrite Hd1.
    assert (Htot : touches_only p (host s) h1c) by exact (touches_only_trans _ _ _ _ Ht1 Htc).
    destruct (touches_fields _ _ _ Htot) as (_ & Hwd & Hcd & _ & _ & Hdd).
    destruct (ofstream_opens h1c p) as [_ Hyes2].
    destruct (Hyes2 ltac:(now rewrite Hwd) ltac:(now rewrite Hdd))
      as [_ (h3 & f3 & E3 & Ht3 & Hf3 & Hb3)].
    rewrite E3. hrun. rewrite setFilePermissions_run. hrun. fold p.
    destruct (stored h3 p ([newline] ++ formatAlias (aliasManager (this s)) alias) _ Hf3)
      as (Ht4 & (f4 & Hf4 & Hb4) & Hm).
    eexists _, f4. split; [reflexivity|].
    split; [exact (touches_only_trans _ _ _ _ Htot (touches_only_trans _ _ _ _ Ht3 Ht4))|].
    split; [assumption|]. split.
    + rewrite Hb4, Hb3. unfold current_bytes. now rewrite Hfc, Ef.
    + intros Hc. apply Hm. destruct (touches_fields _ _ _ Ht3) as (_ & _ & -> & _).
      now rewrite Hcd.
Qed.

Lemma parseAliasLine_returns (line : list ascii) :
  size line < npos -> exists r, parseAliasLine line = Returns r.
Proof.
  intros Hsz.
  destruct (parseAliasLine_cases line Hsz)
    as [[_ H]|[(lead & rest & _ & _ & _ & _ & H)|(lead & n & rest & Hl & _ & _ & _ & H)]];
    rewrite H; eauto.
  destruct (trim_hws n) as [|c nm]; [eauto|].
  rewrite Hl in Hsz. apply size_after_equals in Hsz.
  destruct (parse_command_returns (set_name Alias_default (c :: nm)) rest Hsz) as (r & Hr & _).
  eauto.
Qed.

(** The loop of [loadAliases] collects the records of the lines. *)
Lemma load_lines_spec (lines : list (list ascii)) :
  Forall (fun line => size line < npos) lines ->
  forall acc, load_lines lines acc = Returns (acc ++ aliases_of_lines lines).
Proof.
  induction 1 as [|line rest Hline Hrest IH]; intros acc; cbn [load_lines].
  - unfold aliases_of_lines. cbn. now rewrite app_nil_r.
  - rewrite (isAliasLine_decides line Hline). cbn [obind].
    change (aliases_of_lines (line :: rest))
      with (match parseAliasLine line with
            | Returns parsed => if Str.eqb (name parsed) [] then [] else [parsed]
            | Throws _ => []
            end ++ aliases_of_lines rest).
    destruct (bool_decide (firstn 5 (skip_hws line) = lit "alias")) eqn:E.
    + destruct (parseAliasLine_returns line Hline) as (r & ->). cbn [obind].
      rewrite IH. destruct (Str.eqb (name r) []); cbn [negb]; now rewrite <- ?app_assoc.
    + apply bool_decide_eq_false in E.
      rewrite (parseAliasLine_not_alias line Hline E). cbn [obind]. now rewrite IH.
Qed.

(** The loop of [removeAlias] drops the lines that define the name. *)
Lemma remove_lines_spec (aliasName : list ascii) (lines : list (list ascii)) :
  Forall (fun line => size line < npos) lines ->
  forall found newLines,
    remove_lines lines aliasName found newLines
    = Returns (found || existsb (defines aliasName) lines,
               newLines ++ List.filter (fun line => negb (defines aliasName line)) lines).
Proof.
  induction 1 as [|line rest Hline Hrest IH]; intros found newLines; cbn [remove_lines].
  - cbn. now rewrite orb_false_r, app_nil_r.
  - cbn [existsb List.filter]. unfold defines at 1 3.
    rewrite (isAliasLine_decides line Hline). cbn [obind].
    destruct (bool_decide (firstn 5 (skip_hws line) = lit "alias")) eqn:E.
    + destruct (parseAliasLine_returns line Hline) as (r & ->). cbn [obind].
      destruct (Str.eqb (name r) aliasName); cbn [negb]; rewrite IH.
      * now rewrite orb_true_r.
      * now rewrite <- app_assoc.
    + cbn [obind negb]. rewrite IH. destruct (parseAliasLine line); now rewrite <- app_assoc.
Qed.

(** Dropping the lines that define a name drops the records of that name. *)
Lemma aliases_of_kept_lines (aliasName : list ascii) (lines : list (list ascii)) :
  Forall (fun line => size line < npos) lines ->
  aliases_of_lines (List.filter (fun line => negb (defines aliasName line)) lines)
  = List.filter (fun a => negb (Str.eqb (name a) aliasName)) (aliases_of_lines lines).
Proof.
  induction 1 as [|line rest Hline Hrest IH]; [reflexivity|].
  change (aliases_of_lines (line :: rest))
    with (match parseAliasLine line with
          | Returns parsed => if Str.eqb (name parsed) [] then [] else [parsed]
          | Throws _ => []
          end ++ aliases_of_lines rest).
  rewrite List.filter_app, <- IH. cbn [List.filter]. unfold defines at 1.
  rewrite (isAliasLine_decides line Hline).
  destruct (bool_decide (firstn 5 (skip_hws line) = lit "alias")) eqn:E.
  - destruct (parseAliasLine_returns line Hline) as (r & Hr). rewrite Hr.
    destruct (Str.eqb (name r) aliasName) eqn:En; cbn [negb].
    + destruct (Str.eqb (name r) []); cbn [List.filter app]; [reflexivity|].
      now rewrite En.
    + change (aliases_of_lines (line :: ?l)) with
        (match parseAliasLine line with
         | Returns parsed => if Str.eqb (name parsed) [] then [] else [parsed]
         | Throws _ => []
         end ++ aliases_of_lines l).
      unfold aliases_of_lines at 1. cbn [flat_map]. rewrite Hr.
      destruct (Str.eqb (name r) []); cbn [List.filter app]; [reflexivity|].
      now rewrite En.
  - apply bool_decide_eq_false in E. cbn [negb].
    unfold aliases_of_lines at 1. cbn [flat_map].
    now rewrite (parseAliasLine_not_alias line Hline E).
Qed.

Lemma existsb_defines (aliasName : list ascii) (lines : list (list ascii)) :
  Forall (fun line => size line < npos) lines ->
  (exists a, In a (aliases_of_lines lines) /\ name a = aliasName) ->
  existsb (defines aliasName) lines = true.
Proof.
  intros Hall (a & Hin & Hname). unfold aliases_of_lines in Hin.
  apply in_flat_map in Hin. destruct Hin as (line & Hline & Ha).
  apply existsb_exists. exists line. split; [assumption|].
  rewrite List.Forall_forall in Hall. specialize (Hall line Hline).
  unfold defines. rewrite (isAliasLine_decides line Hall).
  destruct (bool_decide (firstn 5 (skip_hws line) = lit "alias")) eqn:E.
  - destruct (parseAliasLine line) as [r|]; [|destruct Ha].
    destruct (Str.eqb (name r) []); [destruct Ha|]. destruct Ha as [->|[]].
    unfold Str.eqb. now apply bool_decide_eq_true.
  - apply bool_decide_eq_false in E.
    rewrite (parseAliasLine_not_alias line Hall E) in Ha. destruct Ha.
Qed.

Lemma aliases_of_lines_app (a b : list (list ascii)) :
  aliases_of_lines (a ++ b) = aliases_of_lines a ++ aliases_of_lines b.
Proof. unfold aliases_of_lines. apply flat_map_app. Qed.

Lemma aliases_of_empty_line : aliases_of_lines [[]] = [].
Proof. reflexivity. Qed.

Lemma aliases_of_lines_cons (line : list ascii) (rest : list (list ascii)) :
  aliases_of_lines (line :: rest) = aliases_of_lines [line] ++ aliases_of_lines rest.
Proof. exact (aliases_of_lines_app [line] rest). Qed.

Lemma drop_last_empty_cons (line line2 : list ascii) (rest : list (list ascii)) :
  drop_last_empty (line :: line2 :: rest) = line :: drop_last_empty (line2 :: rest).
Proof. now destruct line. Qed.

Lemma aliases_drop_last_empty (lines : list (list ascii)) :
  aliases_of_lines (drop_last_empty lines) = aliases_of_lines lines.
Proof.
  induction lines as [|line rest IH]; [reflexivity|].
  destruct rest as [|line2 rest]; [now destruct line|].
  rewrite drop_last_empty_cons, aliases_of_lines_cons, IH.
  symmetry. apply aliases_of_lines_cons.
Qed.

(** The lines are no more than the characters. *)
Lemma getlines_count (s : list ascii) : (length (getlines s) <= length s)%nat.
Proof.
  remember (length s) as n eqn:Hn. revert s Hn.
  induction n as [n IH] using lt_wf_ind. intros s Hn.
  destruct s as [|c s]; [subst; cbn; lia|]. rewrite getlines_cons. cbn [length].
  pose proof (read_line_rest (c :: s)) as Hrest.
  assert (Hshort : (length (snd (read_line (c :: s))) <= length s)%nat).
  { cbn [read_line] in *. destruct (Ascii.eqb c newline); cbn [snd length] in *; [lia|].
    destruct (read_line s) as [line rest] eqn:E. cbn [snd].
    pose proof (read_line_rest s) as H. rewrite E in H. exact H. }
  cbn [length] in Hn.
  specialize (IH (length (snd (read_line (c :: s)))) ltac:(lia) _ eq_refl). lia.
Qed.

(** The lines of a text that has a newline put after it and more text: a
    text that is empty or ends with a newline gives one empty line more. *)
Lemma getlines_app_newline (old rest : list ascii) :
  exists pad, (pad = [] \/ pad = [[]]) /\
              getlines (old ++ newline :: rest) = getlines old ++ pad ++ getlines rest.
Proof.
  remember (length old) as n eqn:Hn. revert old Hn.
  induction n as [n IH] using lt_wf_ind. intros old Hn.
  destruct old as [|c old'] eqn:Eold.
  - exists [[]]. split; [now right|]. exact (getlines_line [] rest (fun H => H)).
  - rewrite <- Eold in *. destruct (in_dec ascii_dec newline old) as [Hin|Hfree].
    + destruct (first_occurrence _ _ Hin) as (l & r & Hsplit & Hl).
      destruct (IH (length r) ltac:(subst n; rewrite Hsplit, length_app; cbn; lia) r eq_refl)
        as (pad & Hpad & Hr).
      exists pad. split; [assumption|].
      rewrite Hsplit at 1. rewrite <- app_assoc. cbn [app].
      rewrite (getlines_line l _ Hl), Hr. rewrite Hsplit at 1.
      now rewrite (getlines_line l _ Hl).
    + exists []. split; [now left|].
      rewrite (getlines_line old rest Hfree), (getlines_plain old Hfree).
      rewrite Eold. reflexivity.
Qed.

Lemma later_char_not_newline (c : ascii) : later_char_ok c -> c <> newline.
Proof.
  intros H ->. unfold later_char_ok, is_letter, is_digit in H.
  change (nat_of_ascii newline) with 10%nat in H.
  change newline with "010"%char in H.
  destruct H as [[H|H]|[H|[H|H]]]; try lia; discriminate.
Qed.

(** The line written for a record holds a newline only if the command
    does. *)
Lemma formatAlias_one_line (self : AliasManager.t) (r : Alias) :
  ~ In newline (command r) -> ~ In newline (formatAlias self r).
Proof.
  intros Hc. unfold formatAlias.
  destruct (validateAliasName (name r)) eqn:Hn; [|intros []].
  destruct (validateCommand (command r)); [|intros []]. cbn [negb orb].
  apply validateAliasName_spec, conforming_chars in Hn. destruct Hn as [_ Hn].
  assert (Hname : ~ In newline (name r)).
  { intros Hin. rewrite List.Forall_forall in Hn. now apply (later_char_not_newline _ (Hn _ Hin)). }
  assert (Hesc : ~ In newline (escapeCommand (command r))) by (now apply escape_keeps_free).
  destruct (currentShell self); [| | |];
    try destruct (negb (find (command r) squote 0 =? npos));
    rewrite ?in_app_iff; cbn; intuition discriminate.
Qed.

Lemma ifstream_file (h : Host) (path : list ascii) (f : file) :
  files (disk h) !! path = Some f -> path ∉ read_denied h ->
  ifstream h path = Some (bytes_of h (content f)).
Proof.
  intros Hf Hr. unfold ifstream. now rewrite (bool_decide_eq_false_2 _ Hr), Hf.
Qed.

Lemma lines_short (bytes : list ascii) :
  size bytes < npos -> Forall (fun line => size line < npos) (getlines bytes).
Proof.
  intros Hsz. pose proof (getlines_lines bytes) as H. revert H.
  apply List.Forall_impl. intros line [_ Hl]. lia.
Qed.

Lemma loadAliases_file (s : State) (f : file) :
  files (disk (host s)) !! configFilePath (this s) = Some f ->
  configFilePath (this s) ∉ read_denied (host s) ->
  size (bytes_of (host s) (content f)) < npos ->
  loadAliases s = (Returns (aliases_of_lines (getlines (bytes_of (host s) (content f)))), s).
Proof.
  intros Hf Hr Hsz. unfold loadAliases. hrun.
  rewrite (exists_file _ _ _ Hf). cbn [negb]. hrun.
  rewrite (ifstream_file _ _ _ Hf Hr). hrun.
  now rewrite (load_lines_spec _ (lines_short _ Hsz)).
Qed.

Lemma readAllLines_file (s : State) (f : file) :
  files (disk (host s)) !! configFilePath (this s) = Some f ->
  configFilePath (this s) ∉ read_denied (host s) ->
  readAllLines s = (Returns (getlines (bytes_of (host s) (content f))), s).
Proof.
  intros Hf Hr. unfold readAllLines. hrun. now rewrite (ifstream_file _ _ _ Hf Hr).
Qed.

(** The characters of the lines, counting one more for each line. *)
Lemma read_line_split (s : list ascii) :
  s = fst (read_line s) ++ newline :: snd (read_line s) \/
  (s = fst (read_line s) /\ snd (read_line s) = []).
Proof.
  induction s as [|c s IH]; [now right|]. cbn [read_line].
  destruct (Ascii.eqb_spec c newline) as [->|_]; [now left|].
  destruct (read_line s) as [line rest]. cbn [fst snd] in *.
  destruct IH as [IH|[IH1 IH2]]; [left | right]; cbn [app]; [|split]; congruence.
Qed.

Lemma lines_length_getlines (s : list ascii) :
  (lines_length (getlines s) <= length s + 1)%nat.
Proof.
  remember (length s) as n eqn:Hn. revert s Hn.
  induction n as [n IH] using lt_wf_ind. intros s Hn.
  destruct s as [|c s]; [cbn; lia|]. rewrite getlines_cons. cbn [lines_length].
  subst n. set (n := length (c :: s)) in *.
  destruct (read_line_split (c :: s)) as [H|[H1 H2]].
  - apply (f_equal (@length ascii)) in H. rewrite length_app in H. fold n in H.
    cbn [length] in H.
    specialize (IH (length (snd (read_line (c :: s)))) ltac:(lia) _ eq_refl). lia.
  - rewrite H2. rewrite <- H1. change (getlines []) with (@nil (list ascii)).
    cbn [lines_length]. fold n. lia.
Qed.

Lemma lines_length_filter (keep : list ascii -> bool) (lines : list (list ascii)) :
  (lines_length (List.filter keep lines) <= lines_length lines)%nat.
Proof.
  induction lines as [|line rest IH]; [reflexivity|]. cbn [List.filter lines_length].
  destruct (keep line); cbn [lines_length]; lia.
Qed.

Lemma join_lines_length (lines : list (list ascii)) :
  (length (join_lines lines) <= lines_length lines - 1)%nat.
Proof.
  induction lines as [|line rest IH]; [reflexivity|].
  destruct rest as [|line2 rest]; [cbn; lia|].
  change (join_lines (line :: line2 :: rest))
    with (line ++ newline :: join_lines (line2 :: rest)).
  rewrite length_app. cbn [length lines_length] in *. lia.
Qed.

Lemma removeAlias_run (aliasName : list ascii) (s : State) :
  removeAlias aliasName s
  = match exists_ (host s) (configFilePath (this s)) with
    | Throws e => (Throws e, s)
    | Returns false => (Returns false, with_error s (lit "Config file does not exist"))
    | Returns true =>
        let lines := match ifstream (host s) (configFilePath (this s)) with
                     | None => []
                     | Some bytes => getlines bytes
                     end in
        if bool_decide (lines = [])
        then (Returns false, with_error s (lit "Failed to read config file"))
        else match remove_lines lines aliasName false [] with
             | Throws e => (Throws e, s)
             | Returns (found, newLines) =>
                 if negb found
                 then (Returns false, with_error s (lit "Alias not found: " ++ aliasName))
                 else writeAllLines newLines s
             end
    end.
Proof.
  unfold removeAlias, readAllLines. hrun.
  destruct (exists_ (host s) (configFilePath (this s))) as [[|]|e]; cbn [negb]; hrun;
    [|reflexivity|reflexivity].
  cbv zeta.
  destruct (ifstream (host s) (configFilePath (this s))) as [bytes|]; hrun.
  - destruct (bool_decide (getlines bytes = [])); hrun; [reflexivity|].
    destruct (remove_lines (getlines bytes) aliasName false []) as [[found newLines]|e];
      [|reflexivity].
    destruct found; cbn [negb]; hrun; reflexivity.
  - rewrite bool_decide_eq_true_2 by reflexivity. hrun. reflexivity.
Qed.

(** X25: on a configuration file that can be read and is shorter than
    [npos], [loadAliases] never throws and leaves the handler and the host as
    they were; it returns, in the order of the file, the records of the lines
    that parse to a record with a name, and every record returned has a
    name. *)
Theorem loadAliases_reads (s : State) (f : file)
  (Hfile : files (disk (host s)) !! configFilePath (this s) = Some f)
  (Hread : configFilePath (this s) ∉ read_denied (host s))
  (Hsize : size (bytes_of (host s) (content f)) < npos) :
  loadAliases s = (Returns (aliases_of_lines (getlines (bytes_of (host s) (content f)))), s) /\
  Forall (fun a => name a <> [])
         (aliases_of_lines (getlines (bytes_of (host s) (content f)))).
Proof.
  split; [now apply loadAliases_file|].
  apply List.Forall_forall. intros a Ha. unfold aliases_of_lines in Ha.
  apply in_flat_map in Ha. destruct Ha as (line & _ & Ha).
  destruct (parseAliasLine line) as [r|]; [|destruct Ha].
  destruct (Str.eqb (name r) []) eqn:E; [destruct Ha|]. destruct Ha as [->|[]].
  unfold Str.eqb in E. now apply bool_decide_eq_false in E.
Qed.

(** X26: when the configuration file may be written and read, lines without
    a newline that [writeAllLines] writes are the lines [readAllLines] reads
    afterwards, except that an empty last line is lost; the file then has
    mode 0644 and [checkPermissions] answers true unless the mode may not be
    changed. *)
Theorem write_then_read (lines : list (list ascii)) (s : State)
  (Hwrite : configFilePath (this s) ∉ write_denied (host s))
  (Hread : configFilePath (this s) ∉ read_denied (host s))
  (Hdir : dirs (disk (host s)) !! configFilePath (this s) = None)
  (Hcount : Z.of_nat (length lines) < two64)
  (Hlines : Forall (fun line => ~ In newline line) lines) :
  exists s1,
    writeAllLines lines s = (Returns true, s1) /\
    readAllLines s1 = (Returns (drop_last_empty lines), s1) /\
    (configFilePath (this s) ∉ chmod_denied (host s) ->
     stat (host s1) (configFilePath (this s)) = Some 420 /\
     checkPermissions s1 = (Returns true, s1)).
Proof.
  destruct (writeAllLines_cases lines s)
    as [([Hw|Hd] & _)|(_ & _ & h2 & f2 & Hrun & Ht & Hf2 & Hb & Hm)];
    [contradiction | rewrite Hdir in Hd; now destruct Hd |].
  eexists. split; [exact Hrun|].
  destruct (touches_fields _ _ _ Ht) as (Hrd & _).
  split.
  - rewrite (readAllLines_file _ f2); cbn [host this]; [|assumption|now rewrite Hrd].
    rewrite Hb, (write_lines_join lines (Z.of_nat (length lines)) 0 []) by lia.
    cbn [app]. now rewrite (getlines_join lines Hlines).
  - intros Hc. specialize (Hm Hc).
    assert (Hstat : stat h2 (configFilePath (this s)) = Some 420).
    { unfold stat. now rewrite Hf2, Hm. }
    split; [exact Hstat|]. unfold checkPermissions. hrun. now rewrite Hstat.
Qed.

(** The line written for a record under BASH or ZSH parses back to it when
    the command does not hold both kinds of quote. *)
Lemma formatted_line_parses (self : AliasManager.t) (r : Alias) :
  currentShell self = ShellDetector.BASH \/ currentShell self = ShellDetector.ZSH ->
  validateAliasName (name r) = true -> validateCommand (command r) = true ->
  ~ (has_squote (command r) /\ In dquote (command r)) ->
  parseAliasLine (formatAlias self r) = Returns (alias_of (name r) (command r)).
Proof.
  intros Hshell Hname Hcommand Hq.
  pose proof (formatAlias_valid self r Hname Hcommand) as Hfmt.
  pose proof (find_squote_iff (command r) Hcommand) as Hsq.
  apply validateAliasName_spec in Hname.
  assert (Hline : formatAlias self r =
                  if negb (find (command r) squote 0 =? npos)
                  then lit "alias " ++ name r ++ lit "=" ++ [dquote] ++
                       escapeCommand (command r) ++ [dquote]
                  else lit "alias " ++ name r ++ lit "=" ++ [squote] ++
                       escapeCommand (command r) ++ [squote]).
  { rewrite Hfmt. now destruct Hshell as [-> | ->]. }
  rewrite Hline. destruct (negb (find (command r) squote 0 =? npos)).
  - apply parse_posix_line; try assumption; [now right|].
    intros Hd. apply Hq. split; [now apply Hsq | assumption].
  - apply parse_posix_line; try assumption; [now left|].
    intros Hs. apply Hsq in Hs. discriminate.
Qed.

Lemma formatAlias_nonempty (self : AliasManager.t) (r : Alias) :
  validateAliasName (name r) = true -> validateCommand (command r) = true ->
  formatAlias self r <> [].
Proof.
  intros Hn Hc. rewrite (formatAlias_valid self r Hn Hc).
  destruct (currentShell self); try destruct (negb (find (command r) squote 0 =? npos));
    discriminate.
Qed.

(** X27: under BASH or ZSH, adding a valid record whose command has no
    newline and not both kinds of quote, to a configuration file that may be
    written and read, returns true, and [loadAliases] then returns the
    records it would have returned before, followed by the record added;
    with one exception: when the file is not there and its status cannot be
    read, [fs::exists] throws in [ensureFileExists], nothing catches it and
    nothing changes. *)
Theorem addAlias_then_load (alias : Alias) (s : State)
  (Hshell : currentShell (aliasManager (this s)) = ShellDetector.BASH \/
            currentShell (aliasManager (this s)) = ShellDetector.ZSH)
  (Hname : validateAliasName (name alias) = true)
  (Hcommand : validateCommand (command alias) = true)
  (Hquotes : ~ (has_squote (command alias) /\ In dquote (command alias)))
  (Hline : ~ In newline (command alias))
  (Hwrite : configFilePath (this s) ∉ write_denied (host s))
  (Hread : configFilePath (this s) ∉ read_denied (host s))
  (Hdir : dirs (disk (host s)) !! configFilePath (this s) = None)
  (Hsize : size (current_bytes (host s) (configFilePath (this s))) +
           size (formatAlias (aliasManager (this s)) alias) + 1 < npos) :
  if MoreEffects.status_throws (disk (host s)) (configFilePath (this s)) then
    addAlias alias s = (Throws (lit "filesystem error: cannot get file status"), s)
  else
    exists s1,
      addAlias alias s = (Returns true, s1) /\
      loadAliases s1
      = (Returns (aliases_of_lines (getlines (current_bytes (host s) (configFilePath (this s))))
                  ++ [alias_of (name alias) (command alias)]), s1).
Proof.
  destruct (addAlias_cases alias s)
    as [([Hn|[Hc|[_ [Hw|Hd]]]] & _)
       |[(_ & _ & -> & Hthrow)
        |(_ & _ & -> & _ & _ & h2 & f2 & Hrun & Ht & Hf2 & Hb & _)]];
    [congruence | congruence | contradiction | rewrite Hdir in Hd; now destruct Hd
     | exact Hthrow |].
  eexists. split; [exact Hrun|].
  destruct (touches_fields _ _ _ Ht) as (Hrd & _).
  set (old := current_bytes (host s) (configFilePath (this s))) in *.
  set (line := formatAlias (aliasManager (this s)) alias) in *.
  pose proof (size_nonneg old) as Ho. pose proof (size_nonneg line) as Hl.
  rewrite (loadAliases_file _ f2); cbn [host this];
    [|assumption | now rewrite Hrd | rewrite Hb, size_app, size_cons; lia].
  f_equal. f_equal. rewrite Hb.
  destruct (getlines_app_newline old line) as (pad & Hpad & ->).
  rewrite !aliases_of_lines_app. f_equal.
  assert (Hparse : parseAliasLine line = Returns (alias_of (name alias) (command alias)))
    by now apply formatted_line_parses.
  assert (Hone : getlines line = [line]).
  { rewrite getlines_plain by now apply formatAlias_one_line.
    pose proof (formatAlias_nonempty (aliasManager (this s)) alias Hname Hcommand) as Hne.
    fold line in Hne. now destruct line. }
  rewrite Hone. unfold aliases_of_lines at 2. cbn [flat_map]. rewrite Hparse.
  assert (Hnm : Str.eqb (name (alias_of (name alias) (command alias))) [] = false).
  { change (name (alias_of (name alias) (command alias))) with (name alias).
    destruct (name alias); [discriminate Hname|].
    unfold Str.eqb. now apply bool_decide_eq_false_2. }
  rewrite Hnm. destruct Hpad as [-> | ->]; reflexivity.
Qed.

(** X28: when some record of a readable and writable configuration file has
    the name, [removeAlias] returns true, and [loadAliases] then returns the
    records it would have returned before without those of that name, in the
    same order. *)
Theorem removeAlias_then_load (aliasName : list ascii) (s : State) (f : file)
  (Hfile : files (disk (host s)) !! configFilePath (this s) = Some f)
  (Hwrite : configFilePath (this s) ∉ write_denied (host s))
  (Hread : configFilePath (this s) ∉ read_denied (host s))
  (Hdir : dirs (disk (host s)) !! configFilePath (this s) = None)
  (Hsize : size (bytes_of (host s) (content f)) < npos)
  (Hthere : exists a, In a (aliases_of_lines (getlines (bytes_of (host s) (content f)))) /\
                      name a = aliasName) :
  exists s1,
    removeAlias aliasName s = (Returns true, s1) /\
    loadAliases s1
    = (Returns (List.filter (fun a => negb (Str.eqb (name a) aliasName))
                  (aliases_of_lines (getlines (bytes_of (host s) (content f))))), s1).
Proof.
  set (bytes := bytes_of (host s) (content f)) in *.
  pose proof (lines_short bytes Hsize) as Hshort.
  pose proof (existsb_defines aliasName _ Hshort Hthere) as Hfound.
  rewrite removeAlias_run, (exists_file _ _ _ Hfile), (ifstream_file _ _ _ Hfile Hread).
  fold bytes. cbn [negb]. cbv zeta.
  assert (Hne : getlines bytes <> []).
  { intros E. rewrite E in Hfound. discriminate. }
  rewrite (bool_decide_eq_false_2 _ Hne), (remove_lines_spec aliasName _ Hshort), Hfound.
  cbn [orb negb app].
  set (kept := List.filter (fun line => negb (defines aliasName line)) (getlines bytes)).
  destruct (writeAllLines_cases kept s)
    as [([Hw|Hd] & _)|(_ & _ & h2 & f2 & Hrun & Ht & Hf2 & Hb & _)];
    [contradiction | rewrite Hdir in Hd; now destruct Hd |].
  eexists. split; [exact Hrun|].
  destruct (touches_fields _ _ _ Ht) as (Hrd & _).
  assert (Hkept : Forall (fun line => ~ In newline line /\ size line <= size bytes) kept).
  { apply List.Forall_forall. intros line Hin. apply filter_In in Hin. destruct Hin as [Hin _].
    pose proof (getlines_lines bytes) as Hall. rewrite List.Forall_forall in Hall.
    now apply Hall. }
  assert (Hcount : (length kept <= length bytes)%nat).
  { pose proof (getlines_count bytes). pose proof (List.filter_length_le
      (fun line => negb (defines aliasName line)) (getlines bytes)). unfold kept. lia. }
  assert (Hjoin : bytes_of h2 (content f2) = join_lines kept).
  { rewrite Hb. apply (write_lines_join kept (Z.of_nat (length kept)) 0 []); [lia | lia |].
    rewrite npos_value in Hsize. rewrite two64_value. unfold size in Hsize. lia. }
  assert (Hback : getlines (join_lines kept) = drop_last_empty kept).
  { apply getlines_join. revert Hkept. apply List.Forall_impl. tauto. }
  assert (Hsz2 : size (join_lines kept) < npos).
  { pose proof (join_lines_length kept) as H1.
    pose proof (lines_length_filter (fun line => negb (defines aliasName line)) (getlines bytes))
      as H2.
    pose proof (lines_length_getlines bytes) as H3. fold kept in H2.
    unfold size in *. lia. }
  rewrite (loadAliases_file _ f2); cbn [host this];
    [|assumption | now rewrite Hrd | now rewrite Hjoin].
  rewrite Hjoin, Hback, aliases_drop_last_empty. unfold kept.
  now rewrite (aliases_of_kept_lines aliasName _ Hshort).
Qed.

Lemma writeAllLines_careful (lines : list (list ascii)) (s : State) :
  careful (configFilePath (this s)) (host s) (writeAllLines lines s)
          (Returns true) (Returns false).
Proof.
  destruct (writeAllLines_cases lines s)
    as [(_ & Hr & Hh & He)|(_ & _ & h2 & f2 & Hrun & Ht & _)].
  - split; [rewrite Hh; apply touches_only_refl|]. split; [now intros _ | now intros _].
  - rewrite Hrun. cbn [fst snd host]. split; [assumption|].
    split; [now intros H | discriminate].
Qed.

Lemma addAlias_careful (alias : Alias) (s : State) :
  careful (configFilePath (this s)) (host s) (addAlias alias s)
          (Returns true) (Returns false).
Proof.
  destruct (addAlias_cases alias s)
    as [(_ & Hr & Hh & He)
       |[(_ & _ & _ & Hrun)|(_ & _ & _ & _ & _ & h2 & f2 & Hrun & Ht & _)]].
  - split; [rewrite Hh; apply touches_only_refl|]. split; [now intros _ | now intros _].
  - rewrite Hrun. cbn [fst snd]. split; [apply touches_only_refl|].
    split; [reflexivity | discriminate].
  - rewrite Hrun. cbn [fst snd host]. split; [assumption|].
    split; [now intros H | discriminate].
Qed.

Lemma refused_careful (s : State) (e : list ascii) :
  e <> [] ->
  careful (configFilePath (this s)) (host s) (Returns false, with_error s e)
          (Returns true) (Returns false).
Proof.
  intros He. split; [apply touches_only_refl|]. split; [reflexivity | now intros _].
Qed.

Lemma removeAlias_careful (aliasName : list ascii) (s : State) :
  careful (configFilePath (this s)) (host s) (removeAlias aliasName s)
          (Returns true) (Returns false).
Proof.
  rewrite removeAlias_run.
  destruct (exists_ (host s) (configFilePath (this s))) as [[|]|e];
    [|apply refused_careful; discriminate
     |split; [apply touches_only_refl|]; split; [reflexivity | discriminate]].
  cbv zeta.
  destruct (bool_decide _); [apply refused_careful; discriminate|].
  destruct (remove_lines _ aliasName false []) as [[found newLines]|e].
  - destruct found; cbn [negb]; [apply writeAllLines_careful|].
    apply refused_careful. discriminate.
  - split; [apply touches_only_refl|]. split; [reflexivity | discriminate].
Qed.

(** X29: unless it returns true, [addAlias], [removeAlias] or
    [writeAllLines] leaves the host as it was; when it returns false it has
    recorded an error message. *)
Theorem refused_operations_change_nothing
  (alias : Alias) (aliasName : list ascii) (lines : list (list ascii)) (s : State) :
  let unchanged (r : outcome bool * State) :=
    (fst r = Returns true \/ host (snd r) = host s) /\
    (fst r = Returns false -> lastError (this (snd r)) <> []) in
  unchanged (addAlias alias s) /\ unchanged (removeAlias aliasName s) /\
  unchanged (writeAllLines lines s).
Proof.
  cbv zeta.
  assert (H : forall r, careful (configFilePath (this s)) (host s) r (Returns true) (Returns false) ->
                        (fst r = Returns true \/ host (snd r) = host s) /\
                        (fst r = Returns false -> lastError (this (snd r)) <> [])).
  { intros [o s1] (_ & Hh & He). split; [|exact He]. cbn [fst snd] in *.
    destruct o as [[|]|e]; [now left | right; apply Hh; discriminate
                           | right; apply Hh; discriminate]. }
  split; [apply H, addAlias_careful|]. split; [apply H, removeAlias_careful|].
  apply H, writeAllLines_careful.
Qed.

(** X30: [addAlias], [removeAlias] and [writeAllLines] change nothing on
    the host but the contents, the modification time and the mode of the
    configuration file; [loadAliases] and [readAllLines] change nothing
    at all. *)
Theorem handler_touches_its_file_only
  (alias : Alias) (aliasName : list ascii) (lines : list (list ascii)) (s : State) :
  touches_only (configFilePath (this s)) (host s) (host (snd (addAlias alias s))) /\
  touches_only (configFilePath (this s)) (host s) (host (snd (removeAlias aliasName s))) /\
  touches_only (configFilePath (this s)) (host s) (host (snd (writeAllLines lines s))) /\
  host (snd (loadAliases s)) = host s /\
  host (snd (readAllLines s)) = host s.
Proof.
  split; [apply addAlias_careful|]. split; [apply removeAlias_careful|].
  split; [apply writeAllLines_careful|]. split.
  - unfold loadAliases. hrun.
    destruct (exists_ (host s) (configFilePath (this s))) as [[|]|e]; cbn [negb]; hrun;
      [|reflexivity|reflexivity].
    destruct (ifstream (host s) (configFilePath (this s))); hrun; reflexivity.
  - unfold readAllLines. hrun.
    destruct (ifstream (host s) (configFilePath (this s))); reflexivity.
Qed.

End Handler.

Section MoreSampleRuns.
Import Str Sys Cxx Posix AliasManager BackupManager Effects Sample BackupSpec Spec.
Import MoreEffects DetectorWords HandlerWords HandlerEffects HostSample.
Import ShellDetector ShellDetectorImpl.


Lemma not_in_by_computation (c : ascii) (s : list ascii) :
  existsb (Ascii.eqb c) s = false -> ~ In c s.
Proof.
  intros H Hin. assert (E : existsb (Ascii.eqb c) s = true).
  { apply existsb_exists. exists c. split; [assumption | apply Ascii.eqb_refl]. }
  congruence.
Qed.

Lemma no_newline_by_computation (lines : list (list ascii)) :
  forallb (fun line => negb (existsb (Ascii.eqb newline) line)) lines = true ->
  Forall (fun line => ~ In newline line) lines.
Proof.
  intros H. apply List.Forall_forall. intros line Hin.
  rewrite forallb_forall in H. specialize (H _ Hin). apply not_in_by_computation.
  now destruct (existsb (Ascii.eqb newline) line).
Qed.

Lemma restoreFromBackup_compressed_witness :
  match files (world machine_xz) !! (bak 1 ++ lit ".xz"), copy_failure (world machine_xz) with
  | Some (mkFile t (Xz inner)), None =>
      if bool_decide (bak 1 ++ lit ".xz" ∈ xz_failing (world machine_xz)) then
        restoreFromBackup (bak 1 ++ lit ".xz") machine_xz
        = (Returns false,
           with_lastError machine_xz (lit "Failed to decompress backup: " ++ bak 1 ++ lit ".xz"))
      else
        restoreFromBackup (bak 1 ++ lit ".xz") machine_xz
        = (Returns true,
           restored_with machine_xz (<[bak 1 := mkFile t inner]> (files (world machine_xz))) inner)
  | _, _ => exists m', restoreFromBackup (bak 1 ++ lit ".xz") machine_xz = (Returns false, m')
  end.
Proof.
  apply (restoreFromBackup_compressed (bak 1) machine_xz). vm_compute. reflexivity.
Defined.

Lemma compress_then_restore_witness :
  exists f m2,
    files (world machine_raw) !! bak 1 = Some f /\
    restoreFromBackup (bak 1 ++ lit ".xz")
      (snd (xz.system (lit "xz -9e " ++ bak 1) machine_raw)) = (Returns true, m2) /\
    files (world m2) !! originalFilePath (self machine_raw)
    = Some (mkFile (now (world machine_raw)) (content f)).
Proof.
  apply (compress_then_restore (bak 1) machine_raw).
  - vm_compute. reflexivity.
  - vm_compute. reflexivity.
  - reflexivity.
  - apply not_elem_of_empty.
Defined.

Lemma rotation_for_any_cap_witness :
  let cap := Z.to_nat (if 12 <=? 0 then 20 else 12) in
  exists deleted m',
    cleanupAndCompressOldBackups sort_newest 12 machine25 = (Returns deleted, m') /\
    (forall (i : nat) (p : list ascii) (t : Z),
       backups_newest_first sort_newest machine25 !! i = Some (p, t) ->
       exists f, files (world machine25) !! p = Some f /\
         if (i <? Nat.min 10 cap)%nat then files (world m') !! p = Some f
         else if (i <? cap)%nat then
           if xz.has_xz_suffix p then files (world m') !! p = Some f
           else if compressible (xz_failing (world machine25)) (files (world machine25)) p then
             files (world m') !! p = None /\
             files (world m') !! (p ++ lit ".xz") = Some (mkFile (mtime f) (Xz (content f)))
           else files (world m') !! p = Some f
         else
           if bool_decide (p ∈ undeletable (world machine25))
           then files (world m') !! p = Some f
           else files (world m') !! p = None) /\
    deleted
    = Z.of_nat (length (skipn cap (backups_newest_first sort_newest machine25)))
      - Z.of_nat (length (List.filter
                            (fun e => bool_decide (fst e ∈ undeletable (world machine25)))
                            (skipn cap (backups_newest_first sort_newest machine25)))).
Proof.
  apply (rotation_for_any_cap sort_newest sort_newest_perm 12 machine25).
  - lia.
  - apply machine25_paths.
  - vm_compute. reflexivity.
Defined.



Lemma laptop_SHELL :
  forall shellPath, getenv laptop (lit "SHELL") = Some shellPath -> size shellPath < npos.
Proof.
  assert (E : getenv laptop (lit "SHELL") = Some (lit "/usr/bin/zsh")) by (vm_compute; reflexivity).
  intros shellPath H. rewrite E in H. injection H as <-. vm_compute. reflexivity.
Defined.

Lemma detectFromEnvironment_outcome_witness :
  detectFromEnvironment laptop = Returns ZSH.
Proof.
  rewrite (detectFromEnvironment_outcome laptop laptop_SHELL). vm_compute. reflexivity.
Defined.

Lemma expandHome_outcome_witness :
  expandHome laptop (lit "~/.bashrc") = Returns (lit "/home/u/.bashrc").
Proof.
  assert (Hsz : size (lit "~/.bashrc") < npos) by (vm_compute; reflexivity).
  destruct (expandHome_outcome laptop (lit "~/.bashrc") Hsz) as (_ & _ & _ & Hhome).
  destruct (Hhome (lit "/home/u") (lit ".bashrc") eq_refl) as (_ & Hslash & _).
  exact (Hslash eq_refl).
Defined.

Lemma detectShell_never_unknown_witness :
  let throwing :=
    detectFromEnvironment laptop = Returns UNKNOWN /\
    scan_throws (disk laptop) (config_paths laptop) = true in
  (throwing -> detectShell laptop = Throws (lit "filesystem error: cannot get file status")) /\
  (~ throwing ->
   exists shell out,
     detectShell laptop = Returns (shell, out) /\ shell <> UNKNOWN /\
     (forall fromEnv, detectFromEnvironment laptop = Returns fromEnv -> fromEnv <> UNKNOWN ->
                      shell = fromEnv /\ out = []) /\
     (out <> [] -> shell = BASH)).
Proof.
  apply (detectShell_never_unknown laptop laptop_SHELL).
Defined.

Lemma loadAliases_reads_witness :
  ConfigFileHandler.loadAliases session
  = (Returns (aliases_of_lines (getlines (bytes_of (ConfigFileHandler.host session)
                                            (content bashrc_file)))), session) /\
  Forall (fun a => name a <> [])
         (aliases_of_lines (getlines (bytes_of (ConfigFileHandler.host session)
                                        (content bashrc_file)))).
Proof.
  apply (loadAliases_reads session bashrc_file).
  - vm_compute. reflexivity.
  - apply not_elem_of_empty.
  - vm_compute. reflexivity.
Defined.

Lemma write_then_read_witness :
  exists s1,
    ConfigFileHandler.writeAllLines [lit "alias a='b'"; lit "# end"] session = (Returns true, s1) /\
    ConfigFileHandler.readAllLines s1
    = (Returns (drop_last_empty [lit "alias a='b'"; lit "# end"]), s1) /\
    (ConfigFileHandler.configFilePath (ConfigFileHandler.this session)
       ∉ chmod_denied (ConfigFileHandler.host session) ->
     stat (ConfigFileHandler.host s1)
       (ConfigFileHandler.configFilePath (ConfigFileHandler.this session)) = Some 420 /\
     ConfigFileHandler.checkPermissions s1 = (Returns true, s1)).
Proof.
  apply (write_then_read [lit "alias a='b'"; lit "# end"] session).
  - apply not_elem_of_empty.
  - apply not_elem_of_empty.
  - vm_compute. reflexivity.
  - vm_compute. reflexivity.
  - apply no_newline_by_computation. vm_compute. reflexivity.
Defined.

Lemma addAlias_then_load_witness :
  if status_throws (disk (ConfigFileHandler.host session))
       (ConfigFileHandler.configFilePath (ConfigFileHandler.this session))
  then
    ConfigFileHandler.addAlias (alias_of (lit "gp") (lit "git push")) session
    = (Throws (lit "filesystem error: cannot get file status"), session)
  else
    exists s1,
      ConfigFileHandler.addAlias (alias_of (lit "gp") (lit "git push")) session
      = (Returns true, s1) /\
      ConfigFileHandler.loadAliases s1
      = (Returns (aliases_of_lines
                    (getlines (current_bytes (ConfigFileHandler.host session)
                                 (ConfigFileHandler.configFilePath
                                    (ConfigFileHandler.this session))))
                  ++ [alias_of (name (alias_of (lit "gp") (lit "git push")))
                        (command (alias_of (lit "gp") (lit "git push")))]), s1).
Proof.
  apply (addAlias_then_load (alias_of (lit "gp") (lit "git push")) session).
  - left. reflexivity.
  - vm_compute. reflexivity.
  - vm_compute. reflexivity.
  - intros [_ H]. revert H. apply not_in_by_computation. vm_compute. reflexivity.
  - apply not_in_by_computation. vm_compute. reflexivity.
  - apply not_elem_of_empty.
  - apply not_elem_of_empty.
  - vm_compute. reflexivity.
  - vm_compute. reflexivity.
Defined.

Lemma removeAlias_then_load_witness :
  exists s1,
    ConfigFileHandler.removeAlias (lit "ll") session = (Returns true, s1) /\
    ConfigFileHandler.loadAliases s1
    = (Returns (List.filter (fun a => negb (Str.eqb (name a) (lit "ll")))
                  (aliases_of_lines
                     (getlines (bytes_of (ConfigFileHandler.host session)
                                  (content bashrc_file))))), s1).
Proof.
  apply (removeAlias_then_load (lit "ll") session bashrc_file).
  - vm_compute. reflexivity.
  - apply not_elem_of_empty.
  - apply not_elem_of_empty.
  - vm_compute. reflexivity.
  - vm_compute. reflexivity.
  - exists (alias_of (lit "ll") (lit "ls -la")). split; [|reflexivity].
    assert (E : aliases_of_lines (getlines (bytes_of (ConfigFileHandler.host session)
                                              (content bashrc_file)))
                = [alias_of (lit "ll") (lit "ls -la"); alias_of (lit "gs") (lit "git status")])
      by (vm_compute; reflexivity).
    rewrite E. now left.
Defined.

End MoreSampleRuns.
